(** * GeneralBasic: a shallow embedding of the compiler front-end and the
      URCL back-end

    The development follows the three Python sources:
    - [compiler.py]: types, memory blocks, expressions, statements, callables,
      the literal parser [parse_value] and the expression parser
      [parse_expression];
    - [emitter.py]: the abstract emitter ([create_label], [mark_label]);
    - [emitters/urcl.py]: the URCL emitter and its peephole optimizers.

    The command line of [gb.py] only wires these together and is not
    embedded; [emitter_with] is the emitter it creates.

    Python objects are embedded by value.  A [str] is a [string] of ASCII
    characters, an [int] is a [Z], a [list] is a [list] in Python order, and
    a [dict] keyed by strings is a [gmap string _].  [int(s)] has the limit
    of 4300 digits that CPython sets on the conversion; [str(n)] is the
    numeral of [n], which CPython writes up to the same limit.  Code that can raise
    returns a [result]; code that mutates the emitter threads it explicitly
    and keeps the mutated emitter when an exception is raised, as Python
    does.

    The objects of the intermediate representation are snapshots: a type, a
    variable or a callable is the tree of what it refers to at the time it
    is used, and the classes that Python compares by identity carry an
    [oid].  Emission, the offsets of memory blocks and the two parsers read
    such snapshots and are embedded in full.  Resolution, which overwrites
    attributes of objects that other objects share, is embedded for the
    resolver itself, for parameters and for variable expressions, each
    returning the new value of what it overwrites.

    The loops of [commit] that restart after a rewrite take fuel, and
    [commit_fuel] is shown to be always enough.  The
    virtual stack of the forward pass has its top last, as the Python list;
    the two stacks of [parse_expression] have their top first. *)

From Stdlib Require Import ZArith String Ascii List Bool Lia.
From Stdlib Require Import DecimalString DecimalFacts DecimalPos DecimalN DecimalZ.
From stdpp Require Import base option list gmap strings.

Local Open Scope string_scope.
Local Open Scope Z_scope.

(** ** Python exceptions and results *)

Inductive PyError : Set :=
| Exception (msg : string)
| RuntimeError (msg : string)
| NotImplementedError
| TypeError (msg : string)
| AttributeError (msg : string)
| IndexError (msg : string)
| KeyError (key : string)
| ValueError (msg : string).

Inductive result (A : Type) : Type :=
| Ok (a : A)
| Raise (e : PyError).

Arguments Ok {A} a.
Arguments Raise {A} e.

#[global] Instance result_ret : MRet result := fun A a => Ok a.
#[global] Instance result_bind : MBind result := fun A B f m =>
  match m with
  | Ok a => f a
  | Raise e => Raise e
  end.

(** [try: ... except: ...] with a bare [except], which catches everything. *)
Definition try_except {A : Type} (body : result A) (handler : result A) : result A :=
  match body with
  | Ok a => Ok a
  | Raise _ => handler
  end.

(** Stateful code that can raise: the state is threaded, and is kept as the
    code left it when an exception is raised. *)
Definition StateM (S A : Type) : Type := S -> result A * S.

#[global] Instance StateM_ret (S : Type) : MRet (StateM S) := fun A a s => (Ok a, s).
#[global] Instance StateM_bind (S : Type) : MBind (StateM S) := fun A B f m s =>
  match m s with
  | (Ok a, s') => f a s'
  | (Raise err, s') => (Raise err, s')
  end.

Definition raise {S A : Type} (err : PyError) : StateM S A := fun s => (Raise err, s).

Definition lift {S A : Type} (r : result A) : StateM S A := fun s => (r, s).

Definition get {S : Type} : StateM S S := fun s => (Ok s, s).

Definition modify {S : Type} (f : S -> S) : StateM S unit := fun s => (Ok tt, f s).

(** [for x in xs: body(x)] *)
Definition for_each {S A : Type} (xs : list A) (body : A -> StateM S unit) : StateM S unit :=
  (fix go (xs : list A) : StateM S unit :=
     match xs with
     | [] => mret tt
     | x :: xs' => body x ;; go xs'
     end) xs.

(** [for x in xs: acc = body(acc, x)] *)
Definition fold_each {S A B : Type} (xs : list A) (acc : B) (body : B -> A -> StateM S B)
    : StateM S B :=
  (fix go (xs : list A) (acc : B) : StateM S B :=
     match xs with
     | [] => mret acc
     | x :: xs' => acc' ← body acc x; go xs' acc'
     end) xs acc.

(** ** Python built-ins on [str], [int] and [list] *)

Module Py.

Definition chr (n : nat) : ascii := ascii_of_nat n.
Definition ord (c : ascii) : nat := nat_of_ascii c.

Definition in_range (lo hi : nat) (c : ascii) : bool :=
  (Nat.leb lo (ord c) && Nat.leb (ord c) hi)%bool.

Definition is_lower (c : ascii) : bool := in_range 97 122 c.
Definition is_upper (c : ascii) : bool := in_range 65 90 c.
Definition is_digit (c : ascii) : bool := in_range 48 57 c.

(** ASCII white space as [str.isspace] and the regular expression class
    [\s] see it: TAB, LF, VT, FF, CR, FS, GS, RS, US and the
    space. *)
Definition is_space (c : ascii) : bool :=
  (in_range 9 13 c || in_range 28 31 c || Nat.eqb (ord c) 32)%bool.

(** The regular expression class [\w] on ASCII text. *)
Definition is_word (c : ascii) : bool :=
  (is_lower c || is_upper c || is_digit c || Nat.eqb (ord c) 95)%bool.

Definition upper_char (c : ascii) : ascii :=
  if is_lower c then chr (ord c - 32)%nat else c.

(** [s.upper()] *)
Fixpoint upper (s : string) : string :=
  match s with
  | EmptyString => EmptyString
  | String c s' => String (upper_char c) (upper s')
  end.

(** [s[n:]] for [n >= 0] *)
Fixpoint drop (n : nat) (s : string) : string :=
  match n, s with
  | O, _ => s
  | S n', String _ s' => drop n' s'
  | S _, EmptyString => EmptyString
  end.

(** [s.startswith(p)] *)
Definition startswith (s p : string) : bool := String.prefix p s.

Fixpoint rev_acc (s acc : string) : string :=
  match s with
  | EmptyString => acc
  | String c s' => rev_acc s' (String c acc)
  end.

Definition rev (s : string) : string := rev_acc s EmptyString.

(** [s.endswith(p)] *)
Definition endswith (s p : string) : bool := String.prefix (rev p) (rev s).

(** [s[:len(s) - 1]] *)
Definition drop_last (s : string) : string := rev (drop 1 (rev s)).

Fixpoint all_chars (p : ascii -> bool) (s : string) : bool :=
  match s with
  | EmptyString => true
  | String c s' => (p c && all_chars p s')%bool
  end.

(** [s.isspace()]: every character is white space and there is at least one. *)
Definition isspace (s : string) : bool :=
  match s with
  | EmptyString => false
  | _ => all_chars is_space s
  end.

(** The white space that [int] skips before and after a literal in ASCII
    text, C's [isspace]: TAB, LF, VT, FF, CR and the space.  The separators
    FS, GS, RS and US, which [str.isspace] accepts, are not skipped. *)
Definition is_int_space (c : ascii) : bool :=
  (in_range 9 13 c || Nat.eqb (ord c) 32)%bool.

Fixpoint int_lstrip (s : string) : string :=
  match s with
  | String c s' => if is_int_space c then int_lstrip s' else s
  | EmptyString => EmptyString
  end.

Fixpoint int_rstrip (s : string) : string :=
  match s with
  | String c s' =>
      match int_rstrip s' with
      | EmptyString => if is_int_space c then EmptyString else String c EmptyString
      | rest => String c rest
      end
  | EmptyString => EmptyString
  end.

Definition int_strip (s : string) : string := int_rstrip (int_lstrip s).

(** [sep.join(parts)] *)
Fixpoint join (sep : string) (parts : list string) : string :=
  match parts with
  | [] => EmptyString
  | [p] => p
  | p :: ps => p ++ sep ++ join sep ps
  end.

(** [s.split(sep)] for a one-character separator: always at least one part. *)
Fixpoint split_acc (sep : ascii) (s : string) (cur : string) : list string :=
  match s with
  | EmptyString => [rev cur]
  | String c s' =>
      if Ascii.eqb c sep then rev cur :: split_acc sep s' EmptyString
      else split_acc sep s' (String c cur)
  end.

Definition split (sep : ascii) (s : string) : list string :=
  split_acc sep s EmptyString.

(** [str(n)] for an [int]: the decimal numeral.  CPython from 3.11 on
    refuses the conversion of an [int] of more than [max_str_digits] digits
    with a [ValueError]; the immediates, sizes and counters that the emitter
    writes are far below that, and [str] is the numeral itself.  What is
    proved of reading a numeral back with [int] carries the bound. *)
Definition str (n : Z) : string := NilZero.string_of_int (Z.to_int n).

(** [sys.get_int_max_str_digits()] as CPython starts with. *)
Definition max_str_digits : Z := 4300.

(** The value of a digit character in bases up to 16, either case. *)
Definition digit_value (c : ascii) : option Z :=
  if is_digit c then Some (Z.of_nat (ord c - 48))
  else if in_range 65 70 c then Some (Z.of_nat (ord c - 55))
  else if in_range 97 102 c then Some (Z.of_nat (ord c - 87))
  else None.

(** The digits of an integer literal: digits of the base, with single
    underscores allowed between digits.  [prev] tells whether the previous
    character was a digit, [acc] is the value read so far. *)
Fixpoint int_digits (base : Z) (s : string) (prev : bool) (acc : Z) : option Z :=
  match s with
  | EmptyString => if prev then Some acc else None
  | String c s' =>
      if Ascii.eqb c "_" then
        if prev then int_digits base s' false acc else None
      else
        match digit_value c with
        | Some d => if d <? base then int_digits base s' true (acc * base + d) else None
        | None => None
        end
  end.

(** The optional base prefix [0x], [0o] or [0b] accepted by [int(s, base)]
    for the matching base; an underscore may follow the prefix. *)
Definition int_prefix (base : Z) (s : string) : string :=
  let p := upper (String.substring 0 2 s) in
  let matches :=
    ((base =? 16) && String.eqb p "0X" || (base =? 8) && String.eqb p "0O"
     || (base =? 2) && String.eqb p "0B")%bool in
  if matches then
    let s' := drop 2 s in
    if startswith s' "_" then drop 1 s' else s'
  else s.

(** The digits of a literal that count for the limit of the conversion:
    its characters but the underscores. *)
Fixpoint digit_count (s : string) : nat :=
  match s with
  | EmptyString => O
  | String c s' => if Ascii.eqb c "_" then digit_count s' else S (digit_count s')
  end.

Definition backslash : ascii := chr 92.

(** A hexadecimal digit in lower case. *)
Definition hex_digit (n : nat) : ascii :=
  if Nat.ltb n 10 then chr (48 + n) else chr (87 + n).

(** [repr(s)] for a [str]: double quotes when the text holds a single quote
    and no double quote, single quotes otherwise; the quote and the backslash
    are escaped, TAB, LF and CR are written with their letters and what else
    is not printable as [\xNN]. *)
Definition repr_char (quote c : ascii) : string :=
  let n := ord c in
  if (Ascii.eqb c quote || Ascii.eqb c backslash)%bool then
    String backslash (String c EmptyString)
  else if Nat.eqb n 9 then String backslash "t"
  else if Nat.eqb n 10 then String backslash "n"
  else if Nat.eqb n 13 then String backslash "r"
  else if (Nat.ltb n 32 || in_range 127 160 c || Nat.eqb n 173)%bool then
    String backslash
      (String "x" (String (hex_digit (n / 16)) (String (hex_digit (n mod 16)) EmptyString)))
  else String c EmptyString.

Fixpoint repr_chars (quote : ascii) (s : string) : string :=
  match s with
  | EmptyString => EmptyString
  | String c s' => repr_char quote c ++ repr_chars quote s'
  end.

Fixpoint contains (c : ascii) (s : string) : bool :=
  match s with
  | EmptyString => false
  | String c' s' => (Ascii.eqb c c' || contains c s')%bool
  end.

Definition repr (s : string) : string :=
  let quote := if (contains "'" s && negb (contains (chr 34) s))%bool then chr 34
               else "'"%char in
  String quote (repr_chars quote s ++ String quote EmptyString).

(** The two errors of [int(s, base)]; the first shows at most 200 characters
    of [repr(s)]. *)
Definition invalid_literal (s : string) (base : Z) : PyError :=
  ValueError ("invalid literal for int() with base " ++ str base ++ ": "
              ++ String.substring 0 200 (repr s)).

Definition exceeds_limit (digits : nat) : PyError :=
  ValueError ("Exceeds the limit (" ++ str max_str_digits
              ++ " digits) for integer string conversion: value has "
              ++ str (Z.of_nat digits)
              ++ " digits; use sys.set_int_max_str_digits() to increase the limit").

(** [int(s, base)] on ASCII text for the bases 2, 8, 10 and 16: the white
    space around the literal is skipped, one sign is allowed, and anything
    that is not an integer literal of the base raises [ValueError].  In a
    base that is not a power of two, a literal of more than [max_str_digits]
    digits raises [ValueError] as well. *)
Definition int (s : string) (base : Z) : result Z :=
  let s1 := int_strip s in
  let negative := startswith s1 "-" in
  let s2 := if (negative || startswith s1 "+")%bool then drop 1 s1 else s1 in
  let literal := int_prefix base s2 in
  match int_digits base literal false 0 with
  | Some n =>
      if (negb (Z.land base (base - 1) =? 0)
          && (max_str_digits <? Z.of_nat (digit_count literal)))%bool
      then Raise (exceeds_limit (digit_count literal))
      else Ok (if negative then - n else n)
  | None => Raise (invalid_literal s base)
  end.

(** [l[i]] with Python's negative indices. *)
Definition getitem {A : Type} (l : list A) (i : Z) : result A :=
  let n := Z.of_nat (length l) in
  let j := if i <? 0 then i + n else i in
  if ((0 <=? j) && (j <? n))%bool then
    match l !! Z.to_nat j with
    | Some x => Ok x
    | None => Raise (IndexError "list index out of range")
    end
  else Raise (IndexError "list index out of range").

(** [range(start, stop)] *)
Definition range (start stop : Z) : list Z :=
  map (fun k => start + Z.of_nat k) (seq 0 (Z.to_nat (stop - start))).

(** [range(start, stop, -1)] *)
Definition range_down (start stop : Z) : list Z :=
  map (fun k => start - Z.of_nat k) (seq 0 (Z.to_nat (start - stop))).

End Py.

(** ** Regular expressions of the [re] module

    A pattern is a syntax tree; [exec] is a backtracking matcher with the
    priorities of [re]: alternatives left to right, repetition greedy.  The
    continuation receives the position reached and the text that is left. *)

Module Re.

Inductive regex : Type :=
| Eps
| Chr (p : ascii -> bool)
| Seq (r1 r2 : regex)
| Alt (r1 r2 : regex)
| Star (r : regex)
| Grp (r : regex)
| Bol
| Eol.

Definition Plus (r : regex) : regex := Seq r (Star r).
Definition Opt (r : regex) : regex := Alt r Eps.

(** A literal character, and a literal under [re.IGNORECASE]. *)
Definition C (c : ascii) : regex := Chr (Ascii.eqb c).
Definition Ci (c : ascii) : regex :=
  Chr (fun x => Ascii.eqb (Py.upper_char x) (Py.upper_char c)).

Fixpoint Lit (s : string) : regex :=
  match s with
  | EmptyString => Eps
  | String c EmptyString => C c
  | String c s' => Seq (C c) (Lit s')
  end.

Fixpoint LitI (s : string) : regex :=
  match s with
  | EmptyString => Eps
  | String c EmptyString => Ci c
  | String c s' => Seq (Ci c) (LitI s')
  end.

(** A character set [[...]]: its items are single characters, ranges and
    classes. *)
Definition one (c : ascii) : ascii -> bool := Ascii.eqb c.
Definition rng (lo hi : ascii) : ascii -> bool := Py.in_range (Py.ord lo) (Py.ord hi).
Definition OneOf (items : list (ascii -> bool)) : regex :=
  Chr (fun x => existsb (fun item => item x) items).

(** [.] matches anything but a line feed. *)
Definition Dot : regex := Chr (fun x => negb (Nat.eqb (Py.ord x) 10)).
Definition Word : regex := Chr Py.is_word.
Definition Digit : regex := Chr Py.is_digit.
Definition Space : regex := Chr Py.is_space.

(** [$] matches at the end of the text and just before a final line feed. *)
Definition at_eol (s : string) : bool :=
  match s with
  | EmptyString => true
  | String c EmptyString => Nat.eqb (Py.ord c) 10
  | _ => false
  end.

(** The repetition [r*], given the matcher [step] of [r]: as many turns of
    [r] as possible, each one consuming something, then the rest of the
    pattern; one turn less when the rest does not match. *)
Definition star_loop (step : nat -> string -> (nat -> string -> option string) -> option string)
    (k : nat -> string -> option string) : nat -> nat -> string -> option string :=
  fix loop (fuel pos : nat) (s : string) {struct fuel} : option string :=
    match fuel with
    | O => k pos s
    | S fuel' =>
        match step pos s (fun pos' s' => if Nat.ltb pos pos' then loop fuel' pos' s' else None) with
        | Some rest => Some rest
        | None => k pos s
        end
    end.

Fixpoint exec (r : regex) (pos : nat) (s : string)
    (k : nat -> string -> option string) {struct r} : option string :=
  match r with
  | Eps => k pos s
  | Chr p =>
      match s with
      | String c s' => if p c then k (S pos) s' else None
      | EmptyString => None
      end
  | Seq r1 r2 => exec r1 pos s (fun pos' s' => exec r2 pos' s' k)
  | Alt r1 r2 =>
      match exec r1 pos s k with
      | Some rest => Some rest
      | None => exec r2 pos s k
      end
  | Star r1 => star_loop (exec r1) k (S (String.length s)) pos s
  | Grp r1 => exec r1 pos s k
  | Bol => if Nat.eqb pos 0 then k pos s else None
  | Eol => if at_eol s then k pos s else None
  end.

(** The pattern written [^r$]: the text of [r] between the two anchors.  An
    alternation at the top of [r] is not inside a group, so the anchors
    fall into its first and last alternatives. *)
Fixpoint anchor_end (r : regex) : regex :=
  match r with
  | Alt r1 r2 => Alt r1 (anchor_end r2)
  | _ => Seq r Eol
  end.

Definition anchored (r : regex) : regex :=
  match r with
  | Alt r1 r2 => Alt (Seq Bol r1) (anchor_end r2)
  | _ => Seq Bol (Seq r Eol)
  end.

(** The text left after the first match of [r] at position [pos]. *)
Definition match_at (r : regex) (pos : nat) (s : string) : option string :=
  exec r pos s (fun _ rest => Some rest).

(** [re.match(r, s) != None] *)
Definition matches (r : regex) (s : string) : bool :=
  match match_at r 0 s with
  | Some _ => true
  | None => false
  end.

(** [re.findall(r, s)] for a pattern without capturing groups: the matches
    from left to right; a character at which nothing matches is skipped. *)
Fixpoint findall_from (fuel : nat) (r : regex) (pos : nat) (s : string) : list string :=
  match fuel with
  | O => []
  | S fuel' =>
      match match_at r pos s with
      | Some rest =>
          let n := (String.length s - String.length rest)%nat in
          let tok := String.substring 0 n s in
          match s with
          | EmptyString => [tok]
          | String _ s' =>
              if Nat.eqb n 0 then tok :: findall_from fuel' r (S pos) s'
              else tok :: findall_from fuel' r (pos + n)%nat rest
          end
      | None =>
          match s with
          | EmptyString => []
          | String _ s' => findall_from fuel' r (S pos) s'
          end
      end
  end.

Definition findall (r : regex) (s : string) : list string :=
  findall_from (S (String.length s)) r 0 s.

End Re.

Import Re.

(** ** [compiler.py]: literals *)

(** The pattern of [parse_value]:
    [^\-?((0X[0-9A-F]+)|(0O[0-7]+)|(0B[01]+)|([1-9][0-9]+)|([0-9]))$] *)
Definition parse_value_regex : regex :=
  Seq Bol
    (Seq (Opt (C "-"))
       (Seq
          (Grp
             (Alt (Grp (Seq (Lit "0X") (Plus (OneOf [rng "0" "9"; rng "A" "F"]))))
             (Alt (Grp (Seq (Lit "0O") (Plus (OneOf [rng "0" "7"]))))
             (Alt (Grp (Seq (Lit "0B") (Plus (OneOf [one "0"; one "1"]))))
             (Alt (Grp (Seq (OneOf [rng "1" "9"]) (Plus (OneOf [rng "0" "9"]))))
                  (Grp (OneOf [rng "0" "9"])))))))
          Eol)).

(** [parse_value(text)].  The pattern is tried on [text.upper()]; the prefix
    tests that follow read [text] itself. *)
Definition parse_value (text : string) : result Z :=
  if negb (matches parse_value_regex (Py.upper text)) then
    Raise (Exception "Invalid value.")
  else
    let negate := Py.startswith text "-" in
    let text := if negate then Py.drop 1 text else text in
    result ←
      (if Py.startswith text "0X" then Py.int (Py.drop 2 text) 16
       else if Py.startswith text "0O" then Py.int (Py.drop 2 text) 8
       else if Py.startswith text "0B" then Py.int (Py.drop 2 text) 2
       else Py.int text 10);
    mret (if negate then - result else result).

(** ** [emitter.py]: labels *)

Record Label : Set := mkLabel {
  Label_name : string;
  Label_address : option Z
}.

(** ** [emitters/urcl.py]: the URCL emitter *)

(** The optimizer classes; [URCLEmitter._optimizers] is a list of them. *)
Inductive Optimizer : Set :=
| PushStackOptimizer
| PopStackOptimizer
| GeneralStackOptimizer
| StackVerificationOptimizer
| PushFollowedByPopOptimizer
| RepeatedAddAndSubtractOptimizer
| OverwrittenResultOptimizer
| JumpNextOptimizer
| VoidMoveOptimizer
| CommentOptimizer
| LabelOptimizer.

(** The default value of the [optimizers] argument of [URCLEmitter.__init__]. *)
Definition default_optimizers : list Optimizer :=
  [PushStackOptimizer; PopStackOptimizer; GeneralStackOptimizer;
   StackVerificationOptimizer; PushFollowedByPopOptimizer;
   RepeatedAddAndSubtractOptimizer; OverwrittenResultOptimizer;
   JumpNextOptimizer; VoidMoveOptimizer; LabelOptimizer].

(** An instruction is a list of tokens, the mnemonic first. *)
Definition Instruction : Set := list string.

Record URCLEmitter : Set := mkURCLEmitter {
  _current : Z;
  _internal : Z;
  _insts : list Instruction;
  _showIL : bool;
  _optimize : bool;
  _optimizers : list Optimizer
}.

(** [URCLEmitter(showIL, optimize, optimizers)] *)
Definition URCLEmitter_init (showIL optimize : bool) (optimizers : list Optimizer)
    : URCLEmitter :=
  mkURCLEmitter 0 0 [] showIL optimize optimizers.

(** Emitter code. *)
Abbreviation EmitM := (StateM URCLEmitter).

(** The operand of [_target]: an [int] or anything else, which is a name. *)
Inductive Target : Set :=
| TInt (n : Z)
| TName (name : string).

Definition set_insts (insts : list Instruction) (e : URCLEmitter) : URCLEmitter :=
  mkURCLEmitter (_current e) (_internal e) insts (_showIL e) (_optimize e) (_optimizers e).

(** [_emit] with its argument list: the arguments that are not [None] form one instruction. *)
Definition _emit (args : list (option string)) : EmitM unit := fun e =>
  (Ok tt, set_insts (_insts e ++ [omap id args]) e).

Definition _target (target : Target) (internal : bool) : string :=
  match target with
  | TInt n => if internal then ".___urcl___internal___" ++ Py.str n
              else ".___urcl___" ++ Py.str n
  | TName name => "." ++ name
  end.

Definition _lcreate : EmitM Z := fun e =>
  (Ok (_internal e + 1 - 1),
   mkURCLEmitter (_current e) (_internal e + 1) (_insts e) (_showIL e) (_optimize e)
     (_optimizers e)).

Definition _lmark (label : Z) : EmitM unit :=
  _emit [Some (_target (TInt label) true)].

Definition get_current_offset : EmitM Z := fun e => (Ok (_current e), e).

Definition comment (text : string) : EmitM unit :=
  match Py.split " " text with
  | first :: parts => _emit (map Some (("//" ++ first) :: parts))
  | [] => raise (IndexError "list assignment index out of range")
  end.

(** [begin_instruction()]; [caller] is [inspect.stack()[1].function], the
    name of the method that called it. *)
Definition begin_instruction (caller : string) : EmitM unit := fun e =>
  ((if _showIL e then comment caller else mret tt) ;;
   _emit [Some (_target (TInt (_current e)) false)]) e.

Definition end_instruction : EmitM unit := fun e =>
  (Ok tt,
   mkURCLEmitter (_current e + 1) (_internal e) (_insts e) (_showIL e) (_optimize e)
     (_optimizers e)).

Definition emit_raw (operation : string) (operands : list string) : EmitM unit :=
  begin_instruction "emit_raw" ;;
  _emit (map Some (operation :: operands)) ;;
  end_instruction.

Definition push (immediate : Z) : EmitM unit :=
  begin_instruction "push" ;;
  _emit [Some "psh"; Some (Py.str immediate)] ;;
  end_instruction.

Definition pop : EmitM unit :=
  begin_instruction "pop" ;;
  _emit [Some "pop"; Some "R0"] ;;
  end_instruction.

(** The body shared by the two-operand arithmetic methods. *)
Definition binary (caller mnemonic : string) : EmitM unit :=
  begin_instruction caller ;;
  _emit [Some "pop"; Some "R2"] ;;
  _emit [Some "pop"; Some "R1"] ;;
  _emit [Some mnemonic; Some "R1"; Some "R1"; Some "R2"] ;;
  _emit [Some "psh"; Some "R1"] ;;
  end_instruction.

Definition add : EmitM unit := binary "add" "add".
Definition sub : EmitM unit := binary "sub" "sub".
Definition mul_u : EmitM unit := binary "mul_u" "mlt".
Definition mul_s : EmitM unit := mul_u.
Definition div_s : EmitM unit := raise NotImplementedError.
Definition div_u : EmitM unit := binary "div_u" "div".
Definition rem_s : EmitM unit := raise NotImplementedError.
Definition rem_u : EmitM unit := binary "rem_u" "mod".

Definition bit_not : EmitM unit :=
  begin_instruction "bit_not" ;;
  _emit [Some "pop"; Some "R1"] ;;
  _emit [Some "not"; Some "R1"; Some "R1"] ;;
  _emit [Some "psh"; Some "R1"] ;;
  end_instruction.

Definition bit_and : EmitM unit := binary "bit_and" "and".
Definition bit_or : EmitM unit := binary "bit_or" "or".
Definition bit_xor : EmitM unit := binary "bit_xor" "xor".
Definition lsh : EmitM unit := binary "lsh" "bsl".
Definition rsh : EmitM unit := binary "rsh" "bsr".

(** The body shared by the unsigned comparisons. *)
Definition compare (caller branch : string) : EmitM unit :=
  begin_instruction caller ;;
  end_ ← _lcreate ;
  true_ ← _lcreate ;
  _emit [Some "pop"; Some "R2"] ;;
  _emit [Some "pop"; Some "R1"] ;;
  _emit [Some branch; Some (_target (TInt true_) true); Some "R1"; Some "R2"] ;;
  _emit [Some "psh"; Some "0"] ;;
  _emit [Some "jmp"; Some (_target (TInt end_) true)] ;;
  _lmark true_ ;;
  _emit [Some "psh"; Some "1"] ;;
  _lmark end_ ;;
  end_instruction.

Definition cmp_eq : EmitM unit := compare "cmp_eq" "bre".
Definition cmp_ne : EmitM unit := compare "cmp_ne" "bne".
Definition cmp_lt_s : EmitM unit := raise NotImplementedError.
Definition cmp_lt_u : EmitM unit := compare "cmp_lt_u" "brl".
Definition cmp_gt_s : EmitM unit := raise NotImplementedError.
Definition cmp_gt_u : EmitM unit := compare "cmp_gt_u" "brg".
Definition cmp_le_s : EmitM unit := raise NotImplementedError.
Definition cmp_le_u : EmitM unit := compare "cmp_le_u" "ble".
Definition cmp_ge_s : EmitM unit := raise NotImplementedError.
Definition cmp_ge_u : EmitM unit := compare "cmp_ge_u" "bge".

Definition call (target : Target) : EmitM unit :=
  begin_instruction "call" ;;
  _emit [Some "cal"; Some (_target target false)] ;;
  end_instruction.

Definition ret : EmitM unit :=
  begin_instruction "ret" ;;
  _emit [Some "ret"] ;;
  end_instruction.

Definition jmp (target : Target) : EmitM unit :=
  begin_instruction "jmp" ;;
  _emit [Some "jmp"; Some (_target target false)] ;;
  end_instruction.

Definition branch1 (caller mnemonic : string) (target : Target) : EmitM unit :=
  begin_instruction caller ;;
  _emit [Some "pop"; Some "R1"] ;;
  _emit [Some mnemonic; Some (_target target false); Some "R1"] ;;
  end_instruction.

Definition branch2 (caller mnemonic : string) (target : Target) : EmitM unit :=
  begin_instruction caller ;;
  _emit [Some "pop"; Some "R2"] ;;
  _emit [Some "pop"; Some "R1"] ;;
  _emit [Some mnemonic; Some (_target target false); Some "R1"; Some "R2"] ;;
  end_instruction.

Definition br_t : Target -> EmitM unit := branch1 "br_t" "brz".
Definition br_f : Target -> EmitM unit := branch1 "br_f" "bnz".
Definition br_eq : Target -> EmitM unit := branch2 "br_eq" "bre".
Definition br_ne : Target -> EmitM unit := branch2 "br_ne" "bne".
Definition br_lt_s (target : Target) : EmitM unit := raise NotImplementedError.
Definition br_lt_u : Target -> EmitM unit := branch2 "br_lt_u" "brl".
Definition br_gt_s (target : Target) : EmitM unit := raise NotImplementedError.
Definition br_gt_u : Target -> EmitM unit := branch2 "br_gt_u" "brg".
Definition br_le_s (target : Target) : EmitM unit := raise NotImplementedError.
Definition br_le_u : Target -> EmitM unit := branch2 "br_le_u" "ble".
Definition br_ge_s (target : Target) : EmitM unit := raise NotImplementedError.
Definition br_ge_u : Target -> EmitM unit := branch2 "br_ge_u" "bge".

Definition add_sp (offset : Z) : EmitM unit :=
  begin_instruction "add_sp" ;;
  _emit [Some "sub"; Some "SP"; Some "SP"; Some (Py.str offset)] ;;
  end_instruction.

Definition rem_sp (offset : Z) : EmitM unit :=
  begin_instruction "rem_sp" ;;
  _emit [Some "add"; Some "SP"; Some "SP"; Some (Py.str offset)] ;;
  end_instruction.

Definition ld_sp : EmitM unit :=
  begin_instruction "ld_sp" ;; _emit [Some "psh"; Some "SP"] ;; end_instruction.

Definition st_sp : EmitM unit :=
  begin_instruction "st_sp" ;; _emit [Some "pop"; Some "SP"] ;; end_instruction.

Definition ld_bp : EmitM unit :=
  begin_instruction "ld_bp" ;; _emit [Some "psh"; Some "R3"] ;; end_instruction.

Definition st_bp : EmitM unit :=
  begin_instruction "st_bp" ;; _emit [Some "pop"; Some "R3"] ;; end_instruction.

Definition ld_ptr (size : Z) : EmitM unit :=
  begin_instruction "ld_ptr" ;;
  (if 0 <? size then
     _emit [Some "pop"; Some "R1"] ;;
     if size =? 1 then
       _emit [Some "lod"; Some "R1"; Some "R1"] ;;
       _emit [Some "psh"; Some "R1"]
     else
       _emit [Some "add"; Some "R1"; Some "R1"; Some (Py.str (size - 1))] ;;
       for_each (Py.range 0 size) (fun i =>
         (if negb (i =? 0) then _emit [Some "sub"; Some "R1"; Some "R1"; Some "1"]
          else mret tt) ;;
         _emit [Some "lod"; Some "R2"; Some "R1"] ;;
         _emit [Some "psh"; Some "R2"])
   else mret tt) ;;
  end_instruction.

Definition st_ptr (size : Z) : EmitM unit :=
  begin_instruction "st_ptr" ;;
  (if 0 <? size then
     _emit [Some "pop"; Some "R1"] ;;
     for_each (Py.range 0 size) (fun i =>
       (if negb (i =? 0) then _emit [Some "add"; Some "R1"; Some "R1"; Some "1"]
        else mret tt) ;;
       _emit [Some "pop"; Some "R2"] ;;
       _emit [Some "str"; Some "R1"; Some "R2"])
   else mret tt) ;;
  end_instruction.

Definition ld_global (index : Z) : EmitM unit :=
  begin_instruction "ld_global" ;;
  _emit [Some "psh"; Some ("R" ++ Py.str (index + 4))] ;;
  end_instruction.

Definition st_global (index : Z) : EmitM unit :=
  begin_instruction "st_global" ;;
  _emit [Some "pop"; Some ("R" ++ Py.str (index + 4))] ;;
  end_instruction.

Definition _emit_label (label : Label) : EmitM unit :=
  if (0 <? String.length (Label_name label))%nat
  then _emit [Some (_target (TName (Label_name label)) false)]
  else mret tt.

(** [Emitter.create_label] and [Emitter.mark_label] of [emitter.py]. *)
Definition create_label (name : string) : Label := mkLabel name None.

Definition mark_label (label : Label) : EmitM Label :=
  offset ← get_current_offset ;
  _emit_label label ;;
  mret (mkLabel (Label_name label) (Some offset)).


(** ** [emitters/urcl.py]: the peephole optimizers *)

(** The pattern of [is_readonly_reg_instruction]:
    [(B(R[ELGZ])|([LG]E)|(N[EZ]))|(JMP)|(CAL)|(PSH)|(STR)] *)
Definition readonly_regex : regex :=
  Alt (Grp (Alt (Seq (C "B") (Grp (Seq (C "R") (OneOf [one "E"; one "L"; one "G"; one "Z"]))))
           (Alt (Grp (Seq (OneOf [one "L"; one "G"]) (C "E")))
                (Grp (Seq (C "N") (OneOf [one "E"; one "Z"]))))))
  (Alt (Grp (Lit "JMP"))
  (Alt (Grp (Lit "CAL"))
  (Alt (Grp (Lit "PSH"))
       (Grp (Lit "STR"))))).

Definition IndexError_list {A : Type} : result A :=
  Raise (IndexError "list index out of range").

(** [inst[j]] for [j >= 0] *)
Definition tok (inst : Instruction) (j : nat) : result string :=
  match inst !! j with
  | Some t => Ok t
  | None => IndexError_list
  end.

Definition is_readonly_reg_instruction (inst : Instruction) : result bool :=
  op ← tok inst 0;
  mret (Py.startswith op "." || Py.startswith op "//"
        || matches readonly_regex (Py.upper op))%bool.

(** [get_constant_operand(operand)] for an operand that is a [str]. *)
Definition get_constant_operand (operand : string) : option Z :=
  match Py.int operand 10 with
  | Ok n => Some n
  | Raise _ => None
  end.

(** What the virtual registers and the virtual stack hold:
    [Union[str, int, None]]. *)
Inductive Value : Set :=
| VNone
| VInt (n : Z)
| VStr (s : string).

#[global] Instance Value_eq_dec : EqDecision Value.
Proof. solve_decision. Defined.

(** The objects shared by the stack optimizers during the forward pass: the
    instruction list of the emitter, the register map and the virtual stack,
    whose top is the last element. *)
Record StackPass : Type := mkStackPass {
  insts : list Instruction;
  registers : gmap string Value;
  stack : list Value
}.

Abbreviation PassM := (StateM StackPass).

Definition set_pass_insts (f : list Instruction -> list Instruction) : PassM unit :=
  modify (fun st => mkStackPass (f (insts st)) (registers st) (stack st)).

Definition set_registers (f : gmap string Value -> gmap string Value) : PassM unit :=
  modify (fun st => mkStackPass (insts st) (f (registers st)) (stack st)).

Definition set_stack (f : list Value -> list Value) : PassM unit :=
  modify (fun st => mkStackPass (insts st) (registers st) (f (stack st))).

(** [insts[i]] *)
Definition inst_at (l : list Instruction) (i : nat) : result Instruction :=
  match l !! i with
  | Some inst => Ok inst
  | None => IndexError_list
  end.

(** [insts[i][j]] *)
Definition operand (i j : nat) : PassM string := fun st =>
  (inst ← inst_at (insts st) i; tok inst j, st).

(** The closures [_get_reg] and [_set_reg] of [commit]. *)
Definition _get_reg (registers : gmap string Value) (name : string) : Value :=
  let name := Py.upper name in
  if String.eqb name "R0" then VInt 0
  else match registers !! name with
       | Some v => v
       | None => VNone
       end.

Definition _set_reg (name : string) (value : Value) : PassM unit :=
  let name := Py.upper name in
  if negb (String.eqb name "R0") then set_registers (insert name value) else mret tt.

Definition get_reg (name : string) : PassM Value := fun st =>
  (Ok (_get_reg (registers st) name), st).

(** [stack.pop() if len(stack) > 0 else None] *)
Definition pop_or_None : PassM Value := fun st =>
  match last (stack st) with
  | Some v => (Ok v, mkStackPass (insts st) (registers st) (removelast (stack st)))
  | None => (Ok VNone, st)
  end.

Definition PushStackOptimizer_optimize (i : nat) : PassM unit := fun st =>
  match (inst ← inst_at (insts st) i; x ← tok inst 1; parse_value x) with
  | Ok n =>
      (set_stack (fun s => (s ++ [VInt n])%list) ;;
       set_pass_insts (fun l => <[i := ["nop"]]> l)) st
  | Raise _ =>
      (value ← operand i 1;
       if (Py.startswith (Py.upper value) "R" || String.eqb (Py.upper value) "SP")%bool
       then v ← get_reg value; set_stack (fun s => (s ++ [v])%list)
       else set_stack (fun s => (s ++ [VStr value])%list)) st
  end.

Definition PopStackOptimizer_optimize (i : nat) : PassM unit :=
  value ← pop_or_None;
  r ← operand i 1;
  current ← get_reg r;
  (if (bool_decide (current = value) && negb (bool_decide (value = VNone)))%bool
   then set_pass_insts (fun l => <[i := ["pop"; "R0"]]> l)
   else _set_reg r value) ;;
  match value with
  | VInt _ => set_pass_insts (fun l => <[i := ["nop"]]> l)
  | _ => mret tt
  end.

(** [insts[i][j] = t] *)
Definition set_operand (i j : nat) (t : string) : PassM unit :=
  set_pass_insts (fun l =>
    match l !! i with
    | Some inst => <[i := <[j := t]> inst]> l
    | None => l
    end).

Definition bad_modification {A : Type} : PassM A :=
  raise (RuntimeError "This type of stack modification is not allowed.").

(** [for _ in range(k): if len(stack) > 0: stack.pop() else: raise ...] *)
Definition pop_times (k : Z) : PassM unit := fun st =>
  let n := Z.to_nat k in
  if (n <=? length (stack st))%nat then
    (Ok tt, mkStackPass (insts st) (registers st) (take (length (stack st) - n) (stack st)))
  else
    (Raise (RuntimeError "Virtual stack underflow."),
     mkStackPass (insts st) (registers st) []).

(** [while len(stack) > newStackLength: if len(stack) > 0: stack.pop()
    else: raise ...] *)
Definition truncate_to (newStackLength : Z) : PassM unit := fun st =>
  if newStackLength <? 0 then
    (Raise (RuntimeError "Virtual stack underflow."),
     mkStackPass (insts st) (registers st) [])
  else
    (Ok tt, mkStackPass (insts st) (registers st) (take (Z.to_nat newStackLength) (stack st))).

Definition GeneralStackOptimizer_optimize (i : nat) : PassM unit :=
  st0 ← get;
  inst0 ← lift (inst_at (insts st0) i);
  registersReadOnly ← lift (is_readonly_reg_instruction inst0);
  for_each (seq (if registersReadOnly then 1 else 2)
              (length inst0 - (if registersReadOnly then 1 else 2))%nat)
    (fun j =>
       t ← operand i j;
       value ← get_reg t;
       match value with
       | VInt n => set_operand i j (Py.str n)
       | VStr "BP" => set_operand i j "R3"
       | _ => mret tt
       end) ;;
  op ← operand i 0;
  if (1 <? length inst0)%nat then
    if String.eqb (Py.upper op) "CAL" then set_registers (fun _ => ∅)
    else if negb registersReadOnly then
      dst ← operand i 1;
      (if String.eqb dst "SP" then
         st ← get;
         inst ← lift (inst_at (insts st) i);
         let const3 := match inst !! 3%nat with
                       | Some t => get_constant_operand t
                       | None => None
                       end in
         let src := match inst !! 2%nat with
                    | Some t => Py.upper t
                    | None => EmptyString
                    end in
         match (length inst =? 4)%nat, const3 with
         | true, Some k =>
             if String.eqb src "SP" then
               if String.eqb (Py.upper op) "ADD" then pop_times k
               else if String.eqb (Py.upper op) "SUB" then
                 set_stack (fun s => (s ++ replicate (Z.to_nat k) VNone)%list)
               else bad_modification
             else if String.eqb src "R3" then
               if String.eqb (Py.upper op) "SUB" then truncate_to (k + 1)
               else bad_modification
             else bad_modification
         | _, _ => bad_modification
         end
       else mret tt) ;;
      _set_reg dst VNone
    else mret tt
  else if String.eqb (Py.upper op) "RET" then
    set_registers (fun _ => <["SP" := VStr "BP"]> ∅)
  else mret tt.

Definition StackVerificationOptimizer_optimize (i : nat) : PassM unit :=
  st ← get;
  if negb (length (stack st) =? 0)%nat
  then raise (RuntimeError "Stack must be empty before returning.")
  else mret tt.

(** The rewrites after the forward pass share the instruction list only. *)
Abbreviation InstsM := (StateM (list Instruction)).

(** [insts[i][j]] *)
Definition token (i j : nat) : InstsM string := fun l =>
  (inst ← inst_at l i; tok inst j, l).

(** [insts.pop(i)] *)
Definition insts_pop (i : nat) : InstsM unit := fun l =>
  if (i <? length l)%nat then (Ok tt, delete i l)
  else (Raise (IndexError "pop index out of range"), l).

(** [insts[i] = inst] *)
Definition insts_set (i : nat) (inst : Instruction) : InstsM unit := fun l =>
  if (i <? length l)%nat then (Ok tt, <[i := inst]> l)
  else (Raise (IndexError "list assignment index out of range"), l).

Definition PushFollowedByPopOptimizer_optimize (current next : nat) : InstsM bool :=
  n1 ← token next 1;
  c1 ← token current 1;
  (if String.eqb n1 c1 then insts_pop next
   else insts_set next ["mov"; n1; c1]) ;;
  insts_pop current ;;
  mret true.

Definition RepeatedAddAndSubtractOptimizer_optimize (current next : nat) : InstsM bool :=
  c3 ← token current 3;
  match get_constant_operand c3 with
  | None => mret false
  | Some a =>
      n3 ← token next 3;
      match get_constant_operand n3 with
      | None => mret false
      | Some b =>
          c1 ← token current 1;
          n2 ← token next 2;
          same ← (if String.eqb c1 n2 then n1 ← token next 1; mret (String.eqb c1 n1)
                  else mret false);
          if same : bool then
            c0 ← token current 0;
            n0 ← token next 0;
            n1 ← token next 1;
            c2 ← token current 2;
            let a := if String.eqb (Py.upper c0) "SUB" then - a else a in
            let b := if String.eqb (Py.upper n0) "SUB" then - b else b in
            let value := a + b in
            (if value <? 0 then insts_set current ["sub"; n1; c2; Py.str (- value)]
             else if 0 <? value then insts_set current ["add"; n1; c2; Py.str value]
             else insts_set current ["mov"; n1; c2]) ;;
            insts_pop next ;;
            mret true
          else mret false
      end
  end.

Definition OverwrittenResultOptimizer_optimize (current next : nat) : InstsM bool :=
  l ← get;
  cur ← lift (inst_at l current);
  nxt ← lift (inst_at l next);
  ro_current ← lift (is_readonly_reg_instruction cur);
  ro ← (if ro_current : bool then mret true else lift (is_readonly_reg_instruction nxt));
  if negb ro then
    match cur !! 1%nat, nxt !! 1%nat with
    | Some c1, Some n1 =>
        if String.eqb c1 n1 then
          if existsb (fun t => String.eqb t c1) (drop 2 nxt) then mret false
          else insts_pop current ;; mret true
        else mret false
    | _, _ => mret false
    end
  else mret false.

Definition JumpNextOptimizer_optimize (current next : nat) : InstsM bool :=
  c1 ← token current 1;
  n0 ← token next 0;
  if String.eqb c1 n0 then insts_pop current ;; mret true else mret false.

Definition VoidMoveOptimizer_optimize (i : nat) : InstsM bool :=
  d ← token i 1;
  s ← token i 2;
  if (String.eqb d s || String.eqb d "R0")%bool then insts_pop i ;; mret true
  else mret false.

Definition CommentOptimizer_optimize (i : nat) : InstsM bool :=
  insts_pop i ;; mret true.

(** [LabelOptimizer.optimize]: the labels that start with [.__], each with
    its index and the number of operands that name it; those that no operand
    names are removed from left to right. *)
Fixpoint collect_labels (l : list Instruction) (i : nat) : result (list (string * nat)) :=
  match l with
  | [] => Ok []
  | inst :: l' =>
      op ← tok inst 0;
      labels ← collect_labels l' (S i);
      mret (if Py.startswith op ".__" then (op, i) :: labels else labels)
  end.

Definition count_uses (l : list Instruction) (label : string) : nat :=
  length (List.filter (fun operand =>
                          (Py.startswith operand ".__" && String.eqb label operand)%bool)
            (concat (map (fun inst : Instruction =>
                            if (1 <? length inst)%nat then drop 1 inst else [])
                         l))).

Fixpoint remove_unused (labels : list (string * nat * nat)) (offset : nat) (rerun : bool)
    : InstsM bool :=
  match labels with
  | [] => mret rerun
  | (_, index, uses) :: labels' =>
      if (uses =? 0)%nat then
        insts_pop (index - offset)%nat ;; remove_unused labels' (S offset) true
      else remove_unused labels' offset rerun
  end.

Definition LabelOptimizer_optimize : InstsM bool :=
  l ← get;
  labels ← lift (collect_labels l 0);
  remove_unused (map (fun '(name, index) => (name, index, count_uses l name)) labels) 0 false.

(** The four abstract classes of optimizers, told apart by [isinstance]. *)
Inductive OptimizerKind : Set := StackOptimizer | PairOptimizer | MonoOptimizer | CodeOptimizer.

Definition kind (o : Optimizer) : OptimizerKind :=
  match o with
  | PushStackOptimizer | PopStackOptimizer | GeneralStackOptimizer
  | StackVerificationOptimizer => StackOptimizer
  | PushFollowedByPopOptimizer | RepeatedAddAndSubtractOptimizer
  | OverwrittenResultOptimizer | JumpNextOptimizer => PairOptimizer
  | VoidMoveOptimizer | CommentOptimizer => MonoOptimizer
  | LabelOptimizer => CodeOptimizer
  end.

(** [get_regex] of the stack and mono optimizers, [get_regex_current] of the
    pair optimizers. *)
Definition get_regex (o : Optimizer) : regex :=
  match o with
  | PushStackOptimizer => Lit "PSH"
  | PopStackOptimizer => Lit "POP"
  | GeneralStackOptimizer => Seq Word (Star Dot)
  | StackVerificationOptimizer => Lit "RET"
  | PushFollowedByPopOptimizer => Lit "PSH"
  | RepeatedAddAndSubtractOptimizer => Alt (Grp (Lit "ADD")) (Grp (Lit "SUB"))
  | OverwrittenResultOptimizer => Seq Word (Star Dot)
  | JumpNextOptimizer => Lit "JMP"
  | VoidMoveOptimizer => Lit "MOV"
  | CommentOptimizer => Seq (Lit "//") (Star Dot)
  | LabelOptimizer => Eps
  end.

Definition get_regex_next (o : Optimizer) : regex :=
  match o with
  | PushFollowedByPopOptimizer => Lit "POP"
  | RepeatedAddAndSubtractOptimizer => Alt (Grp (Lit "ADD")) (Grp (Lit "SUB"))
  | OverwrittenResultOptimizer => Seq Word (Star Dot)
  | JumpNextOptimizer => Seq (C ".") (Star Dot)
  | _ => Eps
  end.

Definition get_allow_labels_next (o : Optimizer) : bool :=
  match o with
  | JumpNextOptimizer => true
  | _ => false
  end.

Definition stack_optimize (o : Optimizer) (i : nat) : PassM unit :=
  match o with
  | PushStackOptimizer => PushStackOptimizer_optimize i
  | PopStackOptimizer => PopStackOptimizer_optimize i
  | GeneralStackOptimizer => GeneralStackOptimizer_optimize i
  | StackVerificationOptimizer => StackVerificationOptimizer_optimize i
  | _ => mret tt
  end.

Definition pair_optimize (o : Optimizer) (current next : nat) : InstsM bool :=
  match o with
  | PushFollowedByPopOptimizer => PushFollowedByPopOptimizer_optimize current next
  | RepeatedAddAndSubtractOptimizer => RepeatedAddAndSubtractOptimizer_optimize current next
  | OverwrittenResultOptimizer => OverwrittenResultOptimizer_optimize current next
  | JumpNextOptimizer => JumpNextOptimizer_optimize current next
  | _ => mret false
  end.

Definition mono_optimize (o : Optimizer) (i : nat) : InstsM bool :=
  match o with
  | VoidMoveOptimizer => VoidMoveOptimizer_optimize i
  | CommentOptimizer => CommentOptimizer_optimize i
  | _ => mret false
  end.

(** [re.match(f"^{regex}$", mnemonic.upper()) != None] *)
Definition mnemonic_matches (r : regex) (mnemonic : string) : bool :=
  matches (anchored r) (Py.upper mnemonic).

(** [URCLEmitter._next(index, allowLabels)] on the instruction list. *)
Fixpoint _next_from (l : list Instruction) (i : nat) (allowLabels : bool)
    : result (option nat) :=
  match l with
  | [] => Ok None
  | inst :: l' =>
      op ← tok inst 0;
      if negb ((Py.startswith op "." && negb allowLabels) || Py.startswith op "//"
               || String.eqb (Py.upper op) "NOP")%bool
      then Ok (Some i)
      else _next_from l' (S i) allowLabels
  end.

Definition _next (index : nat) (allowLabels : bool) : InstsM (option nat) := fun l =>
  (_next_from (drop (S index) l) (S index) allowLabels, l).

(** The first loop of [commit]: every instruction is handed to the first
    stack optimizer of the list whose pattern matches its mnemonic. *)
Fixpoint stack_dispatch (optimizers : list Optimizer) (i : nat) : PassM unit :=
  match optimizers with
  | [] => mret tt
  | optimizer :: rest =>
      match kind optimizer with
      | StackOptimizer =>
          op ← operand i 0;
          if mnemonic_matches (get_regex optimizer) op
          then stack_optimize optimizer i
          else stack_dispatch rest i
      | _ => stack_dispatch rest i
      end
  end.

Definition stack_pass (optimizers : list Optimizer) : PassM unit :=
  st ← get;
  for_each (seq 0 (length (insts st))) (stack_dispatch optimizers).

(** One turn of the second loop of [commit] at index [i]: the value of
    [rerun] after the optimizers have been tried in order. *)
Fixpoint pair_mono_step (optimizers : list Optimizer) (i : nat) : InstsM bool :=
  match optimizers with
  | [] => mret false
  | optimizer :: rest =>
      match kind optimizer with
      | PairOptimizer =>
          next ← _next i (get_allow_labels_next optimizer);
          match next with
          | Some next =>
              cur_op ← token i 0;
              if mnemonic_matches (get_regex optimizer) cur_op then
                next_op ← token next 0;
                if mnemonic_matches (get_regex_next optimizer) next_op then
                  changed ← pair_optimize optimizer i next;
                  if changed : bool then mret true else pair_mono_step rest i
                else pair_mono_step rest i
              else pair_mono_step rest i
          | None => pair_mono_step rest i
          end
      | MonoOptimizer =>
          op ← token i 0;
          if mnemonic_matches (get_regex optimizer) op then
            changed ← mono_optimize optimizer i;
            if changed : bool then mret true else pair_mono_step rest i
          else pair_mono_step rest i
      | _ => pair_mono_step rest i
      end
  end.

(** The second loop, [while i < len(self._insts)]; [None] when [fuel] turns
    do not reach its end. *)
Fixpoint pair_mono_loop (fuel : nat) (optimizers : list Optimizer) (i : nat)
    (l : list Instruction) : option (result unit * list Instruction) :=
  match fuel with
  | O => None
  | S fuel' =>
      if (i <? length l)%nat then
        match pair_mono_step optimizers i l with
        | (Ok rerun, l') =>
            pair_mono_loop fuel' optimizers (if rerun : bool then 0%nat else S i) l'
        | (Raise err, l') => Some (Raise err, l')
        end
      else Some (Ok tt, l)
  end.

(** One turn of the third loop: [rerun |= optimizer.optimize(insts)] for
    every code optimizer. *)
Fixpoint code_step (optimizers : list Optimizer) (rerun : bool) : InstsM bool :=
  match optimizers with
  | [] => mret rerun
  | optimizer :: rest =>
      match optimizer with
      | LabelOptimizer =>
          changed ← LabelOptimizer_optimize;
          code_step rest (rerun || changed)%bool
      | _ => code_step rest rerun
      end
  end.

Fixpoint code_loop (fuel : nat) (optimizers : list Optimizer) (l : list Instruction)
    : option (result unit * list Instruction) :=
  match fuel with
  | O => None
  | S fuel' =>
      match code_step optimizers false l with
      | (Ok rerun, l') =>
          if rerun : bool then code_loop fuel' optimizers l' else Some (Ok tt, l')
      | (Raise err, l') => Some (Raise err, l')
      end
  end.

(** The last loop of [commit]: every instruction whose mnemonic is not [nop]
    is written as one line. *)
Fixpoint write_insts (l : list Instruction) : StateM (list string) unit :=
  match l with
  | [] => mret tt
  | inst :: l' =>
      op ← lift (tok inst 0);
      (if negb (String.eqb (Py.upper op) "NOP")
       then modify (fun stream : list string =>
                      (stream ++ [(Py.join " " inst ++ String (Py.chr 10) EmptyString)%string])%list)
       else mret tt) ;;
      write_insts l'
  end.

(** The state in which [commit] starts the forward pass. *)
Definition initial_pass (l : list Instruction) : StackPass :=
  mkStackPass l (<["SP" := VStr "BP"]> ∅) [].

(** The rewriting part of [commit], on the instruction list. *)
Definition optimize_insts (fuel : nat) (optimizers : list Optimizer) (l : list Instruction)
    : option (result unit * list Instruction) :=
  match stack_pass optimizers (initial_pass l) with
  | (Ok _, st) =>
      match pair_mono_loop fuel optimizers 0 (insts st) with
      | Some (Ok _, l') => code_loop fuel optimizers l'
      | other => other
      end
  | (Raise err, st) => Some (Raise err, insts st)
  end.

(** Enough turns for the loops of [commit] on a list of [n] instructions. *)
Definition commit_fuel (n : nat) : nat := (n * n + n + 1)%nat.

(** [URCLEmitter.commit(stream)].  The stream is the list of the strings
    written to it. *)
Definition commit (e : URCLEmitter) (stream : list string)
    : option (result unit * URCLEmitter * list string) :=
  let optimized :=
    if _optimize e
    then optimize_insts (commit_fuel (length (_insts e))) (_optimizers e) (_insts e)
    else Some (Ok tt, _insts e) in
  match optimized with
  | None => None
  | Some (Ok _, l) =>
      let '(r, stream') := write_insts l stream in
      Some (r, set_insts l e, stream')
  | Some (Raise err, l) => Some (Raise err, set_insts l e, stream)
  end.

(** ** [compiler.py]: types and memory blocks

    An attribute annotated [Union[Type, str]] is a [TypeRef]: the name the
    parser stored, or the object the resolver put in its place.  Objects of
    the classes that Python compares by identity ([EmptyType], [ComplexType]
    and [Local] define no [__eq__]) carry their identity as [oid].  The classes
    [Type], [Variable] and [Parameter] are [Type_], [Variable_] and
    [Parameter_] here. *)

#[local] Unset Elimination Schemes.

Inductive Type_ : Set :=
| EmptyType (oid : nat) (name : string)
| SignedInteger
| UnsignedInteger
| PointerType (referenced : TypeRef)
| ComplexType (oid : nat) (name : string) (fields : list Field)
with TypeRef : Set :=
| TypeName (name : string)
| TypeObj (type : Type_)
with Field : Set :=
| mkField (relativeTo : option Variable_) (type : TypeRef) (name : string)
    (index : Z) (offset : Z)
with Variable_ : Set :=
| VarField (f : Field)
| VarParameter (p : Parameter_)
| VarLocal (l : Local)
| VarReturn (r : ReturnVariable)
with Parameter_ : Set :=
| mkParameter (type : TypeRef) (resolved : option Type_) (name : string)
    (index : Z) (ref : bool)
with Local : Set :=
| mkLocal (oid : nat) (type : TypeRef) (name : string) (initial : option Z)
with ReturnVariable : Set :=
| mkReturnVariable (type : TypeRef).

#[local] Set Elimination Schemes.

Definition VoidType : Type_ := EmptyType 0 "Void".

Definition Field_relativeTo (f : Field) : option Variable_ :=
  let 'mkField r _ _ _ _ := f in r.
Definition Field_GetType (f : Field) : TypeRef := let 'mkField _ t _ _ _ := f in t.
Definition Field_GetName (f : Field) : string := let 'mkField _ _ n _ _ := f in n.
Definition Field_GetIndex (f : Field) : Z := let 'mkField _ _ _ i _ := f in i.
Definition Field_offset (f : Field) : Z := let 'mkField _ _ _ _ o := f in o.

Definition Parameter_type (p : Parameter_) : TypeRef := let 'mkParameter t _ _ _ _ := p in t.
Definition Parameter_resolved (p : Parameter_) : option Type_ :=
  let 'mkParameter _ r _ _ _ := p in r.
Definition Parameter_GetName (p : Parameter_) : string := let 'mkParameter _ _ n _ _ := p in n.
Definition Parameter_GetIndex (p : Parameter_) : Z := let 'mkParameter _ _ _ i _ := p in i.
Definition Parameter_IsByReference (p : Parameter_) : bool :=
  let 'mkParameter _ _ _ _ r := p in r.

(** [Parameter.GetType]: [self._type if self._resolved == None else
    self._resolved] *)
Definition Parameter_GetType (p : Parameter_) : TypeRef :=
  match Parameter_resolved p with
  | None => Parameter_type p
  | Some t => TypeObj t
  end.

Definition Local_oid (l : Local) : nat := let 'mkLocal i _ _ _ := l in i.
Definition Local_GetType (l : Local) : TypeRef := let 'mkLocal _ t _ _ := l in t.
Definition Local_GetName (l : Local) : string := let 'mkLocal _ _ n _ := l in n.
Definition Local_GetInitialValue (l : Local) : option Z := let 'mkLocal _ _ _ v := l in v.

Definition ReturnVariable_GetType (r : ReturnVariable) : TypeRef :=
  let 'mkReturnVariable t := r in t.

(** [Type.GetName] *)
Fixpoint Type_GetName (t : Type_) : string :=
  match t with
  | EmptyType _ name => name
  | SignedInteger => "Integer"
  | UnsignedInteger => "UInteger"
  | PointerType (TypeObj referenced) => Type_GetName referenced ++ "*"
  | PointerType (TypeName referenced) => referenced ++ "*"
  | ComplexType _ name _ => name
  end.

Definition no_attribute {A : Type} (attribute : string) : result A :=
  Raise (AttributeError ("'str' object has no attribute '" ++ attribute ++ "'")).

Definition None_no_attribute {A : Type} (attribute : string) : result A :=
  Raise (AttributeError ("'NoneType' object has no attribute '" ++ attribute ++ "'")).

(** [Type.GetSize]; on a [ComplexType] it is
    [sum([field.GetType().GetSize() for field in self._fields])]. *)
Fixpoint Type_GetSize (t : Type_) : result Z :=
  match t with
  | EmptyType _ _ => Ok 0
  | SignedInteger | UnsignedInteger | PointerType _ => Ok 1
  | ComplexType _ _ fields =>
      (fix sizes (fields : list Field) : result Z :=
         match fields with
         | [] => Ok 0
         | mkField _ type _ _ _ :: fields' =>
             size ← match type with
                    | TypeName _ => no_attribute "GetSize"
                    | TypeObj t' => Type_GetSize t'
                    end;
             rest ← sizes fields';
             mret (size + rest)
         end) fields
  end.

(** [type.GetSize()] where [type] is a [Union[Type, str]]. *)
Definition TypeRef_GetSize (type : TypeRef) : result Z :=
  match type with
  | TypeName _ => no_attribute "GetSize"
  | TypeObj t => Type_GetSize t
  end.

(** [Variable.GetType], [Variable.GetName] and [Variable.IsByReference] *)
Definition Variable_GetType (v : Variable_) : TypeRef :=
  match v with
  | VarField f => Field_GetType f
  | VarParameter p => Parameter_GetType p
  | VarLocal l => Local_GetType l
  | VarReturn r => ReturnVariable_GetType r
  end.

Definition Variable_GetName (v : Variable_) : string :=
  match v with
  | VarField f => Field_GetName f
  | VarParameter p => Parameter_GetName p
  | VarLocal l => Local_GetName l
  | VarReturn _ => EmptyString
  end.

Definition Variable_IsByReference (v : Variable_) : bool :=
  match v with
  | VarParameter p => Parameter_IsByReference p
  | _ => false
  end.

(** [Variable.GetSize] *)
Definition Variable_GetSize (v : Variable_) : result Z :=
  match Variable_GetType v with
  | TypeName _ => Raise (TypeError "Variable must be resolved before collecting sub-blocks.")
  | TypeObj t => Type_GetSize t
  end.

(** [ComplexType.GetField(nameOrIndex, relativeTo)] for an [int]: the sizes
    of the fields before the index are added up, then the field at the index
    is copied with that offset. *)
Definition ComplexType_GetField_int (fields : list Field) (nameOrIndex : Z)
    (relativeTo : option Variable_) : result Field :=
  offset ←
    fold_left (fun acc i =>
                 offset ← acc;
                 field ← Py.getitem fields i;
                 size ← Variable_GetSize (VarField field);
                 mret (offset + size))
      (Py.range 0 nameOrIndex) (Ok 0);
  field ← Py.getitem fields nameOrIndex;
  mret (mkField relativeTo (Field_GetType field) (Field_GetName field)
          (Field_GetIndex field) offset).

(** [ComplexType.GetField(nameOrIndex, relativeTo)] for a [str]; [None] when
    no field has the name. *)
Fixpoint GetField_str_from (fields : list Field) (nameOrIndex : string)
    (relativeTo : option Variable_) (offset : Z) : result (option Field) :=
  match fields with
  | [] => Ok None
  | field :: fields' =>
      if String.eqb (Field_GetName field) nameOrIndex then
        Ok (Some (mkField relativeTo (Field_GetType field) (Field_GetName field)
                    (Field_GetIndex field) offset))
      else
        size ← Variable_GetSize (VarField field);
        GetField_str_from fields' nameOrIndex relativeTo (offset + size)
  end.

Definition ComplexType_GetField_str (fields : list Field) (nameOrIndex : string)
    (relativeTo : option Variable_) : result (option Field) :=
  GetField_str_from fields nameOrIndex relativeTo 0.

(** [ComplexType.GetFieldOffset(name)] *)
Fixpoint GetFieldOffset_from (fields : list Field) (name : string) (offset : Z)
    : result (option Z) :=
  match fields with
  | [] => Ok None
  | field :: fields' =>
      if String.eqb (Field_GetName field) name then Ok (Some offset)
      else
        size ← TypeRef_GetSize (Field_GetType field);
        GetFieldOffset_from fields' name (offset + size)
  end.

Definition ComplexType_GetFieldOffset (fields : list Field) (name : string)
    : result (option Z) :=
  GetFieldOffset_from fields name 0.

(** The double quote of the messages. *)
Definition dq : string := String (Py.chr 34) EmptyString.

Definition Undefined_variable {A : Type} (name : string) : result A :=
  Raise (Exception ("Undefined variable " ++ dq ++ name ++ dq ++ ".")).

(** [Variable.GetVariable(name)] with [name] given by its parts,
    [name.split(".")]: the callee splits [".".join(path[1:])] again and finds
    [path[1:]]. *)
Fixpoint GetVariable_path (path : list string) (self : Variable_) : result Variable_ :=
  let name := Py.join "." path in
  let type := Variable_GetType self in
  let type :=
    match Variable_IsByReference self, type with
    | true, TypeObj (PointerType referenced) => referenced
    | _, _ => type
    end in
  match type with
  | TypeName _ => Raise (Exception "Type is not resolved.")
  | TypeObj (ComplexType _ _ fields) =>
      match path with
      | [] => Undefined_variable name
      | first :: rest =>
          (fix search (indices : list Z) : result Variable_ :=
             match indices with
             | [] => Undefined_variable name
             | i :: indices' =>
                 field ← ComplexType_GetField_int fields i (Some self);
                 if String.eqb (Field_GetName field) first then
                   match rest with
                   | [] => Ok (VarField field)
                   | _ => GetVariable_path rest (VarField field)
                   end
                 else search indices'
             end) (Py.range 0 (Z.of_nat (length fields)))
      end
  | TypeObj _ => Undefined_variable name
  end.

Definition Variable_GetVariable (self : Variable_) (name : string) : result Variable_ :=
  GetVariable_path (Py.split "." name) self.

(** ** [compiler.py]: expressions, statements and callables

    The attributes that the resolver overwrites hold either state: the
    target of a [VariableExpression] is a name, a variable, or [None]; the
    target of a [CallExpression] is a name or a callable; [call] is the
    synthesized call of an operator or a cast, [None] before resolution.  A
    [StrObject] is a [str] where an expression is expected: the parser
    keeps the marker of an argument list on the stack of its operands. *)

Inductive VariableRef : Set :=
| VarName (name : string)
| VarObj (v : Variable_)
| VarNone.

#[local] Unset Elimination Schemes.

Inductive Expression : Set :=
| VoidExpression
| ConstantExpression (value : Z) (type : TypeRef)
| VariableExpression (target : VariableRef)
| UnaryOperandExpression (operator : string) (expr : Expression) (call : option Expression)
| BinaryOperandExpression (operator : string) (exprA exprB : Expression)
    (call : option Expression)
| CastExpression (type : TypeRef) (expr : Expression) (call : option Expression)
| CallExpression (target : CallableRef) (addressOf : bool) (args : list Expression)
| StrObject (s : string)
with CallableRef : Set :=
| CallableName (name : string)
| CallableObj (c : Callable)
with Statement : Set :=
| LocalStatement (local : Local)
| AssignmentStatement (target : VariableRef) (expr : Expression)
| ReturnStatement (expr : Expression)
| AssemblyLoadStatement (source : VariableRef)
| AssemblyStoreStatement (source : VariableRef)
| AssemblyInstructionStatement (operation : string) (operands : list string)
| CallStatement (expr : Expression)
with Callable : Set :=
| InlineBody (name : string) (returnType : TypeRef) (body : list Statement)
| SubRoutine (name : string) (namedArgs : list Parameter_) (body : list Statement)
| Function (name : string) (namedArgs : list Parameter_) (returnType : TypeRef)
    (body : list Statement).

#[local] Set Elimination Schemes.

(** [CallExpression(target, args)] for a target given by name. *)
Definition CallExpression_init (target : string) (args : list Expression) : Expression :=
  CallExpression (CallableName target) (String.eqb (Py.upper target) "ADDRESSOF") args.

(** [Parameter(type, ref, name, i)] for every [(type, name, ref)] of [args],
    numbered from 0. *)
Fixpoint make_parameters (args : list (TypeRef * string * bool)) (i : Z) : list Parameter_ :=
  match args with
  | [] => []
  | (type, name, ref) :: args' => mkParameter type None name i ref :: make_parameters args' (i + 1)
  end.

(** [SubRoutine(name, args, body)] and [Function(name, args, returnType, body)] *)
Definition SubRoutine_init (name : string) (args : list (TypeRef * string * bool))
    (body : list Statement) : Callable :=
  SubRoutine name (make_parameters args 0) body.

Definition Function_init (name : string) (args : list (TypeRef * string * bool))
    (returnType : TypeRef) (body : list Statement) : Callable :=
  Function name (make_parameters args 0) returnType body.

Definition Statement_GetLocals (s : Statement) : list Local :=
  match s with
  | LocalStatement local => [local]
  | _ => []
  end.

Definition Callable_GetName (c : Callable) : string :=
  match c with
  | InlineBody name _ _ | SubRoutine name _ _ | Function name _ _ _ => name
  end.

Definition Callable_IsInline (c : Callable) : bool :=
  match c with
  | InlineBody _ _ _ => true
  | _ => false
  end.

Definition Callable_GetBody (c : Callable) : list Statement :=
  match c with
  | InlineBody _ _ body | SubRoutine _ _ body | Function _ _ _ body => body
  end.

Definition Callable_namedArgs (c : Callable) : list Parameter_ :=
  match c with
  | InlineBody _ _ _ => []
  | SubRoutine _ namedArgs _ | Function _ namedArgs _ _ => namedArgs
  end.

Definition Callable_GetArgumentCount (c : Callable) : Z :=
  match c with
  | InlineBody _ _ _ => 0
  | SubRoutine _ namedArgs _ | Function _ namedArgs _ _ => Z.of_nat (length namedArgs)
  end.

Definition Callable_GetArgument (c : Callable) (index : Z) : result Parameter_ :=
  match c with
  | InlineBody _ _ _ => Raise (IndexError EmptyString)
  | SubRoutine _ namedArgs _ | Function _ namedArgs _ _ => Py.getitem namedArgs index
  end.

(** [sum([len(statement.GetLocals()) for statement in self._body])] *)
Definition Callable_GetLocalCount (c : Callable) : Z :=
  match c with
  | InlineBody _ _ _ => 0
  | SubRoutine _ _ body | Function _ _ _ body =>
      fold_right Z.add 0 (map (fun s => Z.of_nat (length (Statement_GetLocals s))) body)
  end.

(** The two nested loops of [GetLocal] visit the locals of the statements in
    order and count [offset] down to 0. *)
Fixpoint GetLocal_from (locals : list Local) (offset : Z) : result Local :=
  match locals with
  | [] => Raise (IndexError EmptyString)
  | local :: locals' =>
      if offset =? 0 then Ok local else GetLocal_from locals' (offset - 1)
  end.

Definition Callable_GetLocal (c : Callable) (index : Z) : result Local :=
  match c with
  | InlineBody _ _ _ => Raise (IndexError EmptyString)
  | SubRoutine _ _ body | Function _ _ _ body =>
      GetLocal_from (concat (map Statement_GetLocals body)) index
  end.

Definition Callable_GetReturnType (c : Callable) : result Type_ :=
  match c with
  | SubRoutine _ _ _ => Ok VoidType
  | InlineBody _ returnType _ | Function _ _ returnType _ =>
      match returnType with
      | TypeObj t => Ok t
      | TypeName _ => Raise (Exception "Type is not resolved.")
      end
  end.

(** The loops of [Callable.GetVariable]: the element at the first index
    whose name is [first]. *)
Fixpoint first_named {A : Type} (get : Z -> result A) (name_of : A -> string)
    (first : string) (indices : list Z) : result (option A) :=
  match indices with
  | [] => Ok None
  | i :: indices' =>
      x ← get i;
      if String.eqb (name_of x) first then x' ← get i; mret (Some x')
      else first_named get name_of first indices'
  end.

(** [Callable.GetVariable(name)]: the first local, then the first argument,
    whose name is the first part of [name]; the method ends without a
    [return] when there is none, and the caller receives [None]. *)
Definition Callable_GetVariable (c : Callable) (name : string) : result (option Variable_) :=
  let parts := Py.split "." name in
  let first := hd EmptyString parts in
  let found (v : Variable_) : result (option Variable_) :=
    if (length parts =? 1)%nat then Ok (Some v)
    else v' ← Variable_GetVariable v (Py.join "." (tl parts)); mret (Some v') in
  local ← first_named (Callable_GetLocal c) Local_GetName first
             (Py.range 0 (Callable_GetLocalCount c));
  match local with
  | Some local => found (VarLocal local)
  | None =>
      argument ← first_named (Callable_GetArgument c) Parameter_GetName first
                    (Py.range 0 (Callable_GetArgumentCount c));
      match argument with
      | Some argument => found (VarParameter argument)
      | None => Ok None
      end
  end.

(** *** Addresses of memory blocks *)

(** One turn of the loops that add up the sizes of arguments:
    [offset += context.GetArgument(i).GetType().GetSize()]. *)
Definition add_argument_size (context : Callable) (acc : result Z) (i : Z) : result Z :=
  offset ← acc;
  argument ← Callable_GetArgument context i;
  size ← TypeRef_GetSize (Parameter_GetType argument);
  mret (offset + size).

(** The offset that [Parameter.EmitLoadAddress] computes: 2, plus the sizes
    of the arguments from the last one down to the one after [self]. *)
Definition Parameter_offset (self : Parameter_) (context : Callable) : result Z :=
  fold_left (add_argument_size context)
    (Py.range_down (Callable_GetArgumentCount context - 1) (Parameter_GetIndex self))
    (Ok 2).

(** The offset that [ReturnVariable.EmitLoadAddress] computes. *)
Definition ReturnVariable_offset (context : Callable) : result Z :=
  fold_left (add_argument_size context) (Py.range 0 (Callable_GetArgumentCount context))
    (Ok 2).

(** The offset that [Local.EmitLoadAddress] computes: the sizes of the
    locals up to and including [self]; [local == self] is identity. *)
Definition Local_offset (self : Local) (context : Callable) : result Z :=
  (fix loop (indices : list Z) (offset : Z) : result Z :=
     match indices with
     | [] => Ok offset
     | i :: indices' =>
         local ← Callable_GetLocal context i;
         size ← TypeRef_GetSize (Local_GetType local);
         if (Local_oid local =? Local_oid self)%nat then Ok (offset + size)
         else loop indices' (offset + size)
     end) (Py.range 0 (Callable_GetLocalCount context)) 0.

Definition Parameter_EmitLoadAddress (self : Parameter_) (context : Callable) : EmitM unit :=
  offset ← lift (Parameter_offset self context);
  ld_bp ;;
  push offset ;;
  add ;;
  if Parameter_IsByReference self then
    size ← lift (Variable_GetSize (VarParameter self)); ld_ptr size
  else mret tt.

Definition Local_EmitLoadAddress (self : Local) (context : Callable) : EmitM unit :=
  offset ← lift (Local_offset self context);
  ld_bp ;;
  push offset ;;
  sub.

Definition ReturnVariable_EmitLoadAddress (self : ReturnVariable) (context : Callable)
    : EmitM unit :=
  offset ← lift (ReturnVariable_offset context);
  ld_bp ;;
  push offset ;;
  add.

(** [Variable.EmitLoadAddress(emitter, context)] *)
Fixpoint Variable_EmitLoadAddress (self : Variable_) (context : Callable) : EmitM unit :=
  match self with
  | VarField (mkField relativeTo _ _ _ offset) =>
      match relativeTo with
      | Some v => Variable_EmitLoadAddress v context
      | None => lift (None_no_attribute "EmitLoadAddress")
      end ;;
      push offset ;;
      add
  | VarParameter p => Parameter_EmitLoadAddress p context
  | VarLocal l => Local_EmitLoadAddress l context
  | VarReturn r => ReturnVariable_EmitLoadAddress r context
  end.

(** [Variable.EmitLoad] and [Variable.EmitStore]; a [ReturnVariable] of size
    0 emits nothing. *)
Definition Variable_EmitLoad (self : Variable_) (context : Callable) : EmitM unit :=
  match self with
  | VarReturn r =>
      size ← lift (TypeRef_GetSize (ReturnVariable_GetType r));
      if 0 <? size then
        Variable_EmitLoadAddress self context ;;
        size' ← lift (Variable_GetSize self); ld_ptr size'
      else mret tt
  | _ =>
      Variable_EmitLoadAddress self context ;;
      size ← lift (Variable_GetSize self); ld_ptr size
  end.

Definition Variable_EmitStore (self : Variable_) (context : Callable) : EmitM unit :=
  match self with
  | VarReturn r =>
      size ← lift (TypeRef_GetSize (ReturnVariable_GetType r));
      if 0 <? size then
        Variable_EmitLoadAddress self context ;;
        size' ← lift (Variable_GetSize self); st_ptr size'
      else mret tt
  | _ =>
      Variable_EmitLoadAddress self context ;;
      size ← lift (Variable_GetSize self); st_ptr size
  end.

(** *** Equality of types

    [SignedInteger], [UnsignedInteger] and [PointerType] define [__eq__] and
    [__ne__]; the other classes inherit the comparison of identities. *)
Fixpoint Type_eq (a b : Type_) : bool :=
  match a, b with
  | SignedInteger, SignedInteger => true
  | UnsignedInteger, UnsignedInteger => true
  | PointerType ra, PointerType rb =>
      match ra, rb with
      | TypeName na, TypeName nb => String.eqb na nb
      | TypeObj ta, TypeObj tb => Type_eq ta tb
      | _, _ => false
      end
  | EmptyType ia _, EmptyType ib _ => (ia =? ib)%nat
  | ComplexType ia _ _, ComplexType ib _ _ => (ia =? ib)%nat
  | _, _ => false
  end.

(** [a != b] for the result type of an expression, which may still be a
    name, and the return type of a callable. *)
Definition TypeRef_ne (a : TypeRef) (b : Type_) : bool :=
  match a with
  | TypeName _ => true
  | TypeObj ta => negb (Type_eq ta b)
  end.

(** *** Expressions *)

Definition not_resolved {A : Type} : result A :=
  Raise (Exception "Expression has not been resolved.").

(** [Expression.GetResultType] *)
Fixpoint Expression_GetResultType (e : Expression) : result TypeRef :=
  match e with
  | VoidExpression => Ok (TypeObj VoidType)
  | ConstantExpression _ type => Ok type
  | VariableExpression (VarObj v) => Ok (Variable_GetType v)
  | VariableExpression _ => Raise (Exception "Type is not resolved.")
  | UnaryOperandExpression _ _ call
  | BinaryOperandExpression _ _ _ call
  | CastExpression _ _ call =>
      match call with
      | None => not_resolved
      | Some c => Expression_GetResultType c
      end
  | CallExpression target addressOf args =>
      if addressOf then
        match args with
        | [] => Ok (TypeObj (PointerType (TypeObj VoidType)))
        | arg :: _ =>
            type ← Expression_GetResultType arg;
            mret (TypeObj (PointerType type))
        end
      else
        match target with
        | CallableObj c => t ← Callable_GetReturnType c; mret (TypeObj t)
        | CallableName _ => Raise (Exception "Function is not resolved.")
        end
  | StrObject _ => no_attribute "GetResultType"
  end.

(** [VariableExpression.GetVariable]: the error path calls the class
    [Expression] with a message; the class takes no argument (and is
    abstract), so the call itself fails with a [TypeError]. *)
Definition VariableExpression_GetVariable (target : VariableRef) : result Variable_ :=
  match target with
  | VarObj v => Ok v
  | _ => Raise (TypeError "Expression() takes no arguments")
  end.

(** [VariableExpression.Resolve(resolver, context)]: the new target. *)
Definition VariableExpression_Resolve (target : VariableRef) (context : Callable)
    : result VariableRef :=
  match target with
  | VarObj v => Ok (VarObj v)
  | VarName name =>
      found ← Callable_GetVariable context name;
      mret match found with
           | Some v => VarObj v
           | None => VarNone
           end
  | VarNone => None_no_attribute "split"
  end.

(** [context.GetVariable(name).EmitLoad(emitter, context)] and its
    [EmitStore] twin, for a statement that names its variable. *)
Definition named_variable (context : Callable) (name : string) (attribute : string)
    : result Variable_ :=
  found ← Callable_GetVariable context name;
  match found with
  | Some v => Ok v
  | None => None_no_attribute attribute
  end.

(** [Expression.Emit], [Statement.Emit] and [InlineBody.Emit] *)
Fixpoint Expression_Emit (e : Expression) (context : Callable) {struct e} : EmitM unit :=
  match e with
  | VoidExpression => mret tt
  | ConstantExpression value _ => push value
  | VariableExpression (VarObj v) => Variable_EmitLoad v context
  | VariableExpression _ => raise (Exception "Type is not resolved.")
  | UnaryOperandExpression _ _ call
  | BinaryOperandExpression _ _ _ call
  | CastExpression _ _ call =>
      match call with
      | None => lift not_resolved
      | Some c => Expression_Emit c context
      end
  | CallExpression target addressOf args =>
      if addressOf then
        match args with
        | [expr] =>
            match expr with
            | VariableExpression t =>
                v ← lift (VariableExpression_GetVariable t);
                Variable_EmitLoadAddress v context
            | _ => raise (Exception "Expression does not have an address.")
            end
        | _ =>
            raise (Exception ("Expected 1 operand for " ++ dq ++ "ADDRESSOF" ++ dq
                              ++ " operator."))
        end
      else
        match target with
        | CallableName _ => raise (Exception "Function is not resolved.")
        | CallableObj (InlineBody name returnType body) =>
            for_each args (fun arg => Expression_Emit arg context) ;;
            for_each body (fun statement =>
              Statement_Emit statement (InlineBody name returnType body))
        | CallableObj c =>
            type ← lift (Callable_GetReturnType c);
            size ← lift (Type_GetSize type);
            (if 0 <? size then
               type' ← lift (Callable_GetReturnType c);
               size' ← lift (Type_GetSize type'); add_sp size'
             else mret tt) ;;
            size ← fold_each args 0 (fun size arg =>
                      Expression_Emit arg context ;;
                      type ← lift (Expression_GetResultType arg);
                      arg_size ← lift (TypeRef_GetSize type);
                      mret (size + arg_size));
            call (TName (Callable_GetName c)) ;;
            if 0 <? size then rem_sp size else mret tt
        end
  | StrObject _ => lift (no_attribute "Emit")
  end
with Statement_Emit (s : Statement) (context : Callable) {struct s} : EmitM unit :=
  match s with
  | LocalStatement _ => mret tt
  | AssignmentStatement target expr =>
      Expression_Emit expr context ;;
      match target with
      | VarObj _ =>
          raise (TypeError "EmitStore() missing 1 required positional argument: 'context'")
      | VarName name =>
          v ← lift (named_variable context name "EmitStore");
          Variable_EmitStore v context
      | VarNone => lift (None_no_attribute "split")
      end
  | ReturnStatement expr =>
      type ← lift (Expression_GetResultType expr);
      returnType ← lift (Callable_GetReturnType context);
      (if TypeRef_ne type returnType
       then raise (Exception "Return value does not match function return type.")
       else mret tt) ;;
      Expression_Emit expr context ;;
      type' ← lift (Expression_GetResultType expr);
      Variable_EmitStore (VarReturn (mkReturnVariable type')) context ;;
      jmp (TName ("__" ++ Callable_GetName context ++ "__return"))
  | AssemblyLoadStatement source =>
      match source with
      | VarObj v => Variable_EmitLoad v context
      | VarName name =>
          v ← lift (named_variable context name "EmitLoad");
          Variable_EmitLoad v context
      | VarNone => lift (None_no_attribute "split")
      end
  | AssemblyStoreStatement source =>
      match source with
      | VarObj v => Variable_EmitStore v context
      | VarName name =>
          v ← lift (named_variable context name "EmitStore");
          Variable_EmitStore v context
      | VarNone => lift (None_no_attribute "split")
      end
  | AssemblyInstructionStatement operation operands => emit_raw operation operands
  | CallStatement expr =>
      Expression_Emit expr context ;;
      type ← lift (Expression_GetResultType expr);
      size ← lift (TypeRef_GetSize type);
      if 0 <? size then
        type' ← lift (Expression_GetResultType expr);
        size' ← lift (TypeRef_GetSize type'); rem_sp size'
      else mret tt
  end.

Definition not_iterable {A : Type} : result A :=
  Raise (TypeError "'int' object is not iterable").

(** One turn of the loop over the locals in the prologue of
    [Callable.Emit].  A local with an initial value reaches
    [for _ in local.GetType().GetSize()], which iterates over the size
    itself. *)
Definition emit_local (local : Local) : EmitM unit :=
  match Local_GetInitialValue local with
  | None => size ← lift (TypeRef_GetSize (Local_GetType local)); add_sp size
  | Some value =>
      size ← lift (TypeRef_GetSize (Local_GetType local));
      lift not_iterable
  end.

Definition emit_locals (self : Callable) : EmitM unit :=
  for_each (Py.range 0 (Callable_GetLocalCount self)) (fun i =>
    local ← lift (Callable_GetLocal self i);
    emit_local local).

(** [Callable.Emit(emitter)], overridden by [InlineBody.Emit]. *)
Definition Callable_Emit (self : Callable) : EmitM unit :=
  match self with
  | InlineBody _ _ body =>
      for_each body (fun statement => Statement_Emit statement self)
  | _ =>
      mark_label (create_label (Callable_GetName self)) ;;
      ld_bp ;;
      ld_sp ;;
      st_bp ;;
      emit_locals self ;;
      for_each (Callable_GetBody self) (fun statement => Statement_Emit statement self) ;;
      mark_label (create_label ("__" ++ Callable_GetName self ++ "__return")) ;;
      ld_bp ;;
      st_sp ;;
      st_bp ;;
      ret
  end.

(** ** [compiler.py]: the resolver *)

Record Resolver : Type := mkResolver {
  _types : list Type_;
  _functions : gmap string Callable
}.

(** [Resolver(types, functions)] *)
Definition Resolver_init (types : list Type_) (functions : list Callable) : Resolver :=
  mkResolver types
    (fold_left (fun m func => <[Callable_GetName func := func]> m) functions ∅).

Definition Undefined_type {A : Type} (name : string) : result A :=
  Raise (Exception ("Undefined type " ++ dq ++ name ++ dq ++ ".")).

(** [Resolver.GetType(name)], reading [name] from its end: every trailing
    star wraps the type of the rest in a [PointerType]. *)
Fixpoint GetType_rev (types : list Type_) (reversed : string) : result Type_ :=
  match reversed with
  | String "*" reversed' =>
      t ← GetType_rev types reversed';
      mret (PointerType (TypeObj t))
  | _ =>
      match find (fun t => String.eqb (Type_GetName t) (Py.rev reversed)) types with
      | Some t => Ok t
      | None => Undefined_type (Py.rev reversed)
      end
  end.

Definition Resolver_GetType (self : Resolver) (name : string) : result Type_ :=
  GetType_rev (_types self) (Py.rev name).

(** [Resolver.Resolve(value)] *)
Definition Resolver_Resolve (value : TypeRef) : StateM Resolver Type_ := fun self =>
  match value with
  | TypeObj t =>
      if existsb (fun otherType => String.eqb (Type_GetName otherType) (Type_GetName t))
           (_types self)
      then (Ok t, self)
      else (Ok t, mkResolver (_types self ++ [t])%list (_functions self))
  | TypeName name => (Resolver_GetType self name, self)
  end.

Definition Resolver_DefineFunction (func : Callable) : StateM Resolver unit :=
  modify (fun self =>
    mkResolver (_types self) (<[Callable_GetName func := func]> (_functions self))).

Definition Resolver_GetFunction (self : Resolver) (name : string) : result Callable :=
  match _functions self !! name with
  | Some func => Ok func
  | None => Raise (Exception ("Undefined function " ++ dq ++ name ++ dq ++ "."))
  end.

(** [Parameter.Resolve(resolver)]: the parameter with [_resolved] set. *)
Definition Parameter_Resolve (self : Parameter_) : StateM Resolver Parameter_ :=
  resolved ← Resolver_Resolve (Parameter_type self);
  let resolved :=
    if Parameter_IsByReference self then PointerType (TypeObj resolved) else resolved in
  mret (mkParameter (Parameter_type self) (Some resolved) (Parameter_GetName self)
          (Parameter_GetIndex self) (Parameter_IsByReference self)).

(** ** [compiler.py]: the expression parser *)

(** The table [_operators]: precedence, left associativity, the name of the
    intrinsic and the number of operands. *)
Definition _operators : gmap string (Z * bool * string * Z) :=
  list_to_map
    [("+", (0, false, "__ADD_TYPE1_TYPE2", 2));
     ("-", (0, false, "__SUB_TYPE1_TYPE2", 2));
     ("*", (0, false, "__MUL_TYPE1_TYPE2", 2));
     ("/", (0, false, "__DIV_TYPE1_TYPE2", 2));
     ("<<", (0, false, "__LSHIFT_TYPE1_TYPE2", 2));
     (">>", (0, false, "__RSHIFT_TYPE1_TYPE2", 2));
     ("AND", (0, false, "__AND_TYPE1_TYPE2", 2));
     ("OR", (0, false, "__OR_TYPE1_TYPE2", 2));
     ("XOR", (0, false, "__XOR_TYPE1_TYPE2", 2))].

(** [_operators[name]] *)
Definition operator_entry (name : string) : result (Z * bool * string * Z) :=
  match _operators !! name with
  | Some entry => Ok entry
  | None => Raise (KeyError name)
  end.

(** The pattern of the scanner, under [re.IGNORECASE], is the alternation of
    six groups, tried in this order:
    - [\w[\w\d\.\*]*\(?], a word with its dots and stars and the parenthesis
      that may follow it;
    - [\-?\d[\w\d\.]*], a number with its sign;
    - [\s+], white space;
    - [[\+\-\*\/\.]+|(?:AS)], a run of operator characters, or AS;
    - [\(] and [\)], one parenthesis. *)
Definition token_regex : regex :=
  Alt (Grp (Seq Word
              (Seq (Star (OneOf [Py.is_word; Py.is_digit; one "."; one "*"]))
                   (Opt (C "(")))))
  (Alt (Grp (Seq (Opt (C "-"))
               (Seq Digit (Star (OneOf [Py.is_word; Py.is_digit; one "."])))))
  (Alt (Grp (Plus Space))
  (Alt (Grp (Alt (Plus (OneOf [one "+"; one "-"; one "*"; one "/"; one "."]))
                 (Grp (LitI "AS"))))
  (Alt (Grp (C "("))
       (Grp (C ")")))))).

(** The three local functions of [parse_expression]. *)
Definition isOperator (name : string) : bool :=
  (String.eqb (Py.upper name) "AS" || bool_decide (is_Some (_operators !! Py.upper name)))%bool.

Definition getPrecedence (name : string) : result Z :=
  entry ← operator_entry name; mret (entry.1.1.1).

Definition isLeftAssociative (name : string) : result bool :=
  entry ← operator_entry name; mret (entry.1.1.2).

(** The first stack of [parse_expression] holds tokens; it is kept with its
    top first, the queue in the order of its appends. *)
Record Shunting : Set := mkShunting {
  sh_queue : list string;
  sh_stack : list string
}.

(** The loop that an operator token runs before it is pushed. *)
Fixpoint pop_operators (token : string) (stack queue : list string)
    : result (list string * list string) :=
  match stack with
  | [] => Ok (stack, queue)
  | top :: stack' =>
      if String.eqb top "(" then Ok (stack, queue)
      else
        p_top ← getPrecedence top;
        p_token ← getPrecedence token;
        higher ← (if p_token <? p_top then Ok true
                  else
                    left ← isLeftAssociative token;
                    if left : bool then
                      p_top' ← getPrecedence top;
                      p_token' ← getPrecedence token;
                      mret (p_top' =? p_token')
                    else Ok false);
        if higher : bool then pop_operators token stack' (queue ++ [top])%list
        else Ok (stack, queue)
  end.

(** The loop that a closing parenthesis runs: [while stack[len(stack) - 1]
    != "("], which fails on the empty stack. *)
Fixpoint pop_to_paren (stack queue : list string) : result (list string * list string) :=
  match stack with
  | [] => IndexError_list
  | top :: stack' =>
      if String.eqb top "(" then Ok (stack, queue)
      else pop_to_paren stack' (queue ++ [top])%list
  end.

Definition Missing_open {A : Type} : result A :=
  Raise (Exception ("Missing " ++ dq ++ "(" ++ dq ++ ".")).

Definition Missing_close {A : Type} : result A :=
  Raise (Exception ("Missing " ++ dq ++ ")" ++ dq ++ ".")).

(** The body of the loop over the tokens. *)
Definition shunt (st : Shunting) (token : string) : result Shunting :=
  let stack := sh_stack st in
  let queue := sh_queue st in
  if Py.isspace token then Ok st
  else if isOperator token then
    '(stack1, queue1) ← pop_operators token stack queue;
    mret (mkShunting queue1 (token :: stack1))
  else if ((1 <? String.length token)%nat && Py.endswith token "(")%bool then
    Ok (mkShunting (queue ++ [")"])%list ("(" :: token :: stack))
  else if String.eqb token "(" then
    Ok (mkShunting queue ("(" :: stack))
  else if String.eqb token ")" then
    match stack with
    | [] => Missing_open
    | _ =>
        '(stack1, queue1) ← pop_to_paren stack queue;
        let stack2 := tl stack1 in
        match stack2 with
        | top :: rest =>
            if ((0 <? String.length top)%nat && Py.endswith top "(")%bool
            then Ok (mkShunting (queue1 ++ [top])%list rest)
            else Ok (mkShunting queue1 stack2)
        | [] => Ok (mkShunting queue1 stack2)
        end
    end
  else Ok (mkShunting (queue ++ [token])%list stack).

(** The loop that empties the stack into the queue. *)
Fixpoint drain (stack queue : list string) : result (list string) :=
  match stack with
  | [] => Ok queue
  | token :: stack' =>
      if String.eqb token "(" then Missing_close
      else drain stack' (queue ++ [token])%list
  end.

Definition Expected_operands {A : Type} (n token : string) : result A :=
  Raise (Exception ("Expected " ++ n ++ " for " ++ dq ++ token ++ dq ++ " operator.")).

(** The loop that collects the arguments of a call: operands are popped
    until the marker of the argument list is on top. *)
Fixpoint pop_arguments (stack args : list Expression)
    : result (list Expression * list Expression) :=
  match stack with
  | [] => IndexError_list
  | StrObject ")" :: _ => Ok (stack, args)
  | top :: stack' =>
      match stack' with
      | [] => Raise (Exception "Missing argument list terminator.")
      | _ => pop_arguments stack' (args ++ [top])%list
      end
  end.

(** The body of the loop over the queue; the stack of operands is kept with
    its top first.  The operand that names the type of a cast is one of the
    variable expressions that this loop builds, so [type.GetName()] is the
    name it was built from. *)
Definition reduce (stack : list Expression) (token : string) : result (list Expression) :=
  if String.eqb token ")" then Ok (StrObject token :: stack)
  else if isOperator token then
    if String.eqb (Py.upper token) "AS" then
      match stack with
      | [] => Expected_operands "2 operands" token
      | [_] => Raise (IndexError "pop from empty list")
      | type :: expr :: stack' =>
          match type with
          | VariableExpression target =>
              let name := match target with
                          | VarName name => name
                          | VarObj v => Variable_GetName v
                          | VarNone => EmptyString
                          end in
              Ok (CastExpression (TypeName name) expr None :: stack')
          | _ =>
              Raise (Exception ("Expected type name for second operand of " ++ dq ++ "AS"
                                ++ dq ++ "."))
          end
      end
    else
      entry ← operator_entry token;
      let argCount := entry.2 in
      if argCount =? 1 then
        match stack with
        | [] => Expected_operands "1 operand" token
        | expr :: stack' => Ok (UnaryOperandExpression token expr None :: stack')
        end
      else if argCount =? 2 then
        match stack with
        | argB :: argA :: stack' =>
            Ok (BinaryOperandExpression token argA argB None :: stack')
        | _ => Expected_operands "2 operands" token
        end
      else Ok stack
  else if (Py.endswith token "(" && (1 <? String.length token)%nat)%bool then
    match stack with
    | [] => Raise (Exception "Invalid call expression.")
    | _ =>
        '(stack1, args) ← pop_arguments stack [];
        mret (CallExpression_init (Py.drop_last token) (rev args) :: tl stack1)
    end
  else
    e ← try_except
          (value ← parse_value token; mret (ConstantExpression value (TypeName "Integer")))
          (Ok (VariableExpression (VarName token)));
    mret (e :: stack).

(** [for x in xs: acc = body(acc, x)] for code that only raises. *)
Fixpoint fold_result {A B : Type} (body : B -> A -> result B) (xs : list A) (acc : B)
    : result B :=
  match xs with
  | [] => Ok acc
  | x :: xs' => acc' ← body acc x; fold_result body xs' acc'
  end.

(** [parse_expression(line)] *)
Definition parse_expression (line : string) : result Expression :=
  let tokens := findall token_regex line in
  st ← fold_result shunt tokens (mkShunting [] []);
  queue ← drain (sh_stack st) (sh_queue st);
  stack ← fold_result reduce queue [];
  match stack with
  | [e] => Ok e
  | _ => Raise (Exception "Expressions must produce one value.")
  end.

(** [for arg in self._namedArgs: arg.Resolve(resolver)], the loop with which
    [SubRoutine.Resolve] and [Function.Resolve] resolve their parameters. *)
Fixpoint resolve_parameters (namedArgs : list Parameter_) : StateM Resolver (list Parameter_) :=
  match namedArgs with
  | [] => mret []
  | arg :: namedArgs' =>
      arg' ← Parameter_Resolve arg;
      rest ← resolve_parameters namedArgs';
      mret (arg' :: rest)
  end.

(** The signed operations of the emitter interface, by name. *)
Definition signed_operations (target : Target) : list (string * EmitM unit) :=
  [("mul_s", mul_s); ("div_s", div_s); ("rem_s", rem_s);
   ("cmp_lt_s", cmp_lt_s); ("cmp_gt_s", cmp_gt_s);
   ("cmp_le_s", cmp_le_s); ("cmp_ge_s", cmp_ge_s);
   ("br_lt_s", br_lt_s target); ("br_gt_s", br_gt_s target);
   ("br_le_s", br_le_s target); ("br_ge_s", br_ge_s target)].

(** An emitter as [gb.py] creates it, holding the given instructions. *)
Definition emitter_with (l : list Instruction) : URCLEmitter :=
  mkURCLEmitter 0 0 l false true default_optimizers.

Definition newline : string := String (Py.chr 10) EmptyString.

Definition decimal_digits : list ascii :=
  ["0"; "1"; "2"; "3"; "4"; "5"; "6"; "7"; "8"; "9"]%char.

(** The number that a decimal digit stands for. *)
Definition digit (c : ascii) : Z := Z.of_nat (Py.ord c - 48).

(** What [mul_u] appends when [_showIL] is off. *)
Definition multiply_instructions (e : URCLEmitter) : list Instruction :=
  [[_target (TInt (_current e)) false]; ["pop"; "R2"]; ["pop"; "R1"];
   ["mlt"; "R1"; "R1"; "R2"]; ["psh"; "R1"]].

(** A subroutine whose only statement declares [Dim x As Integer = 5]. *)
Definition sub_with_initialized_local : Callable :=
  SubRoutine_init "Main" []
    [LocalStatement (mkLocal 1 (TypeObj SignedInteger) "x" (Some 5))].

(** [sum(l)] *)
Definition sum (l : list Z) : Z := fold_right Z.add 0 l.

Definition field_sizes (fields : list Field) (sizes : list Z) : Prop :=
  Forall2 (fun f s => TypeRef_GetSize (Field_GetType f) = Ok s) fields sizes.

(** The locals of a callable in the order of their declarations. *)
Definition Callable_locals (c : Callable) : list Local :=
  match c with
  | InlineBody _ _ _ => []
  | SubRoutine _ _ body | Function _ _ _ body => concat (map Statement_GetLocals body)
  end.

(** The structure [Point] with the two fields [X] and [Y] of type [Integer]. *)
Definition point_fields : list Field :=
  [mkField None (TypeObj SignedInteger) "X" 0 0;
   mkField None (TypeObj SignedInteger) "Y" 1 0].

(** A function [Add(a As Integer, ByRef b As Integer) As Integer] as
    [parse_function] builds it, its parameters resolved. *)
Definition add_arguments : list (TypeRef * string * bool) :=
  [(TypeName "Integer", "a", false); (TypeName "Integer", "b", true)].

Definition default_resolver : Resolver :=
  Resolver_init [SignedInteger; UnsignedInteger] [].

Definition add_parameters : list Parameter_ :=
  [mkParameter (TypeName "Integer") (Some SignedInteger) "a" 0 false;
   mkParameter (TypeName "Integer") (Some (PointerType (TypeObj SignedInteger))) "b" 1 true].

Definition add_function : Callable :=
  Function "Add" add_parameters (TypeObj SignedInteger) [].

(** The sizes of the resolved parameters of a callable. *)
Definition parameter_sizes (c : Callable) (sizes : list Z) : Prop :=
  Forall2 (fun p s => TypeRef_GetSize (Parameter_GetType p) = Ok s) (Callable_namedArgs c) sizes.

(** The instruction list [psh 3; pop R1; psh R1; pop R2]. *)
Definition peephole_example : list Instruction :=
  [["psh"; "3"]; ["pop"; "R1"]; ["psh"; "R1"]; ["pop"; "R2"]].

(** [x] names a register for [PushStackOptimizer]. *)
Definition is_register (x : string) : bool :=
  (Py.startswith (Py.upper x) "R" || String.eqb (Py.upper x) "SP")%bool.

(** The instruction moves into, pops into or computes into [r]. *)
Definition writes (r : string) (inst : Instruction) : Prop :=
  inst !! 1%nat = Some r.

(** The message of [StackVerificationOptimizer]. *)
Definition stack_not_empty : PyError :=
  RuntimeError "Stack must be empty before returning.".


(** What [Parameter.Resolve] leaves in a parameter: its index and its flag
    are kept, and a parameter by reference has a pointer for type. *)
Definition resolved_from (p p' : Parameter_) : Prop :=
  Parameter_GetIndex p' = Parameter_GetIndex p /\
  (Parameter_IsByReference p' = true -> TypeRef_GetSize (Parameter_GetType p') = Ok 1).

(** The exception that a result carries. *)
Definition error_of {A : Type} (r : result A) : option PyError :=
  match r with
  | Ok _ => None
  | Raise e => Some e
  end.

(** The code never raises [err], whatever the state it starts from. *)
Definition never_raises {S A : Type} (err : PyError) (m : StateM S A) : Prop :=
  forall s, error_of (fst (m s)) <> Some err.

(** The result is a value or an [IndexError]. *)
Definition only_index_errors {A : Type} (r : result A) : Prop :=
  match r with
  | Ok _ => True
  | Raise (IndexError _) => True
  | Raise _ => False
  end.

(** A rewrite that answers [True] has made the list shorter, and one that
    answers [False] has left it as it was. *)
Definition shrinks (m : InstsM bool) : Prop :=
  forall l, match m l with
            | (Ok true, l') => (length l' < length l)%nat
            | (Ok false, l') => l' = l
            | (Raise _, _) => True
            end.

(** The code of the forward pass keeps the number of instructions. *)
Definition keeps_length {A : Type} (m : PassM A) : Prop :=
  forall st, length (insts (snd (m st))) = length (insts st).

(** A local without initial value, and the size of its type. *)
Definition reserved_size (l : Local) (s : Z) : Prop :=
  Local_GetInitialValue l = None /\ TypeRef_GetSize (Local_GetType l) = Ok s.

(** The characters that some character test of the pattern accepts. *)
Fixpoint accepted (r : regex) (c : ascii) : bool :=
  match r with
  | Eps | Bol | Eol => false
  | Chr p => p c
  | Seq r1 r2 | Alt r1 r2 => (accepted r1 c || accepted r2 c)%bool
  | Star r1 | Grp r1 => accepted r1 c
  end.

(** A match of [r] from [s] consumes a text whose characters [r] accepts
    and hands the rest to the continuation. *)
Definition consumed (r : regex) (pos : nat) (s : string) (k : nat -> string -> option string)
    (x : string) : Prop :=
  exists m s', s = m ++ s' /\ Py.all_chars (accepted r) m = true /\
               k (pos + String.length m)%nat s' = Some x.

(** The operators of an expression as the parser builds it. *)
Fixpoint operators_of (e : Expression) : list string :=
  match e with
  | UnaryOperandExpression operator expr _ => operator :: operators_of expr
  | BinaryOperandExpression operator exprA exprB _ =>
      (operator :: operators_of exprA ++ operators_of exprB)%list
  | CastExpression _ expr _ => operators_of expr
  | CallExpression _ _ args =>
      (fix all (args : list Expression) : list string :=
         match args with
         | [] => []
         | arg :: args' => (operators_of arg ++ all args')%list
         end) args
  | _ => []
  end.

(** The text has no [<] and no [>]. *)
Definition no_angle_bracket (text : string) : Prop :=
  Py.all_chars (fun c => negb (Ascii.eqb c "<" || Ascii.eqb c ">")) text = true.

Definition plain (e : Expression) : Prop := Forall no_angle_bracket (operators_of e).

Definition plain_shunting (st : Shunting) : Prop :=
  Forall no_angle_bracket (sh_stack st) /\ Forall no_angle_bracket (sh_queue st).

(** ** Vocabulary of the further properties *)

(** *** What [commit] writes *)

(** The lines that the last loop of [commit] writes for a list of
    instructions: one for every instruction that is not a [nop]. *)
Definition lines_of (l : list Instruction) : list string :=
  map (fun inst => Py.join " " inst ++ newline)
    (List.filter (fun inst => negb (String.eqb (Py.upper (hd EmptyString inst)) "NOP")) l).

(** *** Decimal numerals *)

(** A decimal numeral without leading zero: what [str] writes for a
    positive [int]. *)
Definition leading_digit (d : Decimal.uint) : Prop :=
  match d with
  | Decimal.Nil | Decimal.D0 _ => False
  | _ => True
  end.

(** *** The frame and the variables of a callable *)

(** [[f(x) for x in xs]] for an [f] that can raise. *)
Fixpoint comprehension {A B : Type} (f : A -> result B) (xs : list A) : result (list B) :=
  match xs with
  | [] => Ok []
  | x :: xs' => y ← f x; ys ← comprehension f xs'; mret (y :: ys)
  end.

(** [GetArgumentsSize]:
    [sum([param.GetType().GetSize() for param in self._namedArgs])] *)
Definition Callable_GetArgumentsSize (c : Callable) : result Z :=
  match c with
  | InlineBody _ _ _ => Ok 0
  | SubRoutine _ namedArgs _ | Function _ namedArgs _ _ =>
      sizes ← comprehension (fun param => TypeRef_GetSize (Parameter_GetType param)) namedArgs;
      mret (sum sizes)
  end.

(** [GetLocalsSize]: the two nested loops add [local.GetType().GetSize()] to
    [result] for the locals of the statements in order. *)
Definition Callable_GetLocalsSize (c : Callable) : result Z :=
  match c with
  | InlineBody _ _ _ => Ok 0
  | SubRoutine _ _ body | Function _ _ _ body =>
      fold_result (fun result local =>
                     size ← TypeRef_GetSize (Local_GetType local); mret (result + size))
        (concat (map Statement_GetLocals body)) 0
  end.

(** The sizes of the resolved locals of a callable. *)
Definition local_sizes (c : Callable) (sizes : list Z) : Prop :=
  Forall2 (fun l s => TypeRef_GetSize (Local_GetType l) = Ok s) (Callable_locals c) sizes.

(** The loop of [Local.EmitLoadAddress] on the locals themselves. *)
Fixpoint offset_upto (self : Local) (locals : list Local) (offset : Z) : result Z :=
  match locals with
  | [] => Ok offset
  | local :: locals' =>
      size ← TypeRef_GetSize (Local_GetType local);
      if (Local_oid local =? Local_oid self)%nat then Ok (offset + size)
      else offset_upto self locals' (offset + size)
  end.
(** The type in which [Variable.GetVariable] looks for fields: that of the
    variable, or what it points to when the variable is a parameter by
    reference. *)
Definition Variable_structure (self : Variable_) : TypeRef :=
  let type := Variable_GetType self in
  match Variable_IsByReference self, type with
  | true, TypeObj (PointerType referenced) => referenced
  | _, _ => type
  end.
(** A subroutine with the locals [a] and [a2] of type [Integer] and a
    parameter that is called [a] as well. *)
Definition local_a : Local := mkLocal 1 (TypeObj SignedInteger) "a" None.
Definition local_a2 : Local := mkLocal 2 (TypeObj SignedInteger) "a2" None.

Definition sub_with_locals : Callable :=
  SubRoutine "Main" [mkParameter (TypeName "Integer") (Some SignedInteger) "a" 0 false]
    [LocalStatement local_a; LocalStatement local_a2].

(** A local of the structure [Point]. *)
Definition local_point : Local :=
  mkLocal 3 (TypeObj (ComplexType 1 "Point" point_fields)) "p" None.

(** *** Operator keywords *)

(** An operator keyword that is not written as the table has it: its upper
    case is a key of [_operators], the token itself is not. *)
Definition miscased_operator (token : string) : Prop :=
  is_Some (_operators !! Py.upper token) /\ _operators !! token = None.

(** The token is on the stack or in the queue of the first pass. *)
Definition held (token : string) (stack queue : list string) : Prop :=
  In token stack \/ In token queue.

(** *** Lines of operands and operators *)

(** A token that the two passes of [parse_expression] treat as an operand:
    it is no white space, no operator, no call and no parenthesis. *)
Definition is_operand (token : string) : bool :=
  (negb (Py.isspace token) && negb (isOperator token)
   && negb ((1 <? String.length token)%nat && Py.endswith token "(")
   && negb (String.eqb token "(") && negb (String.eqb token ")"))%bool.

(** The expression that the second pass builds for an operand. *)
Definition operand_of (token : string) : Expression :=
  match parse_value token with
  | Ok value => ConstantExpression value (TypeName "Integer")
  | Raise _ => VariableExpression (VarName token)
  end.

(** The tokens of [x1 op2 x2 ... opn xn], and the expression in which every
    operator has the whole rest of the line for second operand. *)
Definition chain (first : string) (rest : list (string * string)) : list string :=
  first :: flat_map (fun '(operator, token) => [operator; token]) rest.

Fixpoint right_nested (first : string) (rest : list (string * string)) : Expression :=
  match rest with
  | [] => operand_of first
  | (operator, token) :: rest' =>
      BinaryOperandExpression operator (operand_of first) (right_nested token rest') None
  end.

(** The operators as [_operators] writes them. *)
Definition operator_keys : list string :=
  ["+"; "-"; "*"; "/"; "<<"; ">>"; "AND"; "OR"; "XOR"].

(** *** Counting instructions *)

(** The number of instructions of a list that have the given mnemonic. *)
Definition count_mnemonic (mnemonic : string) (l : list Instruction) : nat :=
  length (List.filter (fun inst : Instruction => String.eqb (hd EmptyString inst) mnemonic) l).

(** The emitter after more instructions have been appended and the counter
    of instructions has moved on. *)
Definition emitted (e : URCLEmitter) (new : list Instruction) (steps : Z) : URCLEmitter :=
  mkURCLEmitter (_current e + steps) (_internal e) (_insts e ++ new) (_showIL e) (_optimize e)
    (_optimizers e).

(** *** Unused labels *)

(** An instruction that [LabelOptimizer] removes: a label that starts with
    [.__] and that no operand of the list [l] names. *)
Definition unused_label (l : list Instruction) (inst : Instruction) : bool :=
  (Py.startswith (hd EmptyString inst) ".__"
   && (count_uses l (hd EmptyString inst) =? 0)%nat)%bool.

(** *** Operation names, modules and the defaults of [gb.py] *)

(** [s.replace(old, new)]: the occurrences of [old] are replaced from the
    left and do not overlap; [skip] counts the characters of an occurrence
    that are still to be passed over.  An empty [old] matches before every
    character and at the end. *)
Fixpoint replace_from (old new : string) (skip : nat) (s : string) : string :=
  match s with
  | EmptyString => EmptyString
  | String c s' =>
      match skip with
      | S skip' => replace_from old new skip' s'
      | O =>
          if String.prefix old s then new ++ replace_from old new (String.length old - 1) s'
          else String c (replace_from old new 0 s')
      end
  end.

Fixpoint intersperse (new : string) (s : string) : string :=
  match s with
  | EmptyString => new
  | String c s' => new ++ String c (intersperse new s')
  end.

Definition str_replace (s old new : string) : string :=
  match old with
  | EmptyString => intersperse new s
  | _ => replace_from old new 0 s
  end.

(** [type.GetName()] where [type] is what [GetResultType] returned. *)
Definition TypeRef_GetName (type : TypeRef) : result string :=
  match type with
  | TypeName _ => no_attribute "GetName"
  | TypeObj t => Ok (Type_GetName t)
  end.

(** [UnaryOperandExpression.GetOperationName],
    [BinaryOperandExpression.GetOperationName] and
    [CastExpression.GetOperationName] *)
Definition Unary_GetOperationName (operator : string) (expr : Expression) : result string :=
  type ← Expression_GetResultType expr;
  entry ← operator_entry operator;
  name ← TypeRef_GetName type;
  mret (str_replace (entry.1.2) "TYPE1" name).

Definition Binary_GetOperationName (operator : string) (exprA exprB : Expression)
    : result string :=
  a ← Expression_GetResultType exprA;
  b ← Expression_GetResultType exprB;
  entry ← operator_entry operator;
  nameA ← TypeRef_GetName a;
  nameB ← TypeRef_GetName b;
  mret (str_replace (str_replace (entry.1.2) "TYPE1" nameA) "TYPE2" nameB).

Definition Cast_GetOperationName (type : TypeRef) (expr : Expression) : result string :=
  from ← Expression_GetResultType expr;
  nameFrom ← TypeRef_GetName from;
  nameTo ← TypeRef_GetName type;
  mret ("__CAST_" ++ nameFrom ++ "_" ++ nameTo).

(** [Module(name, types, code)] *)
Record Module_ : Set := mkModule {
  Module_name : string;
  Module_types : list Type_;
  Module_code : list Callable
}.

(** [Module.GetResolver(additionalTypes, additionalFunctions)] *)
Definition Module_GetResolver (self : Module_) (additionalTypes : list Type_)
    (additionalFunctions : list Callable) : Resolver :=
  Resolver_init (Module_types self ++ additionalTypes)
    (Module_code self ++ additionalFunctions).

(** [Module.Emit(emitter)] *)
Definition Module_Emit (self : Module_) : EmitM unit :=
  for_each (Module_code self) Callable_Emit.

(** ** [gb.py]: the default types and functions *)

Definition defaultTypes : list Type_ := [SignedInteger; UnsignedInteger].

(** The body shared by the intrinsics of the binary operators. *)
Definition intrinsic (name : string) (type : Type_) (mnemonic : string) : Callable :=
  InlineBody name (TypeObj type)
    [AssemblyInstructionStatement "pop" ["R2"];
     AssemblyInstructionStatement "pop" ["R1"];
     AssemblyInstructionStatement mnemonic ["R1"; "R1"; "R2"];
     AssemblyInstructionStatement "psh" ["R1"]].

Definition defaultFunctions : list Callable :=
  [InlineBody "__CAST_Integer_UInteger" (TypeObj UnsignedInteger) [];
   InlineBody "__CAST_UInteger_Integer" (TypeObj SignedInteger) [];
   intrinsic "__ADD_Integer_Integer" SignedInteger "add";
   intrinsic "__SUB_Integer_Integer" SignedInteger "sub";
   intrinsic "__MUL_Integer_Integer" SignedInteger "mul";
   intrinsic "__DIV_Integer_Integer" SignedInteger "sdiv";
   intrinsic "__LSHIFT_Integer_Integer" SignedInteger "sbsl";
   intrinsic "__RSHIFT_Integer_Integer" SignedInteger "sbsr";
   intrinsic "__AND_Integer_Integer" SignedInteger "and";
   intrinsic "__OR_Integer_Integer" SignedInteger "or";
   intrinsic "__XOR_Integer_Integer" SignedInteger "xor";
   intrinsic "__ADD_UInteger_UInteger" UnsignedInteger "add";
   intrinsic "__SUB_UInteger_UInteger" UnsignedInteger "sub";
   intrinsic "__MUL_UInteger_UInteger" UnsignedInteger "mul";
   intrinsic "__DIV_UInteger_UInteger" UnsignedInteger "div";
   intrinsic "__LSHIFT_UInteger_UInteger" UnsignedInteger "bsl";
   intrinsic "__RSHIFT_UInteger_UInteger" UnsignedInteger "bsr";
   intrinsic "__AND_UInteger_UInteger" UnsignedInteger "and";
   intrinsic "__OR_UInteger_UInteger" UnsignedInteger "or";
   intrinsic "__XOR_UInteger_UInteger" UnsignedInteger "xor"].

(** *** Code that only appends *)

(** Code that only appends instructions and moves the counter of
    instructions on, whether it returns or raises: the instructions emitted
    before, the counter of internal labels and the settings of the emitter
    are left as they were. *)
Definition appends {A : Type} (m : EmitM A) : Prop :=
  forall e, exists new steps, snd (m e) = emitted e new steps /\ 0 <= steps.

(** *** Expressions that have not been resolved *)

(** An expression as the parser builds it, seen from its root: a literal, a
    variable or a callable that is still a name, an operator or a cast whose
    intrinsic has not been looked up, or the marker of an argument list. *)
Definition by_name (e : Expression) : bool :=
  match e with
  | ConstantExpression _ _ | StrObject _ => true
  | VariableExpression (VarName _) => true
  | UnaryOperandExpression _ _ None
  | BinaryOperandExpression _ _ _ None
  | CastExpression _ _ None => true
  | CallExpression (CallableName _) _ _ => true
  | _ => false
  end.

(** The same, for the arguments of a call as well. *)
Definition unresolved (e : Expression) : Prop :=
  by_name e = true /\
  match e with
  | ConstantExpression _ type => type = TypeName "Integer"
  | CallExpression _ _ args => Forall (fun arg => by_name arg = true) args
  | _ => True
  end.

(** *** A callable for the examples *)

(** A subroutine whose only statement declares [Dim x As Integer]. *)
Definition sub_with_plain_local : Callable :=
  SubRoutine_init "Main" [] [LocalStatement (mkLocal 1 (TypeObj SignedInteger) "x" None)].

(** * Properties *)

(** Running monadic code: the binds are unfolded and computed. *)
Ltac run :=
  repeat (unfold mbind, mret, StateM_bind, StateM_ret, result_bind, result_ret,
            raise, lift, modify, get; cbn).

(** [++] on strings does not unfold by itself. *)
Lemma append_cons (c : ascii) (s1 s2 : string) : String c s1 ++ s2 = String c (s1 ++ s2).
Proof. reflexivity. Qed.

(** ** Literals *)

Lemma parse_value_uppercase_prefixes :
  parse_value "-0X10" = Ok (-16) /\ parse_value "0B10000" = Ok 16 /\
  parse_value "0O20" = Ok 16.
Proof. repeat split; vm_compute; reflexivity. Qed.

(** C6.  [parse_value] returns -16 for ["-16"], but raises [ValueError] on
    ["-0x10"], ["0b10000"] and ["0o20"]: the pattern accepts them through
    [text.upper()], the prefix tests then look for ["0X"], ["0O"] and ["0B"]
    in the text as written, and the lower-case literal reaches [int(text)]. *)
Theorem parse_value_lowercase_prefixes :
  parse_value "-0x10" =
    Raise (ValueError "invalid literal for int() with base 10: '0x10'") /\
  parse_value "-16" = Ok (-16) /\
  parse_value "0b10000" =
    Raise (ValueError "invalid literal for int() with base 10: '0b10000'") /\
  parse_value "0o20" =
    Raise (ValueError "invalid literal for int() with base 10: '0o20'").
Proof. repeat split; vm_compute; reflexivity. Qed.

(** What happens to a literal with a lower-case prefix does not depend on
    its digits: [int] meets the letter of the prefix in base 10, and
    [parse_value] never returns. *)
Lemma int_lowercase_prefix (letter : ascii) (rest : string) :
  In letter ["x"; "o"; "b"]%char ->
  Py.int (String "0" (String letter rest)) 10 =
    Raise (Py.invalid_literal (String "0" (String letter rest)) 10).
Proof.
  intros Hletter. unfold Py.int, Py.int_strip.
  assert (Hstrip : exists rest',
            Py.int_rstrip (Py.int_lstrip (String "0" (String letter rest))) =
              String "0" (String letter rest')).
  { change (Py.int_lstrip (String "0" (String letter rest)))
      with (String "0" (String letter rest)).
    cbn [Py.int_rstrip]. destruct (Py.int_rstrip rest) as [| c r].
    - exists EmptyString.
      simpl in Hletter. destruct Hletter as [<- | [<- | [<- | []]]]; reflexivity.
    - exists (String c r). reflexivity. }
  destruct Hstrip as [rest' ->].
  simpl in Hletter. destruct Hletter as [<- | [<- | [<- | []]]]; reflexivity.
Qed.

(** X10.  A literal that starts with [0x], [0o] or [0b] in lower case, with
    or without a sign, is never returned as a value by [parse_value],
    whatever follows the prefix. *)
Lemma parse_value_lowercase_prefix (letter : ascii) (rest : string) (n : Z) :
  In letter ["x"; "o"; "b"]%char ->
  parse_value (String "0" (String letter rest)) <> Ok n /\
  parse_value (String "-" (String "0" (String letter rest))) <> Ok n.
Proof.
  intros Hletter. pose proof (int_lowercase_prefix letter rest Hletter) as Hint.
  unfold parse_value. split.
  - destruct (negb _); [discriminate |].
    replace (Py.startswith (String "0" (String letter rest)) "-") with false by reflexivity.
    cbv zeta.
    replace (Py.startswith (String "0" (String letter rest)) "0X") with false
      by (simpl in Hletter; destruct Hletter as [<- | [<- | [<- | []]]]; reflexivity).
    replace (Py.startswith (String "0" (String letter rest)) "0O") with false
      by (simpl in Hletter; destruct Hletter as [<- | [<- | [<- | []]]]; reflexivity).
    replace (Py.startswith (String "0" (String letter rest)) "0B") with false
      by (simpl in Hletter; destruct Hletter as [<- | [<- | [<- | []]]]; reflexivity).
    rewrite Hint. discriminate.
  - destruct (negb _); [discriminate |].
    replace (Py.startswith (String "-" (String "0" (String letter rest))) "-") with true
      by reflexivity.
    cbv zeta.
    change (Py.drop 1 (String "-" (String "0" (String letter rest))))
      with (String "0" (String letter rest)).
    replace (Py.startswith (String "0" (String letter rest)) "0X") with false
      by (simpl in Hletter; destruct Hletter as [<- | [<- | [<- | []]]]; reflexivity).
    replace (Py.startswith (String "0" (String letter rest)) "0O") with false
      by (simpl in Hletter; destruct Hletter as [<- | [<- | [<- | []]]]; reflexivity).
    replace (Py.startswith (String "0" (String letter rest)) "0B") with false
      by (simpl in Hletter; destruct Hletter as [<- | [<- | [<- | []]]]; reflexivity).
    rewrite Hint. discriminate.
Qed.

Lemma is_digit_cases (c : ascii) : Py.is_digit c = true -> In c decimal_digits.
Proof.
  destruct c as [[] [] [] [] [] [] [] []]; vm_compute; intros H;
    try discriminate H; tauto.
Qed.

(** C7, counterexample.  ["12"] is accepted: [[1-9][0-9]+] asks for one digit
    or more after the first. *)
Lemma parse_value_accepts_12 :
  parse_value "12" = Ok 12 /\ parse_value "12" <> Raise (Exception "Invalid value.").
Proof. split; [vm_compute; reflexivity | vm_compute; discriminate]. Qed.

(** C7, amended.  A plain decimal literal of two digits is accepted and has
    its decimal value when its first digit is not 0; with a leading 0 it is
    rejected with "Invalid value.". *)
Theorem parse_value_two_digits (c1 c2 : ascii) :
  Py.is_digit c1 = true -> Py.is_digit c2 = true ->
  parse_value (String c1 (String c2 EmptyString)) =
    if Ascii.eqb c1 "0" then Raise (Exception "Invalid value.")
    else Ok (10 * digit c1 + digit c2).
Proof.
  intros H1 H2.
  apply is_digit_cases in H1. apply is_digit_cases in H2.
  unfold decimal_digits in H1, H2. simpl in H1, H2.
  repeat (destruct H1 as [<- | H1]); try contradiction;
    repeat (destruct H2 as [<- | H2]); try contradiction;
    vm_compute; reflexivity.
Qed.

Lemma parse_value_two_digits_witness :
  Py.is_digit "1" = true /\ Py.is_digit "2" = true /\ parse_value "12" = Ok 12.
Proof.
  split; [reflexivity | split; [reflexivity |]].
  apply (parse_value_two_digits "1" "2"); reflexivity.
Defined.

(** ** The expression parser *)

(** C5.  The scanner has no alternative for the characters of [<<] and [>>]:
    [re.findall] skips them, the operands are left side by side, and the
    parser ends with two values instead of one.  The same line with [+]
    parses. *)
Theorem shift_operators_are_not_scanned :
  findall token_regex "a << b" = ["a"; " "; " "; "b"] /\
  parse_expression "a << b" = Raise (Exception "Expressions must produce one value.") /\
  findall token_regex "a >> b" = ["a"; " "; " "; "b"] /\
  parse_expression "a >> b" = Raise (Exception "Expressions must produce one value.") /\
  parse_expression "a + b" =
    Ok (BinaryOperandExpression "+" (VariableExpression (VarName "a"))
          (VariableExpression (VarName "b")) None).
Proof. repeat split; vm_compute; reflexivity. Qed.

(** The scanner yields no token with [<] or [>], whatever the line, so no
    line parses to an expression with the operator [<<] or [>>]. *)
Lemma all_chars_app (p : ascii -> bool) (s1 s2 : string) :
  Py.all_chars p (s1 ++ s2) = (Py.all_chars p s1 && Py.all_chars p s2)%bool.
Proof.
  induction s1 as [| c s1 IH]; [reflexivity |].
  rewrite append_cons. simpl. rewrite IH. apply andb_assoc.
Qed.

Lemma all_chars_weaken (p q : ascii -> bool) (s : string) :
  (forall c, p c = true -> q c = true) -> Py.all_chars p s = true -> Py.all_chars q s = true.
Proof.
  intros Hpq. induction s as [| c s IH]; [reflexivity |]. simpl.
  intros [Hc Hs]%andb_true_iff. rewrite (Hpq c Hc), (IH Hs). reflexivity.
Qed.

Lemma app_assoc_string (a b c : string) : (a ++ b) ++ c = a ++ (b ++ c).
Proof. induction a as [| x a IH]; [reflexivity |]. rewrite !append_cons, IH. reflexivity. Qed.

Lemma length_app_string (a b : string) :
  String.length (a ++ b) = (String.length a + String.length b)%nat.
Proof.
  induction a as [| x a IH]; [reflexivity |]. rewrite append_cons. simpl. rewrite IH.
  reflexivity.
Qed.

Lemma star_loop_consumed (r1 : regex)
    (step : nat -> string -> (nat -> string -> option string) -> option string)
    (k : nat -> string -> option string) :
  (forall pos s k x, step pos s k = Some x -> consumed r1 pos s k x) ->
  forall fuel pos s x, star_loop step k fuel pos s = Some x -> consumed (Star r1) pos s k x.
Proof.
  intros Hstep. induction fuel as [| fuel IH]; intros pos s x; simpl.
  - intros H. exists EmptyString, s. rewrite Nat.add_0_r. auto.
  - match goal with |- context [step pos s ?k1] =>
      destruct (step pos s k1) as [y |] eqn:H1 end.
    + intros H. injection H as ->. apply Hstep in H1 as (m1 & s1 & -> & Hm1 & H).
      destruct (_ <? _)%nat; [| discriminate].
      apply IH in H as (m2 & s2 & -> & Hm2 & H).
      exists (m1 ++ m2), s2. rewrite app_assoc_string, all_chars_app, length_app_string.
      split; [reflexivity |]. split.
      * apply andb_true_iff. split; [exact Hm1 | exact Hm2].
      * rewrite Nat.add_assoc. exact H.
    + intros H. exists EmptyString, s. rewrite Nat.add_0_r. auto.
Qed.

Lemma exec_consumed (r : regex) :
  forall pos s k x, exec r pos s k = Some x -> consumed r pos s k x.
Proof.
  induction r as [| p | r1 IH1 r2 IH2 | r1 IH1 r2 IH2 | r1 IH1 | r1 IH1 | |];
    intros pos s k x; cbn [exec].
  - intros H. exists EmptyString, s. rewrite Nat.add_0_r. auto.
  - destruct s as [| c s]; [discriminate |]. destruct (p c) eqn:Hc; [| discriminate].
    intros H. exists (String c EmptyString), s. simpl. rewrite Hc, Nat.add_1_r. auto.
  - intros H. apply IH1 in H as (m1 & s1 & -> & Hm1 & H).
    apply IH2 in H as (m2 & s2 & -> & Hm2 & H).
    exists (m1 ++ m2), s2. rewrite app_assoc_string, all_chars_app, length_app_string.
    split; [reflexivity |]. split.
    + apply andb_true_iff. split.
      * refine (all_chars_weaken _ _ _ _ Hm1). intros c Hc. simpl. rewrite Hc. reflexivity.
      * refine (all_chars_weaken _ _ _ _ Hm2). intros c Hc. simpl. rewrite Hc.
        apply orb_true_r.
    + rewrite Nat.add_assoc. exact H.
  - destruct (exec r1 pos s k) as [y |] eqn:H1.
    + intros H. injection H as ->. apply IH1 in H1 as (m & s' & -> & Hm & H).
      exists m, s'. repeat split; [| exact H].
      refine (all_chars_weaken _ _ _ _ Hm). intros c Hc. simpl. rewrite Hc. reflexivity.
    + intros H. apply IH2 in H as (m & s' & -> & Hm & H).
      exists m, s'. repeat split; [| exact H].
      refine (all_chars_weaken _ _ _ _ Hm). intros c Hc. simpl. rewrite Hc. apply orb_true_r.
  - apply star_loop_consumed, IH1.
  - intros H. apply IH1 in H as (m & s' & -> & Hm & H). exists m, s'. auto.
  - destruct (pos =? 0)%nat; [| discriminate].
    intros H. exists EmptyString, s. rewrite Nat.add_0_r. auto.
  - destruct (at_eol s); [| discriminate].
    intros H. exists EmptyString, s. rewrite Nat.add_0_r. auto.
Qed.

Lemma substring_prefix (m rest : string) :
  String.substring 0 (String.length m) (m ++ rest) = m.
Proof.
  induction m as [| c m IH]; [destruct rest; reflexivity |].
  rewrite append_cons. simpl. rewrite IH. reflexivity.
Qed.

Lemma findall_from_accepted (r : regex) (fuel pos : nat) (s : string) :
  Forall (fun tok => Py.all_chars (accepted r) tok = true) (findall_from fuel r pos s).
Proof.
  revert pos s. induction fuel as [| fuel IH]; intros pos s; simpl; [constructor |].
  destruct (match_at r pos s) as [rest |] eqn:Hmatch.
  - apply exec_consumed in Hmatch as (m & s' & -> & Hm & H). injection H as ->.
    rewrite length_app_string.
    replace (String.length m + String.length rest - String.length rest)%nat
      with (String.length m) by lia.
    rewrite substring_prefix.
    destruct (m ++ rest) as [| c s']; [repeat constructor; exact Hm |].
    destruct (_ =? _)%nat; constructor; auto.
  - destruct s as [| c s]; [constructor | apply IH].
Qed.

Theorem scanner_never_yields_angle_brackets (line token : string) :
  In token (findall token_regex line) ->
  Py.all_chars (fun c => negb (Ascii.eqb c "<" || Ascii.eqb c ">")) token = true.
Proof.
  intros Hin.
  pose proof (findall_from_accepted token_regex (S (String.length line)) 0 line) as Hall.
  rewrite Forall_forall in Hall. apply list_elem_of_In in Hin. specialize (Hall token Hin).
  refine (all_chars_weaken _ _ _ _ Hall). clear.
  intros c Hc.
  destruct (Ascii.eqb_spec c "<") as [-> |]; [discriminate Hc |].
  destruct (Ascii.eqb_spec c ">") as [-> |]; [discriminate Hc | reflexivity].
Qed.

Lemma operators_of_call (target : CallableRef) (addressOf : bool) (args : list Expression) :
  Forall plain args -> plain (CallExpression target addressOf args).
Proof.
  unfold plain. induction 1 as [| arg args Harg _ IH]; [constructor |].
  change (operators_of (CallExpression target addressOf (arg :: args)))
    with (operators_of arg ++ operators_of (CallExpression target addressOf args))%list.
  apply Forall_app. split; [exact Harg | exact IH].
Qed.

Lemma pop_operators_plain (token : string) (stack queue stack' queue' : list string) :
  pop_operators token stack queue = Ok (stack', queue') ->
  Forall no_angle_bracket stack -> Forall no_angle_bracket queue ->
  Forall no_angle_bracket stack' /\ Forall no_angle_bracket queue'.
Proof.
  revert queue. induction stack as [| top stack IH]; intros queue; simpl.
  - intros H. injection H as <- <-. auto.
  - destruct (_ =? _)%string; [intros H; injection H as <- <-; auto |].
    unfold mbind, result_bind.
    destruct (getPrecedence top); [| discriminate].
    destruct (getPrecedence token); [| discriminate].
    match goal with |- context [match ?h with Ok _ => _ | Raise _ => _ end] =>
      destruct h as [[] |] end; [| intros H; injection H as <- <-; auto | discriminate].
    intros H Hstack Hqueue. apply Forall_cons in Hstack as [Htop Hstack].
    apply (IH _ H Hstack). apply Forall_app. split; [exact Hqueue | repeat constructor; exact Htop].
Qed.

Lemma pop_to_paren_plain (stack queue stack' queue' : list string) :
  pop_to_paren stack queue = Ok (stack', queue') ->
  Forall no_angle_bracket stack -> Forall no_angle_bracket queue ->
  Forall no_angle_bracket stack' /\ Forall no_angle_bracket queue'.
Proof.
  revert queue. induction stack as [| top stack IH]; intros queue; simpl; [discriminate |].
  destruct (_ =? _)%string; [intros H; injection H as <- <-; auto |].
  intros H Hstack Hqueue. apply Forall_cons in Hstack as [Htop Hstack].
  apply (IH _ H Hstack). apply Forall_app. split; [exact Hqueue | repeat constructor; exact Htop].
Qed.

Lemma shunt_plain (st st' : Shunting) (token : string) :
  shunt st token = Ok st' -> no_angle_bracket token -> plain_shunting st -> plain_shunting st'.
Proof.
  unfold shunt, plain_shunting. intros H Htoken [Hstack Hqueue]. revert H.
  destruct (Py.isspace token); [intros H; injection H as <-; auto |].
  destruct (isOperator token).
  { unfold mbind, result_bind.
    destruct (pop_operators token (sh_stack st) (sh_queue st)) as [[stack1 queue1] |] eqn:Hpop;
      [| discriminate].
    intros H. injection H as <-. simpl.
    destruct (pop_operators_plain _ _ _ _ _ Hpop Hstack Hqueue) as [H1 H2].
    split; [constructor; assumption | exact H2]. }
  destruct (_ && _)%bool.
  { intros H. injection H as <-. simpl. split.
    - repeat constructor; assumption.
    - apply Forall_app. split; [exact Hqueue | repeat constructor]. }
  destruct (_ =? _)%string.
  { intros H. injection H as <-. simpl. split; [repeat constructor; assumption | exact Hqueue]. }
  destruct (_ =? _)%string.
  { destruct (sh_stack st) as [| top stack] eqn:Hst; [discriminate |].
    unfold mbind, result_bind.
    destruct (pop_to_paren (top :: stack) (sh_queue st)) as [[stack1 queue1] |] eqn:Hpop;
      [| discriminate].
    destruct (pop_to_paren_plain _ _ _ _ Hpop Hstack Hqueue) as [H1 H2].
    assert (Htl : Forall no_angle_bracket (tl stack1)).
    { destruct stack1; [constructor |]. apply Forall_cons in H1 as [_ H1]. exact H1. }
    destruct (tl stack1) as [| top' rest].
    - intros H. injection H as <-. simpl. auto.
    - apply Forall_cons in Htl as [Htop' Hrest].
      destruct (_ && _)%bool; intros H; injection H as <-; simpl.
      + split; [exact Hrest |]. apply Forall_app. split; [exact H2 | repeat constructor; exact Htop'].
      + split; [constructor; assumption | exact H2]. }
  intros H. injection H as <-. simpl. split; [exact Hstack |].
  apply Forall_app. split; [exact Hqueue | repeat constructor; exact Htoken].
Qed.

Lemma fold_shunt_plain (tokens : list string) (st st' : Shunting) :
  fold_result shunt tokens st = Ok st' ->
  Forall no_angle_bracket tokens -> plain_shunting st -> plain_shunting st'.
Proof.
  revert st. induction tokens as [| token tokens IH]; intros st; simpl.
  - intros H. injection H as <-. auto.
  - unfold mbind, result_bind. destruct (shunt st token) as [st1 |] eqn:Hshunt; [| discriminate].
    intros H Htokens Hst. apply Forall_cons in Htokens as [Htoken Htokens].
    exact (IH _ H Htokens (shunt_plain _ _ _ Hshunt Htoken Hst)).
Qed.

Lemma drain_plain (stack queue queue' : list string) :
  drain stack queue = Ok queue' ->
  Forall no_angle_bracket stack -> Forall no_angle_bracket queue ->
  Forall no_angle_bracket queue'.
Proof.
  revert queue. induction stack as [| token stack IH]; intros queue; simpl.
  - intros H. injection H as <-. auto.
  - destruct (_ =? _)%string; [discriminate |].
    intros H Hstack Hqueue. apply Forall_cons in Hstack as [Htoken Hstack].
    apply (IH _ H Hstack). apply Forall_app. split; [exact Hqueue | repeat constructor; exact Htoken].
Qed.

Lemma pop_arguments_plain (stack args stack' args' : list Expression) :
  pop_arguments stack args = Ok (stack', args') ->
  Forall plain stack -> Forall plain args -> Forall plain stack' /\ Forall plain args'.
Proof.
  revert args. induction stack as [| top stack IH]; intros args; [discriminate |].
  intros H Hstack Hargs. pose proof Hstack as Hall.
  apply Forall_cons in Hstack as [Htop Hstack].
  assert (Hnext : Forall plain (args ++ [top])%list).
  { apply Forall_app. split; [exact Hargs | repeat constructor; exact Htop]. }
  assert (Hmove : match stack with
                  | [] => Raise (Exception "Missing argument list terminator.")
                  | _ => pop_arguments stack (args ++ [top])%list
                  end = Ok (stack', args') -> Forall plain stack' /\ Forall plain args').
  { destruct stack as [| e stack1]; [discriminate |]. intros H1. exact (IH _ H1 Hstack Hnext). }
  cbn [pop_arguments] in H.
  destruct top; try exact (Hmove H).
  repeat (match type of H with
          | match ?x with _ => _ end = _ => destruct x
          | (if ?b then _ else _) = _ => destruct b
          end; try exact (Hmove H)).
  all: injection H as <- <-; split; assumption.
Qed.

Lemma reduce_plain (stack stack' : list Expression) (token : string) :
  reduce stack token = Ok stack' -> no_angle_bracket token ->
  Forall plain stack -> Forall plain stack'.
Proof.
  unfold reduce. intros H Htoken Hstack. revert H.
  destruct (_ =? _)%string.
  { intros H. injection H as <-. constructor; [constructor | exact Hstack]. }
  destruct (isOperator token).
  { destruct (_ =? _)%string.
    - destruct stack as [| type [| expr stack1]]; [discriminate | discriminate |].
      destruct type; try discriminate.
      intros H. injection H as <-.
      apply Forall_cons in Hstack as [_ Hstack]. apply Forall_cons in Hstack as [Hexpr Hstack].
      constructor; [exact Hexpr | exact Hstack].
    - unfold mbind, result_bind. destruct (operator_entry token) as [entry |]; [| discriminate].
      destruct (_ =? _)%Z.
      + destruct stack as [| expr stack1]; [discriminate |].
        intros H. injection H as <-. apply Forall_cons in Hstack as [Hexpr Hstack].
        constructor; [constructor; assumption | exact Hstack].
      + destruct (_ =? _)%Z; [| intros H; injection H as <-; exact Hstack].
        destruct stack as [| argB [| argA stack1]]; [discriminate | discriminate |].
        intros H. injection H as <-.
        apply Forall_cons in Hstack as [HB Hstack]. apply Forall_cons in Hstack as [HA Hstack].
        constructor; [| exact Hstack].
        unfold plain. simpl. constructor; [exact Htoken |].
        apply Forall_app. split; assumption. }
  destruct (_ && _)%bool.
  { destruct stack as [| top stack1] eqn:Hst; [discriminate |].
    unfold mbind, result_bind.
    destruct (pop_arguments (top :: stack1) []) as [[stack2 args] |] eqn:Hpop; [| discriminate].
    intros H. injection H as <-.
    destruct (pop_arguments_plain _ _ _ _ Hpop Hstack ltac:(constructor)) as [H1 H2].
    constructor.
    - apply operators_of_call. apply Forall_rev. exact H2.
    - destruct stack2; [constructor |]. apply Forall_cons in H1 as [_ H1]. exact H1. }
  unfold mbind, result_bind, try_except.
  destruct (parse_value token); intros H; injection H as <-;
    (constructor; [constructor | exact Hstack]).
Qed.

Lemma fold_reduce_plain (queue : list string) (stack stack' : list Expression) :
  fold_result reduce queue stack = Ok stack' ->
  Forall no_angle_bracket queue -> Forall plain stack -> Forall plain stack'.
Proof.
  revert stack. induction queue as [| token queue IH]; intros stack; simpl.
  - intros H. injection H as <-. auto.
  - unfold mbind, result_bind. destruct (reduce stack token) as [stack1 |] eqn:Hreduce;
      [| discriminate].
    intros H Hqueue Hstack. apply Forall_cons in Hqueue as [Htoken Hqueue].
    exact (IH _ H Hqueue (reduce_plain _ _ _ Hreduce Htoken Hstack)).
Qed.

(** X9.  No expression that [parse_expression] returns holds the operator
    [<<] or [>>], whatever the line is: the scanner yields no token with an
    angle bracket. *)
Theorem parse_expression_never_shifts (line : string) (e : Expression) :
  parse_expression line = Ok e ->
  ~ In "<<" (operators_of e) /\ ~ In ">>" (operators_of e).
Proof.
  unfold parse_expression, mbind, result_bind.
  destruct (fold_result shunt _ _) as [st |] eqn:Hshunt; [| discriminate].
  destruct (drain _ _) as [queue |] eqn:Hdrain; [| discriminate].
  destruct (fold_result reduce _ _) as [stack |] eqn:Hreduce; [| discriminate].
  destruct stack as [| e' [| ? ?]]; try discriminate.
  intros H. injection H as ->.
  assert (Htokens : Forall no_angle_bracket (findall token_regex line)).
  { apply Forall_forall. intros token Hin. apply list_elem_of_In in Hin.
    exact (scanner_never_yields_angle_brackets line token Hin). }
  assert (Hst : plain_shunting st).
  { apply (fold_shunt_plain _ _ _ Hshunt Htokens). split; constructor. }
  destruct Hst as [Hstack Hqueue].
  pose proof (drain_plain _ _ _ Hdrain Hstack Hqueue) as Hq.
  pose proof (fold_reduce_plain _ _ _ Hreduce Hq ltac:(constructor)) as He.
  apply Forall_cons in He as [He _]. unfold plain in He. rewrite Forall_forall in He.
  split; intros Hin; apply list_elem_of_In in Hin; apply He in Hin; discriminate Hin.
Qed.

(** ** The signed operations of the URCL emitter *)

(** C2, counterexample.  [mul_s] raises nothing on a new emitter and emits
    the unsigned multiplication. *)
Lemma mul_s_emits :
  let e := URCLEmitter_init false true default_optimizers in
  mul_s e <> (Raise NotImplementedError, e) /\
  fst (mul_s e) = Ok tt /\
  _insts (snd (mul_s e)) =
    [[".___urcl___0"]; ["pop"; "R2"]; ["pop"; "R1"]; ["mlt"; "R1"; "R1"; "R2"];
     ["psh"; "R1"]].
Proof.
  intros e. split; [| split].
  - vm_compute. discriminate.
  - vm_compute. reflexivity.
  - vm_compute. reflexivity.
Qed.

(** C2, amended.  Of the signed operations, all but [mul_s] raise
    [NotImplementedError] and leave the emitter as it was; [mul_s] is
    [mul_u], which emits the multiplication. *)
Theorem signed_operations_but_mul_s_raise (e : URCLEmitter) (target : Target) :
  Forall (fun '(name, operation) =>
            name <> "mul_s" -> operation e = (Raise NotImplementedError, e))
    (signed_operations target) /\
  mul_s e = mul_u e /\
  (_showIL e = false ->
   fst (mul_s e) = Ok tt /\
   _insts (snd (mul_s e)) = (_insts e ++ multiply_instructions e)%list).
Proof.
  split; [| split].
  - unfold signed_operations.
    repeat (apply Forall_cons; split; [first [reflexivity | intros H; now destruct H] |]).
    constructor.
  - reflexivity.
  - intros HIL. destruct e as [cur int l il opt opts]. simpl in HIL. subst il.
    unfold mul_s, mul_u, binary, begin_instruction, end_instruction, _emit,
      multiply_instructions, set_insts.
    run. rewrite <- !app_assoc. split; reflexivity.
Qed.

Lemma signed_operations_but_mul_s_raise_witness :
  let e := URCLEmitter_init false true default_optimizers in
  div_s e = (Raise NotImplementedError, e) /\ fst (mul_s e) = Ok tt.
Proof.
  intros e.
  destruct (signed_operations_but_mul_s_raise e (TName "L")) as [Hraise [_ Hmul]].
  split.
  - unfold signed_operations in Hraise.
    apply Forall_cons_1 in Hraise as [_ Hraise].
    apply Forall_cons_1 in Hraise as [Hdiv _].
    apply Hdiv. discriminate.
  - apply Hmul. reflexivity.
Defined.

(** ** The prologue of a callable *)

(** C3.  With an initial value the prologue raises [TypeError] at the local
    and pushes nothing: the emitter holds the label and the three
    instructions that save the base pointer, and no [psh 5]. *)
Theorem Emit_initialized_local_raises :
  let e := URCLEmitter_init false true default_optimizers in
  fst (Callable_Emit sub_with_initialized_local e) =
    Raise (TypeError "'int' object is not iterable") /\
  _insts (snd (Callable_Emit sub_with_initialized_local e)) =
    [[".Main"]; [".___urcl___0"]; ["psh"; "R3"]; [".___urcl___1"]; ["psh"; "SP"];
     [".___urcl___2"]; ["pop"; "R3"]].
Proof. split; vm_compute; reflexivity. Qed.

(** ** Composite types *)

Lemma sum_app (l1 l2 : list Z) : sum (l1 ++ l2)%list = sum l1 + sum l2.
Proof. induction l1 as [| x l1 IH]; simpl; [reflexivity | rewrite IH; lia]. Qed.

Lemma sum_take_S (l : list Z) (i : nat) (x : Z) :
  l !! i = Some x -> sum (take (S i) l) = sum (take i l) + x.
Proof.
  intros H. rewrite (take_S_r _ _ _ H), sum_app. simpl. lia.
Qed.

Lemma range_0 (n : nat) : Py.range 0 (Z.of_nat n) = map Z.of_nat (seq 0 n).
Proof.
  unfold Py.range. rewrite Z.sub_0_r, Nat2Z.id.
  apply map_ext. intros k. lia.
Qed.

Lemma getitem_lookup {A : Type} (l : list A) (i : nat) (x : A) :
  l !! i = Some x -> Py.getitem l (Z.of_nat i) = Ok x.
Proof.
  intros H. unfold Py.getitem.
  pose proof (lookup_lt_Some _ _ _ H) as Hlt.
  destruct (Z.ltb_spec (Z.of_nat i) 0) as [Hneg | _]; [lia |].
  destruct (Z.leb_spec 0 (Z.of_nat i)) as [_ | Hneg]; [| lia].
  destruct (Z.ltb_spec (Z.of_nat i) (Z.of_nat (length l))) as [_ | Hge]; [| lia].
  simpl. rewrite Nat2Z.id, H. reflexivity.
Qed.

(** A resolved field has the size of its type. *)
Lemma Variable_GetSize_field (f : Field) (s : Z) :
  TypeRef_GetSize (Field_GetType f) = Ok s -> Variable_GetSize (VarField f) = Ok s.
Proof.
  unfold Variable_GetSize. simpl. destruct (Field_GetType f); simpl; [discriminate | tauto].
Qed.

Lemma ComplexType_GetSize_sum (oid : nat) (name : string) (fields : list Field)
    (sizes : list Z) :
  field_sizes fields sizes -> Type_GetSize (ComplexType oid name fields) = Ok (sum sizes).
Proof.
  induction 1 as [| f s fields sizes Hf _ IH]; [reflexivity |].
  destruct f as [rel type fname index offset]. simpl in Hf.
  change (Type_GetSize (ComplexType oid name (mkField rel type fname index offset :: fields)))
    with (size ← TypeRef_GetSize type;
          rest ← Type_GetSize (ComplexType oid name fields);
          mret (size + rest)).
  rewrite Hf, IH. reflexivity.
Qed.

Lemma GetField_int_offset (fields : list Field) (sizes : list Z) (i : nat) :
  field_sizes fields sizes -> (i <= length fields)%nat ->
  fold_left (fun acc i =>
               offset ← acc;
               field ← Py.getitem fields i;
               size ← Variable_GetSize (VarField field);
               mret (offset + size))
    (map Z.of_nat (seq 0 i)) (Ok 0) = Ok (sum (take i sizes)).
Proof.
  intros Hsizes. induction i as [| i IH]; intros Hi; [reflexivity |].
  rewrite seq_S, map_app, fold_left_app, IH by lia. simpl.
  destruct (lookup_lt_is_Some_2 fields i ltac:(lia)) as [f Hf].
  destruct (Forall2_lookup_l _ _ _ _ _ Hsizes Hf) as (s & Hs & Hsize).
  run. rewrite (getitem_lookup _ _ _ Hf). run.
  rewrite (Variable_GetSize_field _ _ Hsize). run.
  rewrite (sum_take_S _ _ _ Hs). reflexivity.
Qed.

Lemma GetField_str_from_first (fields : list Field) (sizes : list Z) (i : nat) (f : Field)
    (relativeTo : option Variable_) (offset : Z) :
  field_sizes fields sizes -> fields !! i = Some f ->
  (forall j g, (j < i)%nat -> fields !! j = Some g -> Field_GetName g <> Field_GetName f) ->
  GetField_str_from fields (Field_GetName f) relativeTo offset =
    Ok (Some (mkField relativeTo (Field_GetType f) (Field_GetName f) (Field_GetIndex f)
                (offset + sum (take i sizes)))).
Proof.
  intros Hsizes. revert i offset.
  induction Hsizes as [| g s fields sizes Hg _ IH]; intros i offset Hf Hfirst.
  - discriminate Hf.
  - destruct i as [| i]; simpl in Hf.
    + injection Hf as ->. simpl. rewrite String.eqb_refl, Z.add_0_r. reflexivity.
    + simpl. destruct (String.eqb_spec (Field_GetName g) (Field_GetName f)) as [Heq | _].
      * exfalso. apply (Hfirst 0%nat g); [lia | reflexivity | exact Heq].
      * rewrite (Variable_GetSize_field _ _ Hg). run.
        rewrite (IH i (offset + s) Hf).
        -- do 3 f_equal. lia.
        -- intros j h Hj Hh. apply (Hfirst (S j) h); [lia | exact Hh].
Qed.

Lemma GetFieldOffset_from_first (fields : list Field) (sizes : list Z) (i : nat) (f : Field)
    (offset : Z) :
  field_sizes fields sizes -> fields !! i = Some f ->
  (forall j g, (j < i)%nat -> fields !! j = Some g -> Field_GetName g <> Field_GetName f) ->
  GetFieldOffset_from fields (Field_GetName f) offset = Ok (Some (offset + sum (take i sizes))).
Proof.
  intros Hsizes. revert i offset.
  induction Hsizes as [| g s fields sizes Hg _ IH]; intros i offset Hf Hfirst.
  - discriminate Hf.
  - destruct i as [| i]; simpl in Hf.
    + injection Hf as ->. simpl. rewrite String.eqb_refl, Z.add_0_r. reflexivity.
    + simpl. destruct (String.eqb_spec (Field_GetName g) (Field_GetName f)) as [Heq | _].
      * exfalso. apply (Hfirst 0%nat g); [lia | reflexivity | exact Heq].
      * rewrite Hg. run.
        rewrite (IH i (offset + s) Hf).
        -- do 2 f_equal. lia.
        -- intros j h Hj Hh. apply (Hfirst (S j) h); [lia | exact Hh].
Qed.

(** C9.  For a [ComplexType] whose fields are resolved, with sizes [sizes]:
    [GetSize] returns the sum of the sizes; [GetField] by index returns the
    field with the sum of the sizes of the fields before it as offset; and
    [GetField] and [GetFieldOffset] by name return that same sum for the
    field they find, the first one of the name. *)
Theorem ComplexType_size_and_offsets (oid : nat) (name : string) (fields : list Field)
    (sizes : list Z) :
  field_sizes fields sizes ->
  Type_GetSize (ComplexType oid name fields) = Ok (sum sizes) /\
  (forall i f relativeTo, fields !! i = Some f ->
     ComplexType_GetField_int fields (Z.of_nat i) relativeTo =
       Ok (mkField relativeTo (Field_GetType f) (Field_GetName f) (Field_GetIndex f)
             (sum (take i sizes)))) /\
  (forall i f relativeTo, fields !! i = Some f ->
     (forall j g, (j < i)%nat -> fields !! j = Some g -> Field_GetName g <> Field_GetName f) ->
     ComplexType_GetField_str fields (Field_GetName f) relativeTo =
       Ok (Some (mkField relativeTo (Field_GetType f) (Field_GetName f) (Field_GetIndex f)
                   (sum (take i sizes)))) /\
     ComplexType_GetFieldOffset fields (Field_GetName f) = Ok (Some (sum (take i sizes)))).
Proof.
  intros Hsizes. split; [| split].
  - apply ComplexType_GetSize_sum, Hsizes.
  - intros i f relativeTo Hf. unfold ComplexType_GetField_int.
    rewrite range_0, (GetField_int_offset fields sizes i Hsizes).
    + run. rewrite (getitem_lookup _ _ _ Hf). reflexivity.
    + apply Nat.lt_le_incl, (lookup_lt_Some _ _ _ Hf).
  - intros i f relativeTo Hf Hfirst. split.
    + unfold ComplexType_GetField_str.
      rewrite (GetField_str_from_first fields sizes i f relativeTo 0 Hsizes Hf Hfirst).
      reflexivity.
    + unfold ComplexType_GetFieldOffset.
      rewrite (GetFieldOffset_from_first fields sizes i f 0 Hsizes Hf Hfirst).
      reflexivity.
Qed.

Lemma field_sizes_point : field_sizes point_fields [1; 1].
Proof. repeat constructor. Qed.

Lemma ComplexType_size_and_offsets_witness :
  field_sizes point_fields [1; 1] /\
  Type_GetSize (ComplexType 1 "Point" point_fields) = Ok 2 /\
  ComplexType_GetFieldOffset point_fields "Y" = Ok (Some 1).
Proof.
  pose proof (ComplexType_size_and_offsets 1 "Point" point_fields [1; 1]
                field_sizes_point) as (Hsize & _ & Hname).
  split; [exact field_sizes_point | split; [exact Hsize |]].
  refine (proj2 (Hname 1%nat (mkField None (TypeObj SignedInteger) "Y" 1 0) None eq_refl _)).
  intros j g Hj Hg. destruct j as [| j]; [| lia].
  injection Hg as <-. discriminate.
Defined.

(** ** The frame of a callable *)

Lemma GetArgumentCount_length (c : Callable) :
  Callable_GetArgumentCount c = Z.of_nat (length (Callable_namedArgs c)).
Proof. destruct c; reflexivity. Qed.

Lemma GetArgument_lookup (c : Callable) (i : nat) (p : Parameter_) :
  Callable_namedArgs c !! i = Some p -> Callable_GetArgument c (Z.of_nat i) = Ok p.
Proof.
  destruct c; simpl; intros H; [discriminate H | |]; apply getitem_lookup, H.
Qed.

Lemma range_down_nil (hi lo : Z) : hi <= lo -> Py.range_down hi lo = [].
Proof.
  intros H. unfold Py.range_down. replace (Z.to_nat (hi - lo)) with 0%nat by lia. reflexivity.
Qed.

Lemma range_down_cons (hi lo : Z) :
  lo < hi -> Py.range_down hi lo = hi :: Py.range_down (hi - 1) lo.
Proof.
  intros H. unfold Py.range_down.
  replace (Z.to_nat (hi - lo)) with (S (Z.to_nat (hi - 1 - lo))) by lia.
  rewrite <- cons_seq. cbn [map]. rewrite <- seq_shift, map_map.
  f_equal; [lia |]. apply map_ext. intros k. lia.
Qed.

Lemma add_argument_size_lookup (c : Callable) (sizes : list Z) (i : nat) (s acc : Z) :
  parameter_sizes c sizes -> sizes !! i = Some s ->
  add_argument_size c (Ok acc) (Z.of_nat i) = Ok (acc + s).
Proof.
  intros Hsizes Hs.
  destruct (Forall2_lookup_r _ _ _ _ _ Hsizes Hs) as (p & Hp & Hsize).
  unfold add_argument_size. run.
  rewrite (GetArgument_lookup _ _ _ Hp). run. rewrite Hsize. reflexivity.
Qed.

Lemma sizes_down (c : Callable) (sizes : list Z) (m lo : nat) (acc : Z) :
  parameter_sizes c sizes -> (lo + m < length sizes \/ m = 0)%nat ->
  fold_left (add_argument_size c) (Py.range_down (Z.of_nat (lo + m)) (Z.of_nat lo)) (Ok acc) =
    Ok (acc + sum (take m (drop (S lo) sizes))).
Proof.
  intros Hsizes. revert acc.
  induction m as [| m IH]; intros acc Hm.
  - rewrite range_down_nil by lia. simpl. f_equal. lia.
  - destruct Hm as [Hm | Hm]; [| discriminate Hm].
    rewrite range_down_cons by lia. cbn [fold_left].
    destruct (lookup_lt_is_Some_2 sizes (lo + S m) Hm) as [s Hs].
    rewrite (add_argument_size_lookup c sizes (lo + S m) s acc Hsizes Hs).
    replace (Z.of_nat (lo + S m) - 1) with (Z.of_nat (lo + m)) by lia.
    rewrite IH by lia.
    rewrite (sum_take_S (drop (S lo) sizes) m s).
    + f_equal. lia.
    + rewrite lookup_drop. replace (S lo + m)%nat with (lo + S m)%nat by lia. exact Hs.
Qed.

Lemma sizes_up (c : Callable) (sizes : list Z) (n : nat) :
  parameter_sizes c sizes -> (n <= length sizes)%nat ->
  fold_left (add_argument_size c) (map Z.of_nat (seq 0 n)) (Ok 2) = Ok (2 + sum (take n sizes)).
Proof.
  intros Hsizes. induction n as [| n IH]; intros Hn; [reflexivity |].
  rewrite seq_S, map_app, fold_left_app, IH by lia. cbn [map fold_left Nat.add].
  destruct (lookup_lt_is_Some_2 sizes n ltac:(lia)) as [s Hs].
  rewrite (add_argument_size_lookup c sizes n s _ Hsizes Hs), (sum_take_S _ _ _ Hs).
  f_equal. lia.
Qed.

Lemma make_parameters_index (args : list (TypeRef * string * bool)) (k : Z) (i : nat)
    (p : Parameter_) :
  make_parameters args k !! i = Some p -> Parameter_GetIndex p = k + Z.of_nat i.
Proof.
  revert k i. induction args as [| [[type name] ref] args IH]; intros k i H; [discriminate H |].
  destruct i as [| i]; simpl in H.
  - injection H as <-. simpl. lia.
  - rewrite (IH _ _ H). lia.
Qed.

Lemma Parameter_Resolve_spec (p p' : Parameter_) (r r' : Resolver) :
  Parameter_Resolve p r = (Ok p', r') -> resolved_from p p'.
Proof.
  unfold Parameter_Resolve. run.
  destruct (Resolver_Resolve (Parameter_type p) r) as [[t | err] r1]; [| discriminate].
  intros H. injection H as <- _. split; [reflexivity |].
  simpl. intros ->. reflexivity.
Qed.

Lemma resolve_parameters_spec (ps ps' : list Parameter_) (r r' : Resolver) :
  resolve_parameters ps r = (Ok ps', r') -> Forall2 resolved_from ps ps'.
Proof.
  revert ps' r r'. induction ps as [| p ps IH]; intros ps' r r'; simpl.
  - intros H. injection H as <- _. constructor.
  - run. destruct (Parameter_Resolve p r) as [[p1 | err] r1] eqn:Hp; [| discriminate].
    destruct (resolve_parameters ps r1) as [[ps1 | err] r2] eqn:Hps; [| discriminate].
    intros H. injection H as <- _.
    constructor; [exact (Parameter_Resolve_spec _ _ _ _ Hp) | exact (IH _ _ _ Hps)].
Qed.

(** C8.  Let the parameters of a callable be those that its constructor
    numbers from 0, resolved, with sizes [sizes].  The offset that
    [Parameter.EmitLoadAddress] computes and pushes for the parameter of
    index [i] is 2 plus the sizes of the parameters after it; a parameter by
    reference has size 1; and [ReturnVariable.EmitLoadAddress] computes and
    pushes 2 plus the sizes of all the parameters. *)
Theorem frame_offsets (c : Callable) (args : list (TypeRef * string * bool))
    (resolver resolver' : Resolver) (sizes : list Z) :
  resolve_parameters (make_parameters args 0) resolver = (Ok (Callable_namedArgs c), resolver') ->
  parameter_sizes c sizes ->
  (forall i p, Callable_namedArgs c !! i = Some p ->
     Parameter_offset p c = Ok (2 + sum (drop (S i) sizes)) /\
     (Parameter_IsByReference p = true -> sizes !! i = Some 1) /\
     forall e, Parameter_EmitLoadAddress p c e =
       (ld_bp ;; push (2 + sum (drop (S i) sizes)) ;; add ;;
        if Parameter_IsByReference p then ld_ptr 1 else mret tt) e) /\
  ReturnVariable_offset c = Ok (2 + sum sizes) /\
  (forall r e, ReturnVariable_EmitLoadAddress r c e =
     (ld_bp ;; push (2 + sum sizes) ;; add) e).
Proof.
  intros Hresolve Hsizes.
  pose proof (resolve_parameters_spec _ _ _ _ Hresolve) as Hfrom.
  pose proof (Forall2_length _ _ _ Hsizes) as Hlen.
  assert (Hparam : forall i p, Callable_namedArgs c !! i = Some p ->
            Parameter_offset p c = Ok (2 + sum (drop (S i) sizes)) /\
            (Parameter_IsByReference p = true -> sizes !! i = Some 1)).
  { intros i p Hp.
    destruct (Forall2_lookup_r _ _ _ _ _ Hfrom Hp) as (p0 & Hp0 & Hindex & Hpointer).
    pose proof (make_parameters_index _ _ _ _ Hp0) as Hi. rewrite <- Hindex in Hi.
    pose proof (lookup_lt_Some _ _ _ Hp) as Hlt.
    split.
    - unfold Parameter_offset. rewrite GetArgumentCount_length, Hi, Z.add_0_l.
      replace (Z.of_nat (length (Callable_namedArgs c)) - 1)
        with (Z.of_nat (i + (length sizes - S i))) by lia.
      change (fold_left (add_argument_size c)
                (Py.range_down (Z.of_nat (i + (length sizes - S i))) (Z.of_nat i)) (Ok 2) =
              Ok (2 + sum (drop (S i) sizes))).
      rewrite (sizes_down c sizes _ i 2 Hsizes) by lia.
      rewrite take_ge; [reflexivity |]. rewrite length_drop. lia.
    - intros Href.
      destruct (Forall2_lookup_l _ _ _ _ _ Hsizes Hp) as (s & Hs & Hsize).
      rewrite (Hpointer Href) in Hsize. injection Hsize as <-. exact Hs. }
  assert (Hreturn : ReturnVariable_offset c = Ok (2 + sum sizes)).
  { unfold ReturnVariable_offset. rewrite GetArgumentCount_length, range_0.
    change (fold_left (add_argument_size c)
              (map Z.of_nat (seq 0 (length (Callable_namedArgs c)))) (Ok 2) =
            Ok (2 + sum sizes)).
    rewrite (sizes_up c sizes _ Hsizes) by lia.
    rewrite take_ge by lia. reflexivity. }
  split; [| split].
  - intros i p Hp. destruct (Hparam i p Hp) as [Hoffset Hone].
    split; [exact Hoffset | split; [exact Hone |]].
    intros e. unfold Parameter_EmitLoadAddress. rewrite Hoffset.
    destruct (Parameter_IsByReference p) eqn:Href; [| reflexivity].
    destruct (Forall2_lookup_l _ _ _ _ _ Hsizes Hp) as (s & Hs & Hsize).
    rewrite (Hone eq_refl) in Hs. injection Hs as <-.
    assert (Hvar : Variable_GetSize (VarParameter p) = Ok 1).
    { unfold Variable_GetSize. simpl. unfold TypeRef_GetSize in Hsize.
      destruct (Parameter_GetType p); [discriminate Hsize | exact Hsize]. }
    rewrite Hvar. reflexivity.
  - exact Hreturn.
  - intros r e. unfold ReturnVariable_EmitLoadAddress. rewrite Hreturn. reflexivity.
Qed.

Lemma add_parameters_resolved :
  resolve_parameters (make_parameters add_arguments 0) default_resolver =
    (Ok (Callable_namedArgs add_function), default_resolver).
Proof. vm_compute. reflexivity. Qed.

Lemma add_parameters_sizes : parameter_sizes add_function [1; 1].
Proof. repeat constructor. Qed.

Lemma frame_offsets_witness :
  resolve_parameters (make_parameters add_arguments 0) default_resolver =
    (Ok (Callable_namedArgs add_function), default_resolver) /\
  parameter_sizes add_function [1; 1] /\
  Parameter_offset (mkParameter (TypeName "Integer") (Some SignedInteger) "a" 0 false)
    add_function = Ok 3 /\
  ReturnVariable_offset add_function = Ok 4.
Proof.
  pose proof (frame_offsets add_function add_arguments default_resolver default_resolver
                [1; 1] add_parameters_resolved add_parameters_sizes) as (Hparam & Hreturn & _).
  split; [exact add_parameters_resolved | split; [exact add_parameters_sizes |]].
  split; [| exact Hreturn].
  exact (proj1 (Hparam 0%nat _ eq_refl)).
Defined.

(** ** Variables that the callable does not declare *)

Lemma GetLocalCount_length (c : Callable) :
  Callable_GetLocalCount c = Z.of_nat (length (Callable_locals c)).
Proof.
  assert (H : forall body : list Statement,
            fold_right Z.add 0 (map (fun s => Z.of_nat (length (Statement_GetLocals s))) body) =
            Z.of_nat (length (concat (map Statement_GetLocals body)))).
  { induction body as [| s body IH]; [reflexivity |].
    simpl. rewrite IH, length_app. lia. }
  destruct c; simpl; [reflexivity | apply H | apply H].
Qed.

Lemma GetLocal_from_lookup (locals : list Local) (i : nat) (l : Local) :
  locals !! i = Some l -> GetLocal_from locals (Z.of_nat i) = Ok l.
Proof.
  revert i. induction locals as [| l0 locals IH]; intros i H; [discriminate H |].
  destruct i as [| i]; simpl in H.
  - injection H as ->. reflexivity.
  - cbn [GetLocal_from]. destruct (Z.eqb_spec (Z.of_nat (S i)) 0) as [H0 | _]; [lia |].
    replace (Z.of_nat (S i) - 1) with (Z.of_nat i) by lia. apply IH, H.
Qed.

Lemma GetLocal_lookup (c : Callable) (i : nat) (l : Local) :
  Callable_locals c !! i = Some l -> Callable_GetLocal c (Z.of_nat i) = Ok l.
Proof.
  destruct c; simpl; intros H; [discriminate H | |]; apply GetLocal_from_lookup, H.
Qed.

Lemma first_named_none {A : Type} (get : Z -> result A) (name_of : A -> string)
    (first : string) (indices : list nat) :
  Forall (fun i => exists x, get (Z.of_nat i) = Ok x /\ name_of x <> first) indices ->
  first_named get name_of first (map Z.of_nat indices) = Ok None.
Proof.
  induction 1 as [| i indices (x & Hget & Hname) _ IH]; [reflexivity |].
  simpl. rewrite Hget. run.
  destruct (String.eqb_spec (name_of x) first) as [Heq | _]; [contradiction | exact IH].
Qed.

Lemma first_named_all {A : Type} (get : Z -> result A) (name_of : A -> string)
    (first : string) (xs : list A) :
  (forall i x, xs !! i = Some x -> get (Z.of_nat i) = Ok x) ->
  Forall (fun x => name_of x <> first) xs ->
  first_named get name_of first (Py.range 0 (Z.of_nat (length xs))) = Ok None.
Proof.
  intros Hget Hnames. rewrite range_0. apply first_named_none.
  apply Forall_forall. intros i Hi. apply elem_of_seq in Hi.
  destruct (lookup_lt_is_Some_2 xs i ltac:(lia)) as [x Hx].
  exists x. split; [apply Hget, Hx |].
  exact (Forall_lookup_1 _ _ _ _ Hnames Hx).
Qed.

(** C10.  When no local and no parameter of the callable has the first part
    of the name, [Callable.GetVariable] returns [None] and raises nothing,
    and [VariableExpression.Resolve] stores that [None] as the target.  The
    expression then raises "Type is not resolved." when it is emitted or
    asked for its type, with nothing emitted, and so do a [Return] and an
    assignment of it. *)
Theorem undeclared_variable_resolves_to_None (c : Callable) (name : string) :
  Forall (fun l => Local_GetName l <> hd EmptyString (Py.split "." name)) (Callable_locals c) ->
  Forall (fun p => Parameter_GetName p <> hd EmptyString (Py.split "." name))
    (Callable_namedArgs c) ->
  Callable_GetVariable c name = Ok None /\
  VariableExpression_Resolve (VarName name) c = Ok VarNone /\
  Expression_GetResultType (VariableExpression VarNone) =
    Raise (Exception "Type is not resolved.") /\
  (forall context e,
     Expression_Emit (VariableExpression VarNone) context e =
       (Raise (Exception "Type is not resolved."), e) /\
     Statement_Emit (ReturnStatement (VariableExpression VarNone)) context e =
       (Raise (Exception "Type is not resolved."), e) /\
     forall target,
       Statement_Emit (AssignmentStatement target (VariableExpression VarNone)) context e =
         (Raise (Exception "Type is not resolved."), e)).
Proof.
  intros Hlocals Hargs.
  assert (Hnone : Callable_GetVariable c name = Ok None).
  { unfold Callable_GetVariable.
    rewrite GetLocalCount_length, GetArgumentCount_length.
    rewrite (first_named_all _ _ _ _ (GetLocal_lookup c) Hlocals). run.
    rewrite (first_named_all _ _ _ _ (GetArgument_lookup c) Hargs). reflexivity. }
  split; [exact Hnone | split; [| split; [reflexivity |]]].
  - unfold VariableExpression_Resolve. rewrite Hnone. reflexivity.
  - intros context e. repeat split; reflexivity.
Qed.

Lemma undeclared_variable_resolves_to_None_witness :
  Callable_GetVariable add_function "x" = Ok None /\
  VariableExpression_Resolve (VarName "x") add_function = Ok VarNone.
Proof.
  assert (Hlocals : Forall (fun l => Local_GetName l <> hd EmptyString (Py.split "." "x"))
                      (Callable_locals add_function)) by constructor.
  assert (Hargs : Forall (fun p => Parameter_GetName p <> hd EmptyString (Py.split "." "x"))
                    (Callable_namedArgs add_function))
    by (repeat constructor; discriminate).
  destruct (undeclared_variable_resolves_to_None add_function "x" Hlocals Hargs)
    as (Hnone & Hresolve & _).
  split; [exact Hnone | exact Hresolve].
Defined.

(** ** The locals of the prologue *)

Lemma for_each_cons {S A : Type} (x : A) (xs : list A) (body : A -> StateM S unit) (s : S) :
  for_each (x :: xs) body s =
    match body x s with
    | (Ok _, s') => for_each xs body s'
    | (Raise err, s') => (Raise err, s')
    end.
Proof. reflexivity. Qed.

Lemma for_each_locals (c : Callable) (k : nat) (locals : list Local) (e : URCLEmitter) :
  drop k (Callable_locals c) = locals ->
  for_each (map Z.of_nat (seq k (length locals)))
    (fun i => local ← lift (Callable_GetLocal c i); emit_local local) e =
  for_each locals emit_local e.
Proof.
  revert k e. induction locals as [| l locals IH]; intros k e Hdrop; [reflexivity |].
  assert (Hl : Callable_locals c !! k = Some l).
  { rewrite <- (Nat.add_0_r k), <- lookup_drop, Hdrop. reflexivity. }
  change (map Z.of_nat (seq k (length (l :: locals))))
    with (Z.of_nat k :: map Z.of_nat (seq (S k) (length locals))).
  rewrite !for_each_cons.
  unfold mbind, StateM_bind, lift. rewrite (GetLocal_lookup c k l Hl).
  destruct (emit_local l e) as [[[] | err] e1]; [| reflexivity].
  apply IH. replace (S k) with (k + 1)%nat by lia.
  rewrite <- drop_drop, Hdrop. reflexivity.
Qed.

(** The loop of the prologue visits the locals in the order of their
    declarations. *)
Lemma emit_locals_in_order (c : Callable) (e : URCLEmitter) :
  emit_locals c e = for_each (Callable_locals c) emit_local e.
Proof.
  unfold emit_locals. rewrite GetLocalCount_length, range_0.
  apply for_each_locals. reflexivity.
Qed.

Lemma add_sp_returns (offset : Z) (e : URCLEmitter) : fst (add_sp offset e) = Ok tt.
Proof.
  unfold add_sp, begin_instruction, end_instruction, _emit. run.
  destruct (_showIL e); reflexivity.
Qed.

Lemma reserve_returns (sizes : list Z) (e : URCLEmitter) :
  fst (for_each sizes add_sp e) = Ok tt.
Proof.
  revert e. induction sizes as [| s sizes IH]; intros e; [reflexivity |].
  rewrite for_each_cons. pose proof (add_sp_returns s e) as Hs.
  destruct (add_sp s e) as [[[] | err] e1]; [apply IH | discriminate Hs].
Qed.

Lemma emit_local_reserved (l : Local) (s : Z) (e : URCLEmitter) :
  reserved_size l s -> emit_local l e = add_sp s e.
Proof. intros [Hnone Hsize]. unfold emit_local. rewrite Hnone, Hsize. reflexivity. Qed.

(** X7.  Without initial values the prologue reserves the size of every
    local with [add_sp], in order. *)
Lemma emit_locals_reserves (c : Callable) (sizes : list Z) (e : URCLEmitter) :
  Forall2 reserved_size (Callable_locals c) sizes ->
  emit_locals c e = for_each sizes add_sp e.
Proof.
  rewrite emit_locals_in_order. generalize (Callable_locals c). intros locals Hsizes.
  revert e. induction Hsizes as [| l s locals sizes Hl _ IH]; intros e; [reflexivity |].
  rewrite !for_each_cons, (emit_local_reserved l s e Hl).
  destruct (add_sp s e) as [[[] | err] e1]; [apply IH | reflexivity].
Qed.

(** X8.  The first local with an initial value stops the prologue with a
    [TypeError], after the space of the locals before it has been reserved:
    nothing is pushed for it. *)
Lemma emit_locals_raises (c : Callable) (before after : list Local) (l : Local)
    (sizes : list Z) (value s : Z) (e : URCLEmitter) :
  Callable_locals c = (before ++ l :: after)%list ->
  Forall2 reserved_size before sizes ->
  Local_GetInitialValue l = Some value ->
  TypeRef_GetSize (Local_GetType l) = Ok s ->
  emit_locals c e =
    (Raise (TypeError "'int' object is not iterable"), snd (for_each sizes add_sp e)).
Proof.
  intros Hlocals Hsizes Hvalue Hsize. rewrite emit_locals_in_order, Hlocals. clear Hlocals.
  revert e. induction Hsizes as [| l0 s0 before sizes Hl0 _ IH]; intros e.
  - change ([] ++ l :: after)%list with (l :: after). rewrite for_each_cons.
    unfold emit_local. rewrite Hvalue, Hsize. reflexivity.
  - change ((l0 :: before) ++ l :: after)%list with (l0 :: (before ++ l :: after))%list.
    rewrite !for_each_cons, (emit_local_reserved l0 s0 e Hl0).
    pose proof (add_sp_returns s0 e) as Hs.
    destruct (add_sp s0 e) as [[[] | err] e1]; [apply IH | discriminate Hs].
Qed.

(** ** The forward pass of the peephole optimizer *)

(** C4.  At the third instruction of the example the contents of [R1] are
    known, and [psh R1] is left as it is, where [psh 3] was replaced with
    [nop]; the pops that matched the two pushes are both replaced.  The
    committed output is that one line: it pushes a value that nothing pops,
    and moves nothing into [R2]. *)
Theorem peephole_example_leaves_push :
  let st := snd ((stack_dispatch default_optimizers 0 ;; stack_dispatch default_optimizers 1)
                   (initial_pass peephole_example)) in
  _get_reg (registers st) "R1" = VInt 3 /\
  insts (snd (PushStackOptimizer_optimize 2 st)) !! 2%nat = Some ["psh"; "R1"] /\
  commit (emitter_with peephole_example) [] =
    Some (Ok tt, emitter_with [["nop"]; ["nop"]; ["psh"; "R1"]; ["nop"]],
          [("psh R1" ++ newline)%string]).
Proof. repeat split; vm_compute; reflexivity. Qed.

(** The name of a register is no literal. *)
Lemma register_is_no_value (x : string) :
  is_register x = true -> parse_value x = Raise (Exception "Invalid value.").
Proof.
  unfold is_register, parse_value. intros H.
  replace (matches parse_value_regex (Py.upper x)) with false; [reflexivity |].
  symmetry. apply orb_true_iff in H as [H | H].
  - destruct (Py.upper x) as [| c r]; [discriminate H |].
    unfold Py.startswith in H. cbn [String.prefix] in H.
    destruct (ascii_dec "R" c) as [<- | Hc]; [reflexivity | discriminate H].
  - apply String.eqb_eq in H. rewrite H. reflexivity.
Qed.

(** X30.  What [PushStackOptimizer] does with every [psh], in every state of
    the pass: a literal that [parse_value] accepts is recorded and the
    instruction replaced with [nop]; for the name of a register, what is
    known of the register is recorded, also when that is a number, and the
    instruction stays. *)
Theorem push_records_value (i : nat) (st : StackPass) (op x : string) (rest : list string) :
  insts st !! i = Some (op :: x :: rest) ->
  (forall n, parse_value x = Ok n ->
     PushStackOptimizer_optimize i st =
       (Ok tt, mkStackPass (<[i := ["nop"]]> (insts st)) (registers st)
                 (stack st ++ [VInt n])%list)) /\
  (is_register x = true ->
     PushStackOptimizer_optimize i st =
       (Ok tt, mkStackPass (insts st) (registers st)
                 (stack st ++ [_get_reg (registers st) x])%list)).
Proof.
  intros Hinst. split.
  - intros n Hn. unfold PushStackOptimizer_optimize, inst_at, Instruction in *.
    rewrite Hinst. run. rewrite Hn. reflexivity.
  - intros Hreg. pose proof (register_is_no_value x Hreg) as Hx.
    unfold PushStackOptimizer_optimize, inst_at, Instruction in *.
    rewrite Hinst. run. rewrite Hx.
    unfold operand, inst_at, Instruction in *. rewrite Hinst. run.
    unfold is_register in Hreg. rewrite Hreg. run. destruct st. reflexivity.
Qed.

Lemma push_records_value_witness :
  insts (initial_pass peephole_example) !! 0%nat = Some ["psh"; "3"] /\
  parse_value "3" = Ok 3 /\
  PushStackOptimizer_optimize 0 (initial_pass peephole_example) =
    (Ok tt, mkStackPass [["nop"]; ["pop"; "R1"]; ["psh"; "R1"]; ["pop"; "R2"]]
              (<["SP" := VStr "BP"]> ∅) [VInt 3]).
Proof.
  split; [reflexivity | split; [reflexivity |]].
  exact (proj1 (push_records_value 0 (initial_pass peephole_example) "psh" "3" [] eq_refl)
           3 eq_refl).
Defined.

(** On the example the pass replaces [psh 3], [pop R1] and [pop R2] with
    [nop]; no [mov] is produced, and nothing writes [R0] or [R3]. *)
Lemma peephole_example_moves_nothing :
  exists l lines,
    commit (emitter_with peephole_example) [] = Some (Ok tt, emitter_with l, lines) /\
    l !! 0%nat = Some ["nop"] /\ l !! 1%nat = Some ["nop"] /\ l !! 3%nat = Some ["nop"] /\
    Forall (fun inst => inst !! 0%nat <> Some "mov" /\ ~ writes "R0" inst /\ ~ writes "R3" inst) l /\
    Forall (fun line => Py.startswith line "mov" = false) lines.
Proof.
  exists [["nop"]; ["nop"]; ["psh"; "R1"]; ["nop"]], [("psh R1" ++ newline)%string].
  split; [vm_compute; reflexivity |].
  repeat split; try reflexivity.
  - repeat constructor; unfold writes; simpl; discriminate.
  - repeat constructor.
Qed.

(** ** The verification at [RET] *)

(** C1.  With the optimizers of [URCLEmitter.__init__], [psh R1] leaves one
    value on the virtual stack, the [ret] that follows is handed to
    [GeneralStackOptimizer], whose pattern comes first in the list and
    matches it, and [commit] writes both lines without an error. *)
Theorem commit_writes_ret_on_nonempty_stack :
  let l := [["psh"; "R1"]; ["ret"]] in
  stack (snd (stack_dispatch default_optimizers 0 (initial_pass l))) = [VNone] /\
  stack_pass default_optimizers (initial_pass l) =
    (Ok tt, mkStackPass l (<["SP" := VStr "BP"]> ∅) [VNone]) /\
  commit (emitter_with l) [] =
    Some (Ok tt, emitter_with l, [("psh R1" ++ newline)%string; ("ret" ++ newline)%string]).
Proof. repeat split; vm_compute; reflexivity. Qed.

(** ** The verification at [RET] is never reached

    With the optimizers of [URCLEmitter.__init__] no run of [commit] ends in
    the error of [StackVerificationOptimizer]: the pattern of
    [GeneralStackOptimizer] matches every mnemonic that the pattern [RET]
    matches, and no other code raises that error. *)




Section Never.
Context {S : Type} (err : PyError).

Lemma never_ret {A : Type} (a : A) : never_raises (S := S) err (mret a).
Proof. intros s. discriminate. Qed.

Lemma never_bind {A B : Type} (m : StateM S A) (f : A -> StateM S B) :
  never_raises err m -> (forall a, never_raises err (f a)) -> never_raises err (m ≫= f).
Proof.
  intros Hm Hf s. unfold mbind, StateM_bind. specialize (Hm s).
  destruct (m s) as [[a | e] s']; [apply Hf | exact Hm].
Qed.

Lemma never_raise {A : Type} (e : PyError) : e <> err -> never_raises (S := S) (A := A) err (raise e).
Proof. intros He s H. injection H as H. contradiction. Qed.

Lemma never_lift {A : Type} (r : result A) :
  error_of r <> Some err -> never_raises (S := S) err (lift r).
Proof. intros Hr s. exact Hr. Qed.

Lemma never_modify (f : S -> S) : never_raises err (modify f).
Proof. intros s. discriminate. Qed.

Lemma never_get : never_raises (S := S) err get.
Proof. intros s. discriminate. Qed.

Lemma never_for_each {A : Type} (xs : list A) (body : A -> StateM S unit) :
  (forall x, never_raises err (body x)) -> never_raises err (for_each xs body).
Proof.
  intros Hbody. induction xs as [| x xs IH]; [apply never_ret |].
  change (for_each (x :: xs) body) with (body x ;; for_each xs body).
  apply never_bind; [apply Hbody | intros _; exact IH].
Qed.
End Never.


Lemma inst_at_index (l : list Instruction) (i : nat) : only_index_errors (inst_at l i).
Proof. unfold inst_at. destruct (l !! i); exact I. Qed.

Lemma tok_index (inst : Instruction) (j : nat) : only_index_errors (tok inst j).
Proof. unfold tok. destruct (inst !! j); exact I. Qed.

Lemma only_index_never {A : Type} (r : result A) :
  only_index_errors r -> error_of r <> Some stack_not_empty.
Proof. destruct r as [a | []]; simpl; intros H; try contradiction; discriminate. Qed.

Lemma never_operand (i j : nat) : never_raises stack_not_empty (operand i j).
Proof.
  intros st. unfold operand. simpl.
  pose proof (inst_at_index (insts st) i) as H.
  destruct (inst_at (insts st) i) as [inst | []]; simpl in *; try contradiction; try discriminate.
  apply only_index_never, tok_index.
Qed.

Lemma never_PushStackOptimizer (i : nat) :
  never_raises stack_not_empty (PushStackOptimizer_optimize i).
Proof.
  intros st. unfold PushStackOptimizer_optimize.
  destruct (_ : result Z) as [n | e]; [discriminate |].
  revert st. apply never_bind; [apply never_operand |].
  intros value. destruct (_ || _)%bool; [| intros s; discriminate].
  apply never_bind; intros; intros s; discriminate.
Qed.

Ltac never :=
  repeat first
    [ apply never_ret | apply never_modify | apply never_get | apply never_operand
    | apply never_raise; discriminate
    | apply never_for_each; intros
    | apply never_bind; [| intros]
    | match goal with
      | |- never_raises _ (if ?b then _ else _) => destruct b
      | |- never_raises _ (match ?x with _ => _ end) => destruct x
      end ].

Lemma never_PopStackOptimizer (i : nat) :
  never_raises stack_not_empty (PopStackOptimizer_optimize i).
Proof.
  unfold PopStackOptimizer_optimize, set_pass_insts, _set_reg, set_registers, get_reg.
  never; try (intros s; discriminate).
  intros s. unfold pop_or_None. destruct (last (stack s)); discriminate.
Qed.

Lemma never_GeneralStackOptimizer (i : nat) :
  never_raises stack_not_empty (GeneralStackOptimizer_optimize i).
Proof.
  unfold GeneralStackOptimizer_optimize, set_operand, set_pass_insts, _set_reg,
    set_registers, set_stack, bad_modification, get_reg.
  never; try (intros s; discriminate).
  - apply never_lift, only_index_never, inst_at_index.
  - apply never_lift. unfold is_readonly_reg_instruction.
    destruct (tok a0 0) as [op | e] eqn:Htok; [discriminate |].
    pose proof (tok_index a0 0) as H. rewrite Htok in H.
    apply only_index_never. exact H.
  - apply never_lift, only_index_never, inst_at_index.
  - intros s. unfold pop_times. destruct (_ <=? _)%nat; discriminate.
  - intros s. unfold truncate_to. destruct (_ <? _)%Z; discriminate.
Qed.

Lemma ret_cases (s : string) :
  matches (anchored (Lit "RET")) s = true ->
  s = "RET" \/ s = String "R" (String "E" (String "T" (String (Py.chr 10) EmptyString))).
Proof.
  unfold matches, match_at, anchored. cbn [Lit exec C Nat.eqb].
  destruct s as [| c1 [| c2 [| c3 s]]]; cbn [exec]; try discriminate;
  try (destruct (Ascii.eqb_spec "R" c1); try discriminate);
  try (destruct (Ascii.eqb_spec "E" c2); try discriminate).
  destruct (Ascii.eqb_spec "T" c3) as [<- |]; [| discriminate]. subst.
  destruct s as [| c4 [| c5 s]]; cbn; try discriminate.
  - left; reflexivity.
  - destruct (Nat.eqb_spec (Py.ord c4) 10) as [H|]; [| discriminate].
    intros _. right. do 3 f_equal.
    apply (f_equal ascii_of_nat) in H. unfold Py.ord in H.
    rewrite ascii_nat_embedding in H. subst. reflexivity.
Qed.

Lemma general_matches_ret (op : string) :
  mnemonic_matches (get_regex StackVerificationOptimizer) op = true ->
  mnemonic_matches (get_regex GeneralStackOptimizer) op = true.
Proof.
  unfold mnemonic_matches. intros H.
  destruct (ret_cases _ H) as [-> | ->]; reflexivity.
Qed.

Lemma operand_state (i j : nat) (st : StackPass) : snd (operand i j st) = st.
Proof. reflexivity. Qed.

Lemma never_stack_dispatch_default (i : nat) :
  never_raises stack_not_empty (stack_dispatch default_optimizers i).
Proof.
  intros st. unfold default_optimizers. cbn [stack_dispatch kind].
  unfold mbind, StateM_bind.
  pose proof (never_operand i 0 st) as Hop.
  pose proof (operand_state i 0 st) as Hst.
  destruct (operand i 0 st) as [[op | e] st'] eqn:Heq; simpl in Hst; subst st';
    [| exact Hop].
  destruct (mnemonic_matches (get_regex PushStackOptimizer) op);
    [apply never_PushStackOptimizer |].
  rewrite Heq.
  destruct (mnemonic_matches (get_regex PopStackOptimizer) op);
    [apply never_PopStackOptimizer |].
  rewrite Heq.
  destruct (mnemonic_matches (get_regex GeneralStackOptimizer) op) eqn:Hgeneral;
    [apply never_GeneralStackOptimizer |].
  rewrite Heq.
  destruct (mnemonic_matches (get_regex StackVerificationOptimizer) op) eqn:Hret;
    [| discriminate].
  rewrite (general_matches_ret _ Hret) in Hgeneral. discriminate Hgeneral.
Qed.

Lemma never_stack_pass_default :
  never_raises stack_not_empty (stack_pass default_optimizers).
Proof.
  unfold stack_pass. apply never_bind; [apply never_get |].
  intros st. apply never_for_each, never_stack_dispatch_default.
Qed.

Lemma never_token (i j : nat) : never_raises stack_not_empty (token i j).
Proof.
  intros l. unfold token. simpl.
  pose proof (inst_at_index l i) as H.
  destruct (inst_at l i) as [inst | []]; simpl in *; try contradiction; try discriminate.
  apply only_index_never, tok_index.
Qed.

Lemma never_insts_pop (i : nat) : never_raises stack_not_empty (insts_pop i).
Proof. intros l. unfold insts_pop. destruct (_ <? _)%nat; discriminate. Qed.

Lemma never_insts_set (i : nat) (inst : Instruction) :
  never_raises stack_not_empty (insts_set i inst).
Proof. intros l. unfold insts_set. destruct (_ <? _)%nat; discriminate. Qed.

Lemma never_is_readonly (inst : Instruction) :
  error_of (is_readonly_reg_instruction inst) <> Some stack_not_empty.
Proof.
  unfold is_readonly_reg_instruction.
  destruct (tok inst 0) as [op | e] eqn:Htok; [discriminate |].
  pose proof (tok_index inst 0) as H. rewrite Htok in H.
  apply only_index_never. exact H.
Qed.

Ltac never_insts :=
  repeat first
    [ apply never_ret | apply never_get | apply never_token | apply never_insts_pop
    | apply never_insts_set
    | apply never_lift, only_index_never, inst_at_index
    | apply never_lift, never_is_readonly
    | apply never_bind; [| intros]
    | match goal with
      | |- never_raises _ (if ?b then _ else _) => destruct b
      | |- never_raises _ (match ?x with _ => _ end) => destruct x
      end ].

Lemma never_pair_optimize (o : Optimizer) (current next : nat) :
  never_raises stack_not_empty (pair_optimize o current next).
Proof.
  destruct o; simpl; try apply never_ret.
  - unfold PushFollowedByPopOptimizer_optimize. never_insts.
  - unfold RepeatedAddAndSubtractOptimizer_optimize. never_insts.
  - unfold OverwrittenResultOptimizer_optimize. never_insts.
  - unfold JumpNextOptimizer_optimize. never_insts.
Qed.

Lemma never_mono_optimize (o : Optimizer) (i : nat) :
  never_raises stack_not_empty (mono_optimize o i).
Proof.
  destruct o; simpl; try apply never_ret.
  - unfold VoidMoveOptimizer_optimize. never_insts.
  - unfold CommentOptimizer_optimize. never_insts.
Qed.

Lemma never__next (index : nat) (allowLabels : bool) :
  never_raises stack_not_empty (_next index allowLabels).
Proof.
  intros l. unfold _next. simpl. generalize (S index) at 2. generalize (drop (S index) l).
  induction l0 as [| inst l0 IH]; intros n; simpl; [discriminate |].
  unfold mbind, result_bind.
  pose proof (tok_index inst 0) as H.
  destruct (tok inst 0) as [op | []]; simpl in H; try contradiction; try discriminate.
  destruct (negb _); [discriminate | apply IH].
Qed.

Lemma never_pair_mono_step (optimizers : list Optimizer) (i : nat) :
  never_raises stack_not_empty (pair_mono_step optimizers i).
Proof.
  induction optimizers as [| o optimizers IH]; simpl; [apply never_ret |].
  destruct (kind o); try exact IH.
  - apply never_bind; [apply never__next |]. intros [next |]; [| exact IH].
    apply never_bind; [apply never_token |]. intros cur_op.
    destruct (mnemonic_matches _ _); [| exact IH].
    apply never_bind; [apply never_token |]. intros next_op.
    destruct (mnemonic_matches _ _); [| exact IH].
    apply never_bind; [apply never_pair_optimize |]. intros []; [apply never_ret | exact IH].
  - apply never_bind; [apply never_token |]. intros op.
    destruct (mnemonic_matches _ _); [| exact IH].
    apply never_bind; [apply never_mono_optimize |]. intros []; [apply never_ret | exact IH].
Qed.

Lemma never_pair_mono_loop (fuel : nat) (optimizers : list Optimizer) (i : nat)
    (l l' : list Instruction) (r : result unit) :
  pair_mono_loop fuel optimizers i l = Some (r, l') -> error_of r <> Some stack_not_empty.
Proof.
  revert i l. induction fuel as [| fuel IH]; intros i l; simpl; [discriminate |].
  destruct (_ <? _)%nat; [| intros H; injection H as <- _; discriminate].
  pose proof (never_pair_mono_step optimizers i l) as Hstep.
  destruct (pair_mono_step optimizers i l) as [[rerun | e] l1]; simpl in Hstep.
  - apply IH.
  - intros H. injection H as <- _. exact Hstep.
Qed.

Lemma collect_labels_index (l : list Instruction) (i : nat) :
  only_index_errors (collect_labels l i).
Proof.
  revert i. induction l as [| inst l IH]; intros i; simpl; [exact I |].
  unfold mbind, result_bind.
  pose proof (tok_index inst 0) as H.
  destruct (tok inst 0) as [op | e]; [| exact H].
  specialize (IH (S i)). destruct (collect_labels l (S i)) as [labels | e]; [exact I | exact IH].
Qed.

Lemma never_remove_unused (labels : list (string * nat * nat)) (offset : nat) (rerun : bool) :
  never_raises stack_not_empty (remove_unused labels offset rerun).
Proof.
  revert offset rerun. induction labels as [| [[name index] uses] labels IH];
    intros offset rerun; simpl; [apply never_ret |].
  destruct (uses =? 0)%nat; [| apply IH].
  apply never_bind; [apply never_insts_pop | intros _; apply IH].
Qed.

Lemma never_LabelOptimizer : never_raises stack_not_empty LabelOptimizer_optimize.
Proof.
  unfold LabelOptimizer_optimize. apply never_bind; [apply never_get |]. intros l.
  apply never_bind; [apply never_lift, only_index_never, collect_labels_index |].
  intros labels. apply never_remove_unused.
Qed.

Lemma never_code_step (optimizers : list Optimizer) (rerun : bool) :
  never_raises stack_not_empty (code_step optimizers rerun).
Proof.
  revert rerun. induction optimizers as [| o optimizers IH]; intros rerun; simpl;
    [apply never_ret |].
  destruct o; try apply IH.
  apply never_bind; [apply never_LabelOptimizer | intros changed; apply IH].
Qed.

Lemma never_code_loop (fuel : nat) (optimizers : list Optimizer)
    (l l' : list Instruction) (r : result unit) :
  code_loop fuel optimizers l = Some (r, l') -> error_of r <> Some stack_not_empty.
Proof.
  revert l. induction fuel as [| fuel IH]; intros l; simpl; [discriminate |].
  pose proof (never_code_step optimizers false l) as Hstep.
  destruct (code_step optimizers false l) as [[[] | e] l1]; simpl in Hstep.
  - apply IH.
  - intros H. injection H as <- _. discriminate.
  - intros H. injection H as <- _. exact Hstep.
Qed.

Lemma never_write_insts (l : list Instruction) : never_raises stack_not_empty (write_insts l).
Proof.
  induction l as [| inst l IH]; simpl; [apply never_ret |].
  apply never_bind; [apply never_lift, only_index_never, tok_index |]. intros op.
  apply never_bind; [destruct (negb _); [apply never_modify | apply never_ret] |].
  intros _. exact IH.
Qed.

Lemma never_optimize_insts (fuel : nat) (l l' : list Instruction) (r : result unit) :
  optimize_insts fuel default_optimizers l = Some (r, l') ->
  error_of r <> Some stack_not_empty.
Proof.
  unfold optimize_insts.
  pose proof (never_stack_pass_default (initial_pass l)) as Hpass.
  destruct (stack_pass default_optimizers _) as [[[] | e] st]; simpl in Hpass.
  - destruct (pair_mono_loop fuel default_optimizers 0 (insts st)) as [[[[] | e] l1] |] eqn:Hloop.
    + apply never_code_loop.
    + intros H. injection H as <- _. exact (never_pair_mono_loop _ _ _ _ _ _ Hloop).
    + discriminate.
  - intros H. injection H as <- _. exact Hpass.
Qed.

(** X2.  With the optimizers of [URCLEmitter.__init__], [commit] never
    raises the error of [StackVerificationOptimizer], whatever the
    instructions are: every mnemonic that its pattern matches is matched
    first by the pattern of [GeneralStackOptimizer]. *)
Theorem verification_never_fails (e e' : URCLEmitter) (stream stream' : list string)
    (r : result unit) :
  _optimizers e = default_optimizers ->
  commit e stream = Some (r, e', stream') ->
  r <> Raise stack_not_empty.
Proof.
  intros Hopts Hcommit Hr. subst r.
  unfold commit in Hcommit. rewrite Hopts in Hcommit.
  destruct (_optimize e).
  - destruct (optimize_insts _ default_optimizers (_insts e)) as [[[[] | err] l] |] eqn:Hopt;
      [| | discriminate].
    + pose proof (never_write_insts l stream) as Hwrite.
      destruct (write_insts l stream) as [r s]. injection Hcommit as -> _ _.
      apply Hwrite. reflexivity.
    + injection Hcommit as -> _ _.
      apply (never_optimize_insts _ _ _ _ Hopt). reflexivity.
  - pose proof (never_write_insts (_insts e) stream) as Hwrite.
    destruct (write_insts (_insts e) stream) as [r s]. injection Hcommit as -> _ _.
    apply Hwrite. reflexivity.
Qed.

(** ** [commit] ends

    Every rewrite that answers [True] removes an instruction, so the turns
    that [commit] allows its loops are enough. *)




Lemma insts_pop_length (i : nat) (l l' : list Instruction) (u : unit) :
  insts_pop i l = (Ok u, l') -> S (length l') = length l.
Proof.
  unfold insts_pop. destruct (Nat.ltb_spec i (length l)) as [Hlt |]; [| discriminate].
  intros H. injection H as _ <-.
  rewrite length_delete by (apply lookup_lt_is_Some_2, Hlt). lia.
Qed.

Lemma insts_set_length (i : nat) (inst : Instruction) (l l' : list Instruction) (u : unit) :
  insts_set i inst l = (Ok u, l') -> length l' = length l.
Proof.
  unfold insts_set. destruct (_ <? _)%nat; [| discriminate].
  intros H. injection H as _ <-. apply length_insert.
Qed.

Lemma token_state (i j : nat) (l : list Instruction) : snd (token i j l) = l.
Proof. reflexivity. Qed.

Ltac step_token :=
  match goal with
  | |- context [token ?i ?j ?l] =>
      let H := fresh in
      pose proof (token_state i j l) as H;
      destruct (token i j l) as [[? | ?] ?]; simpl in H; subst; [| exact I]
  end.

Ltac step_pop :=
  match goal with
  | |- context [insts_pop ?i ?l] =>
      let H := fresh in
      destruct (insts_pop i l) as [[[] | ?] ?] eqn:H; [apply insts_pop_length in H | exact I]
  | |- context [insts_set ?i ?x ?l] =>
      let H := fresh in
      destruct (insts_set i x l) as [[[] | ?] ?] eqn:H; [apply insts_set_length in H | exact I]
  end.

Ltac unbind := unfold mbind, mret, StateM_bind, StateM_ret, lift, get in *.

Lemma shrinks_PushFollowedByPop (current next : nat) :
  shrinks (PushFollowedByPopOptimizer_optimize current next).
Proof.
  intros l. unfold PushFollowedByPopOptimizer_optimize. unbind.
  repeat step_token. destruct (_ =? _)%string; repeat step_pop; lia.
Qed.

Lemma shrinks_RepeatedAddAndSubtract (current next : nat) :
  shrinks (RepeatedAddAndSubtractOptimizer_optimize current next).
Proof.
  intros l. unfold RepeatedAddAndSubtractOptimizer_optimize. unbind.
  step_token. destruct (get_constant_operand _); [| exact eq_refl].
  step_token. destruct (get_constant_operand _); [| exact eq_refl].
  repeat step_token.
  destruct (_ =? _)%string; [| exact eq_refl].
  step_token. destruct (_ =? _)%string; [| exact eq_refl].
  repeat step_token.
  destruct (_ <? _)%Z; [| destruct (_ <? _)%Z]; repeat step_pop; lia.
Qed.

Lemma shrinks_OverwrittenResult (current next : nat) :
  shrinks (OverwrittenResultOptimizer_optimize current next).
Proof.
  intros l. unfold OverwrittenResultOptimizer_optimize. unbind.
  destruct (inst_at l current) as [cur |]; [| exact I].
  destruct (inst_at l next) as [nxt |]; [| exact I].
  destruct (is_readonly_reg_instruction cur) as [[] |]; [| | exact I].
  - exact eq_refl.
  - destruct (is_readonly_reg_instruction nxt) as [[] |]; [exact eq_refl | | exact I].
    simpl. repeat case_match; simplify_eq; try done.
    all: match goal with H : insts_pop _ _ = _ |- _ => apply insts_pop_length in H; lia end.
Qed.

Lemma shrinks_JumpNext (current next : nat) : shrinks (JumpNextOptimizer_optimize current next).
Proof.
  intros l. unfold JumpNextOptimizer_optimize. unbind.
  repeat step_token. destruct (_ =? _)%string; [step_pop; lia | exact eq_refl].
Qed.

Lemma shrinks_VoidMove (i : nat) : shrinks (VoidMoveOptimizer_optimize i).
Proof.
  intros l. unfold VoidMoveOptimizer_optimize. unbind.
  repeat step_token. destruct (_ || _)%bool; [step_pop; lia | exact eq_refl].
Qed.

Lemma shrinks_Comment (i : nat) : shrinks (CommentOptimizer_optimize i).
Proof. intros l. unfold CommentOptimizer_optimize. unbind. step_pop. lia. Qed.

Lemma shrinks_pair_optimize (o : Optimizer) (current next : nat) :
  shrinks (pair_optimize o current next).
Proof.
  destruct o; simpl; try (intros l; exact eq_refl).
  - apply shrinks_PushFollowedByPop.
  - apply shrinks_RepeatedAddAndSubtract.
  - apply shrinks_OverwrittenResult.
  - apply shrinks_JumpNext.
Qed.

Lemma shrinks_mono_optimize (o : Optimizer) (i : nat) : shrinks (mono_optimize o i).
Proof.
  destruct o; simpl; try (intros l; exact eq_refl).
  - apply shrinks_VoidMove.
  - apply shrinks_Comment.
Qed.

Lemma shrinks_pair_mono_step (optimizers : list Optimizer) (i : nat) :
  shrinks (pair_mono_step optimizers i).
Proof.
  induction optimizers as [| o optimizers IH]; intros l; simpl; [exact eq_refl |].
  destruct (kind o); try apply IH.
  - unbind. unfold _next.
    destruct (_next_from _ _ _) as [[next |] |]; [| apply IH | exact I].
    step_token. destruct (mnemonic_matches _ _); [| apply IH].
    step_token. destruct (mnemonic_matches _ _); [| apply IH].
    pose proof (shrinks_pair_optimize o i next l) as Hopt.
    destruct (pair_optimize o i next l) as [[[] | e] l1]; [exact Hopt | | exact I].
    subst l1. apply IH.
  - unbind. step_token. destruct (mnemonic_matches _ _); [| apply IH].
    pose proof (shrinks_mono_optimize o i l) as Hopt.
    destruct (mono_optimize o i l) as [[[] | e] l1]; [exact Hopt | | exact I].
    subst l1. apply IH.
Qed.

Lemma pair_mono_loop_terminates (fuel : nat) (optimizers : list Optimizer) (i : nat)
    (l : list Instruction) :
  (length l * length l + (length l - i) < fuel)%nat ->
  exists r l', pair_mono_loop fuel optimizers i l = Some (r, l') /\
               (error_of r = None -> (length l' <= length l)%nat).
Proof.
  revert i l. induction fuel as [| fuel IH]; intros i l Hfuel; [lia |].
  simpl. destruct (Nat.ltb_spec i (length l)) as [Hi | Hi];
    [| eexists _, _; split; [reflexivity | lia]].
  pose proof (shrinks_pair_mono_step optimizers i l) as Hstep.
  destruct (pair_mono_step optimizers i l) as [[[] | e] l1].
  - destruct (IH 0%nat l1) as (r & l' & Hloop & Hlen); [nia |].
    exists r, l'. split; [exact Hloop | intros Hr; specialize (Hlen Hr); lia].
  - subst l1. destruct (IH (S i) l) as (r & l' & Hloop & Hlen); [lia |].
    exists r, l'. split; [exact Hloop | exact Hlen].
  - eexists _, _; split; [reflexivity | discriminate].
Qed.

Lemma remove_unused_shrinks (labels : list (string * nat * nat)) (offset : nat) (rerun : bool)
    (l : list Instruction) :
  match remove_unused labels offset rerun l with
  | (Ok r, l') => (length l' <= length l)%nat /\
                  (r = true -> rerun = true \/ (length l' < length l)%nat) /\
                  (r = false -> rerun = false /\ l' = l)
  | (Raise _, _) => True
  end.
Proof.
  revert offset rerun l. induction labels as [| [[name index] uses] labels IH];
    intros offset rerun l; simpl.
  - split; [lia | split; [tauto | intros ->; split; reflexivity]].
  - destruct (uses =? 0)%nat; [| apply IH].
    unbind. step_pop.
    match goal with H : S (length ?l1) = length l |- _ =>
      specialize (IH (S offset) true l1);
      destruct (remove_unused labels (S offset) true l1) as [[r | e] l2]; [| exact I]
    end.
    destruct IH as (Hle & Hlt & Heq). split; [lia | split; [intros _; right; lia |]].
    intros ->. destruct (Heq eq_refl) as [Hfalse _]. discriminate Hfalse.
Qed.

Lemma LabelOptimizer_shrinks : shrinks LabelOptimizer_optimize.
Proof.
  intros l. unfold LabelOptimizer_optimize. unbind.
  destruct (collect_labels l 0) as [labels |]; [| exact I].
  pose proof (remove_unused_shrinks
                (map (fun '(name, index) => (name, index, count_uses l name)) labels)
                0 false l) as H.
  destruct (remove_unused _ 0 false l) as [[[] | e] l1]; [| | exact I].
  - destruct H as (_ & [Hlt | Hlt] & _); [reflexivity | discriminate Hlt | exact Hlt].
  - destruct H as (_ & _ & Heq). exact (proj2 (Heq eq_refl)).
Qed.

Lemma code_step_shrinks (optimizers : list Optimizer) (rerun : bool) (l : list Instruction) :
  match code_step optimizers rerun l with
  | (Ok r, l') => (length l' <= length l)%nat /\
                  (r = true -> rerun = true \/ (length l' < length l)%nat)
  | (Raise _, _) => True
  end.
Proof.
  revert rerun l. induction optimizers as [| o optimizers IH]; intros rerun l; simpl.
  - split; [lia | tauto].
  - destruct o; try apply IH.
    unbind. pose proof (LabelOptimizer_shrinks l) as Hlabel.
    destruct (LabelOptimizer_optimize l) as [[changed | e] l1]; [| exact I].
    specialize (IH (rerun || changed)%bool l1).
    destruct (code_step optimizers (rerun || changed) l1) as [[r | e] l2]; [| exact I].
    destruct IH as [Hle Hlt]. destruct changed.
    + split; [lia | intros _; right; lia].
    + subst l1. rewrite orb_false_r in Hlt. split; [exact Hle | exact Hlt].
Qed.

Lemma code_loop_terminates (fuel : nat) (optimizers : list Optimizer) (l : list Instruction) :
  (length l < fuel)%nat -> is_Some (code_loop fuel optimizers l).
Proof.
  revert l. induction fuel as [| fuel IH]; intros l Hfuel; [lia |].
  simpl. pose proof (code_step_shrinks optimizers false l) as Hstep.
  destruct (code_step optimizers false l) as [[[] | e] l1]; [| eexists; reflexivity ..].
  destruct Hstep as [_ Hlt]. apply IH.
  destruct (Hlt eq_refl) as [Hfalse | Hlt']; [discriminate Hfalse | lia].
Qed.


Lemma keeps_ret {A : Type} (a : A) : keeps_length (mret a).
Proof. intros st. reflexivity. Qed.

Lemma keeps_bind {A B : Type} (m : PassM A) (f : A -> PassM B) :
  keeps_length m -> (forall a, keeps_length (f a)) -> keeps_length (m ≫= f).
Proof.
  intros Hm Hf st. unfold mbind, StateM_bind. specialize (Hm st).
  destruct (m st) as [[a | e] st']; simpl in *; [rewrite Hf | ]; exact Hm.
Qed.

Lemma keeps_raise {A : Type} (e : PyError) : keeps_length (raise (A := A) e).
Proof. intros st. reflexivity. Qed.

Lemma keeps_lift {A : Type} (r : result A) : keeps_length (lift r).
Proof. intros st. reflexivity. Qed.

Lemma keeps_get : keeps_length get.
Proof. intros st. reflexivity. Qed.

Lemma keeps_set_stack (f : list Value -> list Value) : keeps_length (set_stack f).
Proof. intros st. reflexivity. Qed.

Lemma keeps_set_registers (f : gmap string Value -> gmap string Value) :
  keeps_length (set_registers f).
Proof. intros st. reflexivity. Qed.

Lemma keeps_replace (i : nat) (inst : Instruction) :
  keeps_length (set_pass_insts (fun l => <[i := inst]> l)).
Proof. intros st. simpl. apply length_insert. Qed.

Lemma keeps_set_operand (i j : nat) (t : string) : keeps_length (set_operand i j t).
Proof.
  intros st. unfold set_operand. simpl.
  destruct (insts st !! i); [apply length_insert | reflexivity].
Qed.

Lemma keeps_for_each {A : Type} (xs : list A) (body : A -> PassM unit) :
  (forall x, keeps_length (body x)) -> keeps_length (for_each xs body).
Proof.
  intros Hbody. induction xs as [| x xs IH]; [apply keeps_ret |].
  change (for_each (x :: xs) body) with (body x ;; for_each xs body).
  apply keeps_bind; [apply Hbody | intros _; exact IH].
Qed.

Lemma keeps_operand (i j : nat) : keeps_length (operand i j).
Proof. intros st. reflexivity. Qed.

Lemma keeps_get_reg (name : string) : keeps_length (get_reg name).
Proof. intros st. reflexivity. Qed.

Lemma keeps__set_reg (name : string) (value : Value) : keeps_length (_set_reg name value).
Proof. unfold _set_reg. destruct (negb _); [apply keeps_set_registers | apply keeps_ret]. Qed.

Lemma keeps_pop_or_None : keeps_length pop_or_None.
Proof. intros st. unfold pop_or_None. destruct (last (stack st)); reflexivity. Qed.

Lemma keeps_pop_times (k : Z) : keeps_length (pop_times k).
Proof. intros st. unfold pop_times. destruct (_ <=? _)%nat; reflexivity. Qed.

Lemma keeps_truncate_to (k : Z) : keeps_length (truncate_to k).
Proof. intros st. unfold truncate_to. destruct (_ <? _)%Z; reflexivity. Qed.

Ltac keeps :=
  repeat first
    [ apply keeps_ret | apply keeps_get | apply keeps_operand | apply keeps_get_reg
    | apply keeps__set_reg | apply keeps_set_stack | apply keeps_set_registers
    | apply keeps_replace | apply keeps_set_operand | apply keeps_pop_or_None
    | apply keeps_pop_times | apply keeps_truncate_to | apply keeps_raise | apply keeps_lift
    | apply keeps_for_each; intros
    | apply keeps_bind; [| intros]
    | match goal with
      | |- keeps_length (if ?b then _ else _) => destruct b
      | |- keeps_length (match ?x with _ => _ end) => destruct x
      end ].

Lemma keeps_stack_optimize (o : Optimizer) (i : nat) : keeps_length (stack_optimize o i).
Proof.
  destruct o; simpl; try apply keeps_ret.
  - intros st. unfold PushStackOptimizer_optimize.
    destruct (_ : result Z) as [n | e]; revert st; keeps.
  - unfold PopStackOptimizer_optimize. keeps.
  - unfold GeneralStackOptimizer_optimize, bad_modification. keeps.
  - unfold StackVerificationOptimizer_optimize. keeps.
Qed.

Lemma keeps_stack_dispatch (optimizers : list Optimizer) (i : nat) :
  keeps_length (stack_dispatch optimizers i).
Proof.
  induction optimizers as [| o optimizers IH]; simpl; [apply keeps_ret |].
  destruct (kind o); try exact IH.
  apply keeps_bind; [apply keeps_operand |]. intros op.
  destruct (mnemonic_matches _ _); [apply keeps_stack_optimize | exact IH].
Qed.

Lemma keeps_stack_pass (optimizers : list Optimizer) : keeps_length (stack_pass optimizers).
Proof.
  unfold stack_pass. apply keeps_bind; [apply keeps_get |]. intros st.
  apply keeps_for_each. intros i. apply keeps_stack_dispatch.
Qed.

Lemma optimize_insts_terminates (optimizers : list Optimizer) (l : list Instruction) :
  is_Some (optimize_insts (commit_fuel (length l)) optimizers l).
Proof.
  unfold optimize_insts.
  pose proof (keeps_stack_pass optimizers (initial_pass l)) as Hlen.
  destruct (stack_pass optimizers _) as [[[] | e] st]; simpl in Hlen; [| eexists; reflexivity].
  destruct (pair_mono_loop_terminates (commit_fuel (length l)) optimizers 0 (insts st))
    as (r & l' & Hloop & Hle); [unfold commit_fuel; rewrite Hlen; lia |].
  rewrite Hloop. destruct r as [[] | e]; [| eexists; reflexivity].
  apply code_loop_terminates. specialize (Hle eq_refl). unfold commit_fuel. nia.
Qed.

(** X1.  [commit] always returns: the loops that start over after a rewrite
    come to an end, for every list of instructions and every list of
    optimizers, and [commit] either writes its lines or raises. *)
Theorem commit_terminates (e : URCLEmitter) (stream : list string) :
  is_Some (commit e stream).
Proof.
  unfold commit. destruct (_optimize e).
  - destruct (optimize_insts_terminates (_optimizers e) (_insts e)) as [[[[] | err] l] ->].
    + destruct (write_insts l stream). eexists; reflexivity.
    + eexists; reflexivity.
  - destruct (write_insts (_insts e) stream). eexists; reflexivity.
Qed.

(** * Further properties of the code *)

(** ** What [commit] writes *)

Lemma write_insts_lines (l : list Instruction) (stream stream' : list string) :
  write_insts l stream = (Ok tt, stream') -> stream' = (stream ++ lines_of l)%list.
Proof.
  revert stream. induction l as [| inst l IH]; intros stream; simpl.
  - intros H. injection H as <-. unfold lines_of. simpl. rewrite app_nil_r. reflexivity.
  - unbind. unfold tok. destruct inst as [| op rest]; [discriminate |]. simpl.
    unfold lines_of. simpl. destruct (negb _); simpl.
    + unfold modify. intros H. apply IH in H. rewrite H, <- app_assoc. reflexivity.
    + apply IH.
Qed.

Lemma write_insts_nonempty (l : list Instruction) (stream : list string) :
  Forall (fun inst => inst <> []) l -> write_insts l stream = (Ok tt, (stream ++ lines_of l)%list).
Proof.
  intros Hl. revert stream. induction Hl as [| inst l Hinst _ IH]; intros stream; simpl.
  - unfold lines_of. simpl. rewrite app_nil_r. reflexivity.
  - unbind. unfold tok. destruct inst as [| op rest]; [contradiction |]. simpl.
    unfold lines_of. simpl. destruct (negb _); simpl.
    + unfold modify. rewrite IH, <- app_assoc. reflexivity.
    + apply IH.
Qed.

Lemma code_loop_length (fuel : nat) (optimizers : list Optimizer) (l l' : list Instruction) :
  code_loop fuel optimizers l = Some (Ok tt, l') -> (length l' <= length l)%nat.
Proof.
  revert l. induction fuel as [| fuel IH]; intros l; simpl; [discriminate |].
  pose proof (code_step_shrinks optimizers false l) as Hstep.
  destruct (code_step optimizers false l) as [[[] | e] l1]; [| | discriminate].
  - intros H. apply IH in H. destruct Hstep as [Hle _]. lia.
  - intros H. injection H as <-. apply Hstep.
Qed.

Lemma optimize_insts_length (optimizers : list Optimizer) (l l' : list Instruction) :
  optimize_insts (commit_fuel (length l)) optimizers l = Some (Ok tt, l') ->
  (length l' <= length l)%nat.
Proof.
  unfold optimize_insts.
  pose proof (keeps_stack_pass optimizers (initial_pass l)) as Hlen.
  destruct (stack_pass optimizers _) as [[[] | e] st]; simpl in Hlen; [| discriminate].
  destruct (pair_mono_loop_terminates (commit_fuel (length l)) optimizers 0 (insts st))
    as (r & l1 & Hloop & Hle); [unfold commit_fuel; rewrite Hlen; lia |].
  rewrite Hloop. destruct r as [[] | e]; [| discriminate].
  intros H. apply code_loop_length in H. specialize (Hle eq_refl). lia.
Qed.

(** X3.  When [commit] returns, the emitter holds the list of instructions
    that was written, which is never longer than the list that was emitted,
    and the stream has received one line for each of its instructions that
    is not a [nop]; the settings of the emitter are as they were. *)
Theorem commit_writes_what_it_keeps (e e' : URCLEmitter) (stream stream' : list string) :
  commit e stream = Some (Ok tt, e', stream') ->
  stream' = (stream ++ lines_of (_insts e'))%list /\
  (length (_insts e') <= length (_insts e))%nat /\
  e' = set_insts (_insts e') e.
Proof.
  unfold commit. destruct (_optimize e).
  - destruct (optimize_insts _ (_optimizers e) (_insts e)) as [[[[] | err] l] |] eqn:Hopt;
      [| discriminate ..].
    destruct (write_insts l stream) as [r s] eqn:Hwrite. intros H. injection H as -> <- <-.
    apply write_insts_lines in Hwrite. apply optimize_insts_length in Hopt.
    simpl. auto.
  - destruct (write_insts (_insts e) stream) as [r s] eqn:Hwrite.
    intros H. injection H as -> <- <-. apply write_insts_lines in Hwrite. simpl. auto.
Qed.

Lemma commit_writes_what_it_keeps_witness :
  let e := emitter_with [["psh"; "R1"]; ["nop"]; ["ret"]] in
  let out := ["psh R1" ++ newline; "ret" ++ newline] in
  commit e [] = Some (Ok tt, e, out) /\
  out = ([] ++ lines_of (_insts e))%list /\
  (length (_insts e) <= length (_insts e))%nat /\
  e = set_insts (_insts e) e.
Proof.
  intros e out.
  assert (H : commit e [] = Some (Ok tt, e, out)) by (vm_compute; reflexivity).
  split; [exact H | exact (commit_writes_what_it_keeps e e [] out H)].
Defined.

(** X4.  Without optimization [commit] changes nothing in the emitter and
    writes the instructions as they were emitted, leaving out every [nop]. *)
Theorem commit_unoptimized (e : URCLEmitter) (stream : list string) :
  _optimize e = false ->
  Forall (fun inst => inst <> []) (_insts e) ->
  commit e stream = Some (Ok tt, e, (stream ++ lines_of (_insts e))%list).
Proof.
  intros Hopt Hl. unfold commit. rewrite Hopt, (write_insts_nonempty _ _ Hl).
  destruct e. reflexivity.
Qed.

Lemma commit_unoptimized_witness :
  let e := mkURCLEmitter 2 0 [[".___urcl___0"]; ["psh"; "1"]; ["nop"]] false false
             default_optimizers in
  _optimize e = false /\
  Forall (fun inst => inst <> []) (_insts e) /\
  commit e [] = Some (Ok tt, e, [".___urcl___0" ++ newline; "psh 1" ++ newline]).
Proof.
  intros e.
  assert (Hl : Forall (fun inst : Instruction => inst <> []) (_insts e))
    by (repeat constructor; discriminate).
  split; [reflexivity | split; [exact Hl |]].
  exact (commit_unoptimized e [] eq_refl Hl).
Defined.

(** ** Immediates and label names *)

Lemma to_uint_leading (p : positive) : leading_digit (Pos.to_uint p).
Proof.
  pose proof (DecimalPos.Unsigned.to_of (Pos.to_uint p)) as H.
  rewrite DecimalPos.Unsigned.of_to in H. change (N.to_uint (N.pos p)) with (Pos.to_uint p) in H.
  pose proof (Unsigned.to_uint_nonzero p) as Hnz.
  unfold Decimal.unorm in H.
  pose proof (nzhead_nonzero (Pos.to_uint p)) as Hhead.
  destruct (Decimal.nzhead (Pos.to_uint p)) eqn:E; rewrite H; try exact I.
  - congruence.
  - exfalso. eapply Hhead. reflexivity.
Qed.

Lemma string_of_uint_digits (d : Decimal.uint) :
  Py.all_chars Py.is_digit (NilEmpty.string_of_uint d) = true.
Proof. induction d; simpl; try rewrite IHd; reflexivity. Qed.

Lemma int_digits_uint (d : Decimal.uint) (acc : positive) :
  Py.int_digits 10 (NilEmpty.string_of_uint d) true (Z.pos acc) =
  Some (Z.pos (Pos.of_uint_acc d acc)).
Proof.
  revert acc. induction d; intros acc; [reflexivity | ..];
    cbn [NilEmpty.string_of_uint Py.int_digits]; simpl; rewrite <- IHd; f_equal; lia.
Qed.

Lemma int_digits_leading (d : Decimal.uint) :
  leading_digit d ->
  Py.int_digits 10 (NilEmpty.string_of_uint d) false 0 = Some (Z.of_N (Pos.of_uint d)).
Proof.
  destruct d; try contradiction; intros _;
    cbn [NilEmpty.string_of_uint Py.int_digits]; simpl; apply int_digits_uint.
Qed.

Lemma rstrip_digits (s : string) :
  Py.all_chars Py.is_digit s = true -> Py.int_rstrip s = s.
Proof.
  induction s as [| c s IH]; [reflexivity |]. simpl. intros H.
  apply andb_true_iff in H as [Hc Hs]. rewrite (IH Hs).
  destruct s; [| reflexivity].
  replace (Py.is_int_space c) with false; [reflexivity |].
  unfold Py.is_digit, Py.is_int_space, Py.in_range in *.
  apply andb_true_iff in Hc as [H1 H2]. apply Nat.leb_le in H1, H2.
  symmetry. apply orb_false_iff. split.
  - apply andb_false_iff. right. apply Nat.leb_gt. lia.
  - apply Nat.eqb_neq. lia.
Qed.

Lemma int_prefix_10 (s : string) : Py.int_prefix 10 s = s.
Proof. reflexivity. Qed.

Lemma digit_value_bounds (c : ascii) (d : Z) : Py.digit_value c = Some d -> 0 <= d.
Proof.
  unfold Py.digit_value. intros H.
  repeat match type of H with (if ?b then _ else _) = _ => destruct b end;
    try discriminate; injection H as <-; lia.
Qed.

(** The value of a literal is at least what has been read times ten to the
    number of the digits that follow. *)
Lemma int_digits_lower (s : string) (prev : bool) (acc v : Z) :
  0 <= acc -> Py.int_digits 10 s prev acc = Some v ->
  acc * 10 ^ Z.of_nat (Py.digit_count s) <= v.
Proof.
  revert prev acc. induction s as [| c s IH]; intros prev acc Hacc; cbn [Py.int_digits Py.digit_count].
  - destruct prev; [| discriminate]. intros H. injection H as <-.
    change (Z.of_nat 0) with 0. rewrite Z.pow_0_r. lia.
  - destruct (Ascii.eqb c "_").
    + destruct prev; [apply IH; exact Hacc | discriminate].
    + destruct (Py.digit_value c) as [d |] eqn:Hd; [| discriminate].
      destruct (d <? 10); [| discriminate]. intros H.
      pose proof (digit_value_bounds c d Hd) as Hd0.
      apply IH in H; [| lia].
      rewrite Nat2Z.inj_succ, Z.pow_succ_r by lia.
      assert (Hpow : 0 <= 10 ^ Z.of_nat (Py.digit_count s)) by (apply Z.pow_nonneg; lia).
      nia.
Qed.

(** The numeral of a positive number below ten to the [m] has at most [m]
    digits. *)
Lemma to_uint_digit_count (p : positive) (m : Z) :
  0 <= m -> Z.pos p < 10 ^ m ->
  Z.of_nat (Py.digit_count (NilEmpty.string_of_uint (Pos.to_uint p))) <= m.
Proof.
  intros Hm Hp. pose proof (to_uint_leading p) as Hlead.
  pose proof (int_digits_leading _ Hlead) as Hdigits.
  rewrite DecimalPos.Unsigned.of_to in Hdigits. change (Z.of_N (N.pos p)) with (Z.pos p) in Hdigits.
  assert (Hrest : forall (c : ascii) (s : string) (k : Z),
            Ascii.eqb c "_" = false -> 1 <= k ->
            Py.int_digits 10 s true k = Some (Z.pos p) ->
            Z.of_nat (Py.digit_count (String c s)) <= m).
  { intros c s k Hc Hk H. cbn [Py.digit_count]. rewrite Hc.
    apply int_digits_lower in H; [| lia].
    destruct (Z_lt_le_dec (Z.of_nat (Py.digit_count s)) m) as [Hlt | Hge]; [lia |].
    exfalso.
    assert (Hmono : 10 ^ m <= 10 ^ Z.of_nat (Py.digit_count s))
      by (apply Z.pow_le_mono_r; lia).
    assert (Hpos : 0 < 10 ^ Z.of_nat (Py.digit_count s)) by (apply Z.pow_pos_nonneg; lia).
    nia. }
  destruct (Pos.to_uint p) as [| d | d | d | d | d | d | d | d | d | d]; try contradiction;
    cbn [NilEmpty.string_of_uint Py.int_digits] in Hdigits |- *; simpl in Hdigits;
    eapply Hrest; try exact Hdigits; try reflexivity; lia.
Qed.

Lemma int_uint (d : Decimal.uint) :
  leading_digit d ->
  Z.of_nat (Py.digit_count (NilEmpty.string_of_uint d)) <= Py.max_str_digits ->
  Py.int (NilEmpty.string_of_uint d) 10 = Ok (Z.of_N (Pos.of_uint d)) /\
  Py.int (String "-" (NilEmpty.string_of_uint d)) 10 = Ok (- Z.of_N (Pos.of_uint d)).
Proof.
  intros Hd Hcount. pose proof (int_digits_leading d Hd) as Hdigits.
  pose proof (rstrip_digits _ (string_of_uint_digits d)) as Hstrip.
  apply Z.ltb_ge in Hcount.
  set (s := NilEmpty.string_of_uint d) in *.
  assert (Hl : Py.int_lstrip s = s) by (destruct d; try contradiction; reflexivity).
  assert (Hm : Py.int_rstrip (String "-" s) = String "-" s).
  { cbn [Py.int_rstrip]. rewrite Hstrip. destruct d; try contradiction; reflexivity. }
  assert (Hs : Py.startswith s "-" = false /\ Py.startswith s "+" = false).
  { destruct d; try contradiction; split; reflexivity. }
  destruct Hs as [Hs1 Hs2].
  unfold Py.int, Py.int_strip. split.
  - rewrite Hl, Hstrip, Hs1, Hs2. cbn [orb]. cbv zeta. rewrite int_prefix_10, Hdigits, Hcount.
    reflexivity.
  - change (Py.int_lstrip (String "-" s)) with (String "-" s). rewrite Hm.
    replace (Py.startswith (String "-" s) "-") with true
      by (subst s; destruct d; try contradiction; reflexivity).
    cbn [orb]. cbv zeta.
    change (Py.drop 1 (String "-" s)) with s. rewrite int_prefix_10, Hdigits, Hcount.
    reflexivity.
Qed.

Lemma str_pos (p : positive) :
  Py.str (Z.pos p) = NilEmpty.string_of_uint (Pos.to_uint p) /\
  Py.str (Z.neg p) = String "-" (NilEmpty.string_of_uint (Pos.to_uint p)).
Proof.
  pose proof (to_uint_leading p) as H. unfold Py.str. simpl.
  destruct (Pos.to_uint p); try contradiction; split; reflexivity.
Qed.

Lemma max_str_digits_nonneg : 0 <= Py.max_str_digits.
Proof. discriminate. Qed.

Lemma int_pos (p : positive) :
  Z.pos p < 10 ^ Py.max_str_digits ->
  Py.int (NilEmpty.string_of_uint (Pos.to_uint p)) 10 = Ok (Z.pos p) /\
  Py.int (String "-" (NilEmpty.string_of_uint (Pos.to_uint p))) 10 = Ok (Z.neg p).
Proof.
  intros Hp.
  pose proof (int_uint _ (to_uint_leading p)
                (to_uint_digit_count p _ max_str_digits_nonneg Hp)) as H.
  rewrite DecimalPos.Unsigned.of_to in H. exact H.
Qed.

Lemma int_str (n : Z) : Z.abs n < 10 ^ Py.max_str_digits -> Py.int (Py.str n) 10 = Ok n.
Proof.
  destruct n as [| p | p]; [reflexivity | ..]; intros Hn;
    destruct (str_pos p) as [Hpos Hneg]; destruct (int_pos p Hn) as [Hint Hint'].
  - rewrite Hpos. exact Hint.
  - rewrite Hneg. exact Hint'.
Qed.

Lemma upper_digits (s : string) : Py.all_chars Py.is_digit s = true -> Py.upper s = s.
Proof.
  induction s as [| c s IH]; [reflexivity |]. simpl. intros H.
  apply andb_true_iff in H as [Hc Hs]. rewrite (IH Hs). f_equal.
  unfold Py.upper_char. replace (Py.is_lower c) with false; [reflexivity |].
  unfold Py.is_digit, Py.is_lower, Py.in_range in *.
  apply andb_true_iff in Hc as [H1 H2]. apply Nat.leb_le in H1, H2.
  symmetry. apply andb_false_iff. left. apply Nat.leb_gt. lia.
Qed.

Lemma star_loop_S (step : nat -> string -> (nat -> string -> option string) -> option string)
    (k : nat -> string -> option string) (fuel pos : nat) (s : string) :
  star_loop step k (S fuel) pos s =
  match step pos s (fun pos' s' => if Nat.ltb pos pos' then star_loop step k fuel pos' s'
                                   else None) with
  | Some rest => Some rest
  | None => k pos s
  end.
Proof. reflexivity. Qed.

Lemma exec_Chr (p : ascii -> bool) (pos : nat) (s : string)
    (k : nat -> string -> option string) :
  exec (Chr p) pos s k =
  match s with
  | String c s' => if p c then k (S pos) s' else None
  | EmptyString => None
  end.
Proof. reflexivity. Qed.

Lemma star_loop_all (p : ascii -> bool)
    (step : nat -> string -> (nat -> string -> option string) -> option string)
    (k : nat -> string -> option string) (x : string) (s : string) :
  (forall pos s k, step pos s k = exec (Chr p) pos s k) ->
  forall (fuel pos : nat),
  Py.all_chars p s = true -> (String.length s < fuel)%nat ->
  k (pos + String.length s)%nat EmptyString = Some x ->
  star_loop step k fuel pos s = Some x.
Proof.
  intros Hstep.
  induction s as [| c s IH]; intros fuel pos Hall Hfuel Hk;
    (destruct fuel as [| fuel]; [simpl in Hfuel; lia |]);
    rewrite star_loop_S, Hstep, exec_Chr.
  - rewrite Nat.add_0_r in Hk. exact Hk.
  - simpl in Hall. apply andb_true_iff in Hall as [Hc Hs]. rewrite Hc.
    replace (pos <? S pos)%nat with true by (symmetry; apply Nat.ltb_lt; lia).
    rewrite (IH fuel (S pos)); [reflexivity | exact Hs | simpl in Hfuel; lia |].
    rewrite <- Hk. f_equal. simpl. lia.
Qed.

Lemma decimal_matches (d : Decimal.uint) (pos : nat) :
  leading_digit d ->
  exec (Seq (Grp
             (Alt (Grp (Seq (Lit "0X") (Plus (OneOf [rng "0" "9"; rng "A" "F"]))))
             (Alt (Grp (Seq (Lit "0O") (Plus (OneOf [rng "0" "7"]))))
             (Alt (Grp (Seq (Lit "0B") (Plus (OneOf [one "0"; one "1"]))))
             (Alt (Grp (Seq (OneOf [rng "1" "9"]) (Plus (OneOf [rng "0" "9"]))))
                  (Grp (OneOf [rng "0" "9"])))))))
          Eol) pos (NilEmpty.string_of_uint d) (fun _ rest => Some rest) = Some EmptyString.
Proof.
  intros Hd. destruct d as [| d | d | d | d | d | d | d | d | d | d]; try contradiction.
  all: cbn [NilEmpty.string_of_uint].
  all: pose proof (string_of_uint_digits d) as Hdigits.
  all: destruct (NilEmpty.string_of_uint d) as [| c r]; [reflexivity |].
  all: simpl in Hdigits; apply andb_true_iff in Hdigits as [Hc Hr].
  all: cbn -[star_loop String.length].
  all: change (rng "0" "9" c) with (Py.is_digit c); rewrite Hc; cbn [orb].
  all: erewrite (star_loop_all (fun c => (rng "0" "9" c || false)%bool));
    [reflexivity | reflexivity | | apply Nat.lt_succ_diag_r | reflexivity].
  all: refine (all_chars_weaken _ _ _ _ Hr); intros c0 Hc0;
    change (rng "0" "9" c0) with (Py.is_digit c0); rewrite Hc0; reflexivity.
Qed.

Lemma parse_value_regex_str (n : Z) : matches parse_value_regex (Py.upper (Py.str n)) = true.
Proof.
  destruct n as [| p | p]; [reflexivity | ..];
    destruct (str_pos p) as [Hpos Hneg];
    pose proof (upper_digits _ (string_of_uint_digits (Pos.to_uint p))) as Hupper;
    pose proof (to_uint_leading p) as Hlead.
  - rewrite Hpos, Hupper. unfold matches, match_at, parse_value_regex.
    pose proof (decimal_matches _ 0 Hlead) as H.
    destruct (Pos.to_uint p); try contradiction;
      cbn [exec Opt C Nat.eqb NilEmpty.string_of_uint] in *; simpl Ascii.eqb; cbv iota;
      rewrite H; reflexivity.
  - rewrite Hneg. cbn [Py.upper]. rewrite Hupper.
    unfold matches, match_at, parse_value_regex.
    pose proof (decimal_matches _ 1 Hlead) as H.
    cbn [exec Opt C Nat.eqb] in *. simpl Ascii.eqb. cbv iota.
    change (Py.upper_char "-") with "-"%char. simpl Ascii.eqb. cbv iota.
    rewrite H. reflexivity.
Qed.

(** X5.  Within the limit of the conversions, [str] and [parse_value] are
    inverse: for an integer of at most [max_str_digits] digits, the text that
    [str] writes is read back as the same integer, by the pattern of
    [parse_value] and by the [int] of [get_constant_operand]. *)
Theorem parse_value_str (n : Z) :
  Z.abs n < 10 ^ Py.max_str_digits ->
  parse_value (Py.str n) = Ok n /\ get_constant_operand (Py.str n) = Some n.
Proof.
  intros Hn.
  split; [| unfold get_constant_operand; rewrite (int_str n Hn); reflexivity].
  unfold parse_value. rewrite parse_value_regex_str. cbn [negb].
  destruct n as [| p | p]; [reflexivity | ..];
    destruct (str_pos p) as [Hpos Hneg];
    destruct (int_pos p Hn) as [Hint Hint'];
    pose proof (to_uint_leading p) as Hlead.
  - rewrite Hpos.
    destruct (Pos.to_uint p); try contradiction; cbn [NilEmpty.string_of_uint] in *.
    all: cbn -[Py.int]; rewrite Hint; reflexivity.
  - rewrite Hneg.
    destruct (Pos.to_uint p); try contradiction; cbn [NilEmpty.string_of_uint] in *.
    all: cbn -[Py.int]; rewrite Hint; reflexivity.
Qed.

Lemma parse_value_str_witness :
  Z.abs (-4096) < 10 ^ Py.max_str_digits /\
  parse_value "-4096" = Ok (-4096) /\ get_constant_operand "-4096" = Some (-4096).
Proof.
  assert (H : Z.abs (-4096) < 10 ^ Py.max_str_digits) by (vm_compute; reflexivity).
  split; [exact H | exact (parse_value_str (-4096) H)].
Defined.

(** The numeral of an integer, read without a limit. *)
Lemma str_digits (n : Z) :
  (if Py.startswith (Py.str n) "-"
   then option_map Z.opp (Py.int_digits 10 (Py.drop 1 (Py.str n)) false 0)
   else Py.int_digits 10 (Py.str n) false 0) = Some n.
Proof.
  destruct n as [| p | p]; [reflexivity | ..];
    destruct (str_pos p) as [Hpos Hneg]; pose proof (to_uint_leading p) as Hlead;
    pose proof (int_digits_leading _ Hlead) as Hdigits;
    rewrite DecimalPos.Unsigned.of_to in Hdigits.
  - rewrite Hpos.
    replace (Py.startswith (NilEmpty.string_of_uint (Pos.to_uint p)) "-") with false
      by (destruct (Pos.to_uint p); try contradiction; reflexivity).
    exact Hdigits.
  - rewrite Hneg.
    replace (Py.startswith (String "-" (NilEmpty.string_of_uint (Pos.to_uint p))) "-")
      with true by (destruct (Pos.to_uint p); try contradiction; reflexivity).
    change (Py.drop 1 (String "-" (NilEmpty.string_of_uint (Pos.to_uint p))))
      with (NilEmpty.string_of_uint (Pos.to_uint p)).
    rewrite Hdigits. reflexivity.
Qed.

Lemma str_inj (a b : Z) : Py.str a = Py.str b -> a = b.
Proof.
  intros H. pose proof (str_digits a) as Ha. pose proof (str_digits b) as Hb.
  rewrite H in Ha. rewrite Ha in Hb. injection Hb as ->. reflexivity.
Qed.

Lemma str_head (n : Z) :
  exists c rest, Py.str n = String c rest /\ (Py.is_digit c = true \/ c = "-"%char).
Proof.
  destruct n as [| p | p]; [exists "0"%char, EmptyString; auto | ..];
    destruct (str_pos p) as [Hpos Hneg]; pose proof (to_uint_leading p) as Hlead.
  - rewrite Hpos. destruct (Pos.to_uint p); try contradiction;
      cbn [NilEmpty.string_of_uint]; eexists _, _; split; try reflexivity; left; reflexivity.
  - rewrite Hneg. eexists _, _; split; [reflexivity | right; reflexivity].
Qed.

(** X6.  The names of labels never collide: [_target] gives different names
    to different instruction numbers and to different internal labels, and
    no instruction label is an internal label. *)
Theorem target_injective (a b : Z) (internal_a internal_b : bool) :
  _target (TInt a) internal_a = _target (TInt b) internal_b ->
  a = b /\ internal_a = internal_b.
Proof.
  unfold _target. destruct internal_a, internal_b; intros H.
  - split; [| reflexivity]. apply str_inj. repeat (rewrite append_cons in H; injection H as H).
    exact H.
  - exfalso. repeat (rewrite append_cons in H; injection H as H).
    destruct (str_head b) as (c & rest & Hb & Hc). rewrite Hb in H.
    rewrite append_cons in H. injection H as Hi _. subst c.
    destruct Hc as [Hc | Hc]; discriminate Hc.
  - exfalso. repeat (rewrite append_cons in H; injection H as H).
    destruct (str_head a) as (c & rest & Ha & Hc). rewrite Ha in H.
    rewrite append_cons in H. injection H as Hi _. subst c.
    destruct Hc as [Hc | Hc]; discriminate Hc.
  - split; [| reflexivity]. apply str_inj. repeat (rewrite append_cons in H; injection H as H).
    exact H.
Qed.

Lemma target_injective_witness :
  _target (TInt 3) true = _target (TInt 3) true /\ (3 = 3 /\ true = true).
Proof. split; [reflexivity | exact (target_injective 3 3 true true eq_refl)]. Defined.

(** ** The frame and the variables of a callable *)

Lemma Local_offset_loop (self : Local) (c : Callable) (k : nat) (locals : list Local)
    (offset : Z) :
  drop k (Callable_locals c) = locals ->
  (fix loop (indices : list Z) (offset : Z) : result Z :=
     match indices with
     | [] => Ok offset
     | i :: indices' =>
         local ← Callable_GetLocal c i;
         size ← TypeRef_GetSize (Local_GetType local);
         if (Local_oid local =? Local_oid self)%nat then Ok (offset + size)
         else loop indices' (offset + size)
     end) (map Z.of_nat (seq k (length locals))) offset = offset_upto self locals offset.
Proof.
  revert k offset. induction locals as [| l locals IH]; intros k offset Hdrop; [reflexivity |].
  assert (Hl : Callable_locals c !! k = Some l).
  { rewrite <- (Nat.add_0_r k), <- lookup_drop, Hdrop. reflexivity. }
  cbn [length seq map offset_upto]. rewrite (GetLocal_lookup c k l Hl). run.
  destruct (TypeRef_GetSize (Local_GetType l)) as [s | err]; [| reflexivity]. run.
  destruct (_ =? _)%nat; [reflexivity |].
  apply IH. replace (S k) with (k + 1)%nat by lia. rewrite <- drop_drop, Hdrop. reflexivity.
Qed.

Lemma Local_offset_upto (self : Local) (c : Callable) :
  Local_offset self c = offset_upto self (Callable_locals c) 0.
Proof.
  unfold Local_offset. rewrite GetLocalCount_length, range_0.
  apply (Local_offset_loop self c 0). reflexivity.
Qed.

Lemma offset_upto_found (self : Local) (locals : list Local) (sizes : list Z) (i : nat)
    (offset : Z) :
  Forall2 (fun l s => TypeRef_GetSize (Local_GetType l) = Ok s) locals sizes ->
  locals !! i = Some self ->
  (forall j l, (j < i)%nat -> locals !! j = Some l -> Local_oid l <> Local_oid self) ->
  offset_upto self locals offset = Ok (offset + sum (take (S i) sizes)).
Proof.
  intros Hsizes. revert i offset.
  induction Hsizes as [| l s locals sizes Hl _ IH]; intros i offset Hi Hfirst;
    [discriminate Hi |].
  cbn [offset_upto]. rewrite Hl. run. destruct i as [| i]; simpl in Hi.
  - injection Hi as ->. rewrite Nat.eqb_refl. simpl. f_equal. lia.
  - destruct (Nat.eqb_spec (Local_oid l) (Local_oid self)) as [Heq | _].
    + exfalso. apply (Hfirst 0%nat l); [lia | reflexivity | exact Heq].
    + rewrite (IH i (offset + s) Hi).
      * f_equal. cbn [take sum fold_right]. unfold sum. simpl. lia.
      * intros j l' Hj Hl'. apply (Hfirst (S j) l'); [lia | exact Hl'].
Qed.

(** X11.  The locals of a callable lie below the base pointer in the order
    of their declarations: the offset that [Local.EmitLoadAddress] computes
    for a local is the sum of the sizes of the locals up to and including
    it, and that is what it pushes and subtracts from the base pointer. *)
Theorem local_offsets (c : Callable) (sizes : list Z) (i : nat) (self : Local) :
  local_sizes c sizes ->
  Callable_locals c !! i = Some self ->
  (forall j l, (j < i)%nat -> Callable_locals c !! j = Some l ->
               Local_oid l <> Local_oid self) ->
  Local_offset self c = Ok (sum (take (S i) sizes)) /\
  forall e, Local_EmitLoadAddress self c e = (ld_bp ;; push (sum (take (S i) sizes)) ;; sub) e.
Proof.
  intros Hsizes Hi Hfirst.
  assert (Hoffset : Local_offset self c = Ok (sum (take (S i) sizes))).
  { rewrite Local_offset_upto, (offset_upto_found self _ sizes i 0 Hsizes Hi Hfirst).
    reflexivity. }
  split; [exact Hoffset |].
  intros e. unfold Local_EmitLoadAddress. rewrite Hoffset. reflexivity.
Qed.

Lemma offset_upto_total (self : Local) (locals : list Local) (offset : Z) :
  Forall (fun l => Local_oid l <> Local_oid self) (removelast locals) ->
  offset_upto self locals offset =
  fold_result (fun result local =>
                 size ← TypeRef_GetSize (Local_GetType local); mret (result + size))
    locals offset.
Proof.
  revert offset. induction locals as [| l locals IH]; intros offset Hother; [reflexivity |].
  cbn [offset_upto fold_result].
  destruct (TypeRef_GetSize (Local_GetType l)) as [s | err]; [| reflexivity]. run.
  destruct locals as [| l' locals].
  - destruct (_ =? _)%nat; reflexivity.
  - cbn [removelast] in Hother. inversion Hother as [| ? ? Hl Hrest]; subst.
    destruct (Nat.eqb_spec (Local_oid l) (Local_oid self)) as [Heq | _]; [contradiction |].
    apply IH, Hrest.
Qed.

Lemma fold_add_argument_size (c : Callable) (k : nat) (args : list Parameter_) (acc : Z) :
  drop k (Callable_namedArgs c) = args ->
  fold_left (add_argument_size c) (map Z.of_nat (seq k (length args))) (Ok acc) =
  (sizes ← comprehension (fun param => TypeRef_GetSize (Parameter_GetType param)) args;
   mret (acc + sum sizes)).
Proof.
  revert k acc. induction args as [| p args IH]; intros k acc Hdrop.
  - simpl. f_equal. unfold sum. simpl. lia.
  - assert (Hp : Callable_namedArgs c !! k = Some p).
    { rewrite <- (Nat.add_0_r k), <- lookup_drop, Hdrop. reflexivity. }
    cbn [length seq map fold_left comprehension]. unfold add_argument_size at 2. run.
    rewrite (GetArgument_lookup c k p Hp). run.
    destruct (TypeRef_GetSize (Parameter_GetType p)) as [s | err].
    + run. rewrite (IH (S k) (acc + s)).
      * destruct (comprehension _ args) as [sizes | err]; [| reflexivity].
        run. f_equal. unfold sum. simpl. lia.
      * replace (S k) with (k + 1)%nat by lia. rewrite <- drop_drop, Hdrop. reflexivity.
    + run. clear. induction (map Z.of_nat _) as [| i l IHl]; [reflexivity | exact IHl].
Qed.

(** X12.  The two ends of the frame are the sizes that the callable reports,
    also when a type is not resolved and they raise: the return slot lies at
    [GetArgumentsSize() + 2], and a local that is the last one of the
    callable, or none of its locals, gets [GetLocalsSize()] for offset. *)
Theorem frame_ends (c : Callable) :
  ReturnVariable_offset c = (size ← Callable_GetArgumentsSize c; mret (2 + size)) /\
  forall self,
    Forall (fun l => Local_oid l <> Local_oid self) (removelast (Callable_locals c)) ->
    Local_offset self c = Callable_GetLocalsSize c.
Proof.
  split.
  - unfold ReturnVariable_offset. rewrite GetArgumentCount_length, range_0.
    rewrite (fold_add_argument_size c 0 (Callable_namedArgs c) 2 eq_refl).
    destruct c; try reflexivity; simpl;
      destruct (comprehension _ _) as [sizes | err]; reflexivity.
  - intros self Hother. rewrite Local_offset_upto, (offset_upto_total _ _ _ Hother).
    destruct c; reflexivity.
Qed.

Lemma first_named_found {A : Type} (get : Z -> result A) (name_of : A -> string)
    (first : string) (xs : list A) (i : nat) (x : A) (n : nat) :
  (forall j y, xs !! j = Some y -> get (Z.of_nat j) = Ok y) ->
  xs !! i = Some x -> name_of x = first ->
  (forall j y, (j < i)%nat -> xs !! j = Some y -> name_of y <> first) ->
  (i < n)%nat ->
  first_named get name_of first (map Z.of_nat (seq 0 n)) = Ok (Some x).
Proof.
  intros Hget Hx Hname Hfirst Hn.
  assert (H : forall k m, (k <= i)%nat -> (i < k + m)%nat ->
            first_named get name_of first (map Z.of_nat (seq k m)) = Ok (Some x)).
  { intros k m. revert k. induction m as [| m IH]; intros k Hk Hm; [lia |].
    cbn [seq map first_named].
    destruct (Nat.eq_dec k i) as [-> | Hne].
    - rewrite (Hget i x Hx). run. rewrite Hname, String.eqb_refl. reflexivity.
    - destruct (lookup_lt_is_Some_2 xs k) as [y Hy].
      { pose proof (lookup_lt_Some _ _ _ Hx). lia. }
      rewrite (Hget k y Hy). run.
      destruct (String.eqb_spec (name_of y) first) as [Heq | _].
      + exfalso. apply (Hfirst k y); [lia | exact Hy | exact Heq].
      + apply IH; lia. }
  apply H; lia.
Qed.

(** X13.  For a name without dots, [Callable.GetVariable] returns the first
    local of that name, whatever the parameters are, so that a local hides a
    parameter of the same name; when no local has the name it returns the
    first parameter of that name. *)
Theorem GetVariable_finds (c : Callable) (name : string) :
  Py.split "." name = [name] ->
  (forall i l,
     Callable_locals c !! i = Some l -> Local_GetName l = name ->
     (forall j l', (j < i)%nat -> Callable_locals c !! j = Some l' ->
                   Local_GetName l' <> name) ->
     Callable_GetVariable c name = Ok (Some (VarLocal l))) /\
  (forall i p,
     Forall (fun l => Local_GetName l <> name) (Callable_locals c) ->
     Callable_namedArgs c !! i = Some p -> Parameter_GetName p = name ->
     (forall j p', (j < i)%nat -> Callable_namedArgs c !! j = Some p' ->
                   Parameter_GetName p' <> name) ->
     Callable_GetVariable c name = Ok (Some (VarParameter p))).
Proof.
  intros Hsplit. split.
  - intros i l Hl Hname Hfirst. unfold Callable_GetVariable.
    rewrite Hsplit, GetLocalCount_length, range_0. cbn [hd].
    rewrite (first_named_found _ _ name (Callable_locals c) i l _ (GetLocal_lookup c) Hl Hname
               Hfirst (lookup_lt_Some _ _ _ Hl)).
    reflexivity.
  - intros i p Hlocals Hp Hname Hfirst. unfold Callable_GetVariable.
    rewrite Hsplit, GetLocalCount_length, GetArgumentCount_length. cbn [hd].
    rewrite (first_named_all _ _ _ _ (GetLocal_lookup c) Hlocals). run.
    rewrite range_0.
    rewrite (first_named_found _ _ name (Callable_namedArgs c) i p _ (GetArgument_lookup c)
               Hp Hname Hfirst (lookup_lt_Some _ _ _ Hp)).
    reflexivity.
Qed.

Lemma GetField_int_lookup (fields : list Field) (sizes : list Z) (i : nat) (f : Field)
    (relativeTo : option Variable_) :
  field_sizes fields sizes -> fields !! i = Some f ->
  ComplexType_GetField_int fields (Z.of_nat i) relativeTo =
    Ok (mkField relativeTo (Field_GetType f) (Field_GetName f) (Field_GetIndex f)
          (sum (take i sizes))).
Proof.
  intros Hsizes Hf. unfold ComplexType_GetField_int.
  rewrite range_0, (GetField_int_offset fields sizes i Hsizes).
  - run. rewrite (getitem_lookup _ _ _ Hf). reflexivity.
  - apply Nat.lt_le_incl, (lookup_lt_Some _ _ _ Hf).
Qed.

(** X14.  A dotted name selects a field: when the variable, or what a
    parameter by reference points to, is a structure with resolved fields,
    [GetVariable] of the name of a field returns the first field of that
    name, relative to the variable, with the sizes of the fields before it
    as offset. *)
Theorem GetVariable_field (self : Variable_) (oid : nat) (name : string)
    (fields : list Field) (sizes : list Z) (i : nat) (f : Field) :
  Variable_structure self = TypeObj (ComplexType oid name fields) ->
  field_sizes fields sizes ->
  fields !! i = Some f ->
  Py.split "." (Field_GetName f) = [Field_GetName f] ->
  (forall j g, (j < i)%nat -> fields !! j = Some g -> Field_GetName g <> Field_GetName f) ->
  Variable_GetVariable self (Field_GetName f) =
    Ok (VarField (mkField (Some self) (Field_GetType f) (Field_GetName f) (Field_GetIndex f)
                    (sum (take i sizes)))).
Proof.
  intros Hstruct Hsizes Hf Hsplit Hfirst.
  unfold Variable_GetVariable. rewrite Hsplit. cbn [GetVariable_path].
  fold (Variable_structure self). rewrite Hstruct, range_0.
  pose proof (lookup_lt_Some _ _ _ Hf) as Hlt.
  assert (H : forall k m, (k <= i)%nat -> (i < k + m)%nat ->
    (fix search (indices : list Z) : result Variable_ :=
       match indices with
       | [] => Undefined_variable (Py.join "." [Field_GetName f])
       | i0 :: indices' =>
           field ← ComplexType_GetField_int fields i0 (Some self);
           if String.eqb (Field_GetName field) (Field_GetName f)
           then Ok (VarField field)
           else search indices'
       end) (map Z.of_nat (seq k m)) =
    Ok (VarField (mkField (Some self) (Field_GetType f) (Field_GetName f) (Field_GetIndex f)
                    (sum (take i sizes))))).
  { intros k m. revert k. induction m as [| m IH]; intros k Hk Hm; [lia |].
    cbn [seq map]. destruct (Nat.eq_dec k i) as [-> | Hne].
    - rewrite (GetField_int_lookup fields sizes i f _ Hsizes Hf). run.
      rewrite String.eqb_refl. reflexivity.
    - destruct (lookup_lt_is_Some_2 fields k ltac:(lia)) as [g Hg].
      rewrite (GetField_int_lookup fields sizes k g _ Hsizes Hg). run.
      destruct (String.eqb_spec (Field_GetName g) (Field_GetName f)) as [Heq | _].
      + exfalso. apply (Hfirst k g); [lia | exact Hg | exact Heq].
      + apply IH; lia. }
  apply H; lia.
Qed.

Lemma fold_left_raise {A B : Type} (f : result B -> A -> result B) (xs : list A)
    (err : PyError) :
  (forall x, f (Raise err) x = Raise err) -> fold_left f xs (Raise err) = Raise err.
Proof. intros Hf. induction xs as [| x xs IH]; [reflexivity |]. simpl. rewrite Hf. exact IH. Qed.

Lemma getitem_out_of_range {A : Type} (l : list A) (i : Z) :
  Z.of_nat (length l) <= i \/ i < - Z.of_nat (length l) ->
  Py.getitem l i = Raise (IndexError "list index out of range").
Proof.
  intros Hi. unfold Py.getitem.
  destruct (Z.ltb_spec i 0) as [Hneg | Hpos].
  - destruct (Z.leb_spec 0 (i + Z.of_nat (length l))) as [H0 | _]; [lia | reflexivity].
  - destruct (Z.leb_spec 0 i) as [_ | H0]; [| lia].
    destruct (Z.ltb_spec i (Z.of_nat (length l))) as [Hlt | _]; [lia | reflexivity].
Qed.

(** X15.  The bounds of [ComplexType.GetField] by index, for resolved
    fields: an index past the last field, or below minus the number of
    fields, raises [IndexError]; a negative index within the bounds selects
    the field counted from the end, as Python lists do, but no size is added
    up for it and the field is returned with offset 0. *)
Theorem GetField_bounds (fields : list Field) (sizes : list Z)
    (relativeTo : option Variable_) :
  field_sizes fields sizes ->
  (forall i, Z.of_nat (length fields) <= i \/ i < - Z.of_nat (length fields) ->
     ComplexType_GetField_int fields i relativeTo =
       Raise (IndexError "list index out of range")) /\
  (forall k f, (0 < k)%nat -> fields !! (length fields - k)%nat = Some f ->
     (k <= length fields)%nat ->
     ComplexType_GetField_int fields (- Z.of_nat k) relativeTo =
       Ok (mkField relativeTo (Field_GetType f) (Field_GetName f) (Field_GetIndex f) 0)).
Proof.
  intros Hsizes. split.
  - intros i [Hi | Hi]; unfold ComplexType_GetField_int.
    + unfold Py.range. rewrite Z.sub_0_r.
      replace (Z.to_nat i) with (length fields + (Z.to_nat i - length fields))%nat by lia.
      rewrite seq_app, map_app, fold_left_app.
      replace (map (fun k => 0 + Z.of_nat k) (seq 0 (length fields)))
        with (map Z.of_nat (seq 0 (length fields))) by (apply map_ext; intros; lia).
      rewrite (GetField_int_offset fields sizes _ Hsizes) by lia.
      destruct (Z.to_nat i - length fields)%nat as [| m] eqn:Hm.
      * simpl. run. rewrite getitem_out_of_range by lia. reflexivity.
      * cbn [seq map fold_left]. run.
        rewrite getitem_out_of_range by lia. run.
        rewrite fold_left_raise by reflexivity. reflexivity.
    + unfold Py.range. replace (Z.to_nat (i - 0)) with 0%nat by lia. simpl. run.
      rewrite getitem_out_of_range by lia. reflexivity.
  - intros k f Hk Hf Hle. unfold ComplexType_GetField_int.
    unfold Py.range. replace (Z.to_nat (- Z.of_nat k - 0)) with 0%nat by lia. simpl. run.
    unfold Py.getitem.
    destruct (Z.ltb_spec (- Z.of_nat k) 0) as [_ | H0]; [| lia].
    destruct (Z.leb_spec 0 (- Z.of_nat k + Z.of_nat (length fields))) as [_ | H0]; [| lia].
    destruct (Z.ltb_spec (- Z.of_nat k + Z.of_nat (length fields)) (Z.of_nat (length fields)))
      as [_ | H0]; [| lia].
    simpl. replace (Z.to_nat (- Z.of_nat k + Z.of_nat (length fields)))
      with (length fields - k)%nat by lia.
    rewrite Hf. reflexivity.
Qed.

Lemma local_sizes_example : local_sizes sub_with_locals [1; 1].
Proof. repeat constructor. Qed.

Lemma local_offsets_witness :
  local_sizes sub_with_locals [1; 1] /\
  Callable_locals sub_with_locals !! 1%nat = Some local_a2 /\
  Local_offset local_a2 sub_with_locals = Ok 2.
Proof.
  split; [exact local_sizes_example | split; [reflexivity |]].
  refine (proj1 (local_offsets sub_with_locals [1; 1] 1 local_a2 local_sizes_example
                   eq_refl _)).
  intros j l Hj Hl. destruct j as [| j]; [| lia]. injection Hl as <-. discriminate.
Defined.

Lemma frame_ends_witness :
  ReturnVariable_offset sub_with_locals = Ok 3 /\
  Callable_GetArgumentsSize sub_with_locals = Ok 1 /\
  Local_offset local_a2 sub_with_locals = Callable_GetLocalsSize sub_with_locals.
Proof.
  split; [exact (proj1 (frame_ends sub_with_locals)) | split; [reflexivity |]].
  refine (proj2 (frame_ends sub_with_locals) local_a2 _).
  repeat constructor. discriminate.
Defined.

Lemma GetVariable_finds_witness :
  Py.split "." "a" = ["a"] /\
  Callable_GetVariable sub_with_locals "a" = Ok (Some (VarLocal local_a)).
Proof.
  split; [reflexivity |].
  refine (proj1 (GetVariable_finds sub_with_locals "a" eq_refl) 0%nat local_a eq_refl eq_refl _).
  intros j l Hj. lia.
Defined.

Lemma GetVariable_field_witness :
  Variable_structure (VarLocal local_point) = TypeObj (ComplexType 1 "Point" point_fields) /\
  field_sizes point_fields [1; 1] /\
  Variable_GetVariable (VarLocal local_point) "Y" =
    Ok (VarField (mkField (Some (VarLocal local_point)) (TypeObj SignedInteger) "Y" 1 1)).
Proof.
  split; [reflexivity | split; [exact field_sizes_point |]].
  refine (GetVariable_field (VarLocal local_point) 1 "Point" point_fields [1; 1] 1
            (mkField None (TypeObj SignedInteger) "Y" 1 0) eq_refl field_sizes_point
            eq_refl eq_refl _).
  intros j g Hj Hg. destruct j as [| j]; [| lia]. injection Hg as <-. discriminate.
Defined.

Lemma GetField_bounds_witness :
  field_sizes point_fields [1; 1] /\
  ComplexType_GetField_int point_fields 2 None = Raise (IndexError "list index out of range") /\
  ComplexType_GetField_int point_fields (-1) None =
    Ok (mkField None (TypeObj SignedInteger) "Y" 1 0).
Proof.
  destruct (GetField_bounds point_fields [1; 1] None field_sizes_point) as [Hout Hneg].
  split; [exact field_sizes_point | split].
  - apply Hout. left. simpl. lia.
  - exact (Hneg 1%nat (mkField None (TypeObj SignedInteger) "Y" 1 0) ltac:(lia) eq_refl
             ltac:(simpl; lia)).
Defined.

(** ** The resolver *)

Lemma rev_acc_app (s acc : string) : Py.rev_acc s acc = Py.rev s ++ acc.
Proof.
  unfold Py.rev. revert acc. induction s as [| c s IH]; intros acc; [reflexivity |].
  simpl. rewrite (IH (String c acc)), (IH (String c EmptyString)), app_assoc_string.
  reflexivity.
Qed.

Lemma rev_cons (c : ascii) (s : string) : Py.rev (String c s) = Py.rev s ++ String c EmptyString.
Proof. unfold Py.rev at 1. simpl. apply rev_acc_app. Qed.

Lemma rev_app (a b : string) : Py.rev (a ++ b) = Py.rev b ++ Py.rev a.
Proof.
  induction a as [| c a IH].
  - change (EmptyString ++ b) with b. symmetry.
    induction (Py.rev b) as [| x r IHr]; [reflexivity |]. rewrite append_cons, IHr. reflexivity.
  - rewrite append_cons, !rev_cons, IH, app_assoc_string. reflexivity.
Qed.

Lemma rev_involutive (s : string) : Py.rev (Py.rev s) = s.
Proof.
  induction s as [| c s IH]; [reflexivity |].
  rewrite rev_cons, rev_app, IH. reflexivity.
Qed.

Lemma find_name (types : list Type_) (name : string) (t : Type_) :
  find (fun t => String.eqb (Type_GetName t) name) types = Some t -> Type_GetName t = name.
Proof.
  intros H. apply find_some in H as [_ H]. apply String.eqb_eq, H.
Qed.

Lemma GetType_rev_name (types : list Type_) (reversed : string) (t : Type_) :
  GetType_rev types reversed = Ok t -> Type_GetName t = Py.rev reversed.
Proof.
  revert t. induction reversed as [| c reversed IH]; intros t.
  - cbn [GetType_rev]. destruct (find _ types) as [t0 |] eqn:Hfind; [| discriminate].
    intros H. injection H as <-. apply (find_name _ _ _ Hfind).
  - destruct (Ascii.eqb_spec c "*") as [-> | Hc].
    + cbn [GetType_rev]. destruct (GetType_rev types reversed) as [t0 | err]; [| discriminate].
      intros H. injection H as <-. simpl. rewrite (IH t0 eq_refl), rev_cons. reflexivity.
    + assert (Hfind : GetType_rev types (String c reversed) =
                      match find (fun t => String.eqb (Type_GetName t)
                                             (Py.rev (String c reversed))) types with
                      | Some t => Ok t
                      | None => Undefined_type (Py.rev (String c reversed))
                      end).
      { destruct c as [[] [] [] [] [] [] [] []]; try reflexivity. contradiction. }
      rewrite Hfind. destruct (find _ types) as [t0 |] eqn:Hfound; [| discriminate].
      intros H. injection H as <-. apply (find_name _ _ _ Hfound).
Qed.

(** X16.  The type that the resolver finds for a name has that name, stars
    included: [GetType] and [GetName] are inverse. *)
Theorem GetType_name (self : Resolver) (name : string) (t : Type_) :
  Resolver_GetType self name = Ok t -> Type_GetName t = name.
Proof.
  intros H. apply GetType_rev_name in H. rewrite H. apply rev_involutive.
Qed.

Lemma existsb_find_name (types : list Type_) (name : string) :
  existsb (fun t => String.eqb (Type_GetName t) name) types = true ->
  exists t, find (fun t => String.eqb (Type_GetName t) name) types = Some t.
Proof.
  induction types as [| t types IH]; simpl; [discriminate |].
  destruct (String.eqb (Type_GetName t) name); [eexists; reflexivity | exact IH].
Qed.

Lemma GetType_rev_plain (types : list Type_) (reversed : string) :
  String.prefix "*" reversed = false ->
  GetType_rev types reversed =
  match find (fun t => String.eqb (Type_GetName t) (Py.rev reversed)) types with
  | Some t => Ok t
  | None => Undefined_type (Py.rev reversed)
  end.
Proof.
  destruct reversed as [| c r]; [reflexivity |].
  destruct c as [[] [] [] [] [] [] [] []]; try reflexivity.
  destruct r; discriminate.
Qed.

Lemma GetType_plain (types : list Type_) (name : string) :
  Py.endswith name "*" = false ->
  GetType_rev types (Py.rev name) =
  match find (fun t => String.eqb (Type_GetName t) name) types with
  | Some t => Ok t
  | None => Undefined_type name
  end.
Proof.
  intros H. rewrite (GetType_rev_plain types (Py.rev name) H), rev_involutive. reflexivity.
Qed.

(** X17.  [Resolver.Resolve] of a type object returns the object and leaves
    a type of its name in the resolver: when a registered type has its name
    the types stay as they are, when none has it the object is appended at
    the end; the functions are untouched, and a second call changes nothing.
    A name without a final star is then found by [GetType]. *)
Theorem Resolve_registers (self : Resolver) (t : Type_) :
  let '(r, self') := Resolver_Resolve (TypeObj t) self in
  r = Ok t /\
  (Exists (fun other => Type_GetName other = Type_GetName t) (_types self) ->
   _types self' = _types self) /\
  (Forall (fun other => Type_GetName other <> Type_GetName t) (_types self) ->
   _types self' = (_types self ++ [t])%list) /\
  _functions self' = _functions self /\
  Resolver_Resolve (TypeObj t) self' = (Ok t, self') /\
  (Py.endswith (Type_GetName t) "*" = false ->
   exists t0, Resolver_GetType self' (Type_GetName t) = Ok t0 /\
              Type_GetName t0 = Type_GetName t).
Proof.
  unfold Resolver_Resolve.
  destruct (existsb _ (_types self)) eqn:Hexists.
  - split; [reflexivity |]. split; [reflexivity |]. split.
    { intros Hnone. exfalso. apply existsb_exists in Hexists as (other & Hin & Hname).
      apply String.eqb_eq in Hname.
      exact (proj1 (List.Forall_forall _ _) Hnone other Hin Hname). }
    split; [reflexivity |].
    rewrite Hexists. split; [reflexivity |].
    intros Hstar. unfold Resolver_GetType. rewrite (GetType_plain _ _ Hstar).
    destruct (existsb_find_name _ _ Hexists) as [t0 Hfind]. rewrite Hfind.
    exists t0. split; [reflexivity | exact (find_name _ _ _ Hfind)].
  - assert (Hnow : existsb (fun otherType =>
                              String.eqb (Type_GetName otherType) (Type_GetName t))
                     (_types self ++ [t]) = true).
    { rewrite existsb_app. simpl. rewrite String.eqb_refl. apply orb_true_iff. right.
      reflexivity. }
    split; [reflexivity |]. split.
    { intros Hsome. exfalso. apply List.Exists_exists in Hsome as (other & Hin & Hname).
      assert (Htrue : existsb (fun otherType =>
                                 String.eqb (Type_GetName otherType) (Type_GetName t))
                        (_types self) = true).
      { apply existsb_exists. exists other. split; [exact Hin |].
        apply String.eqb_eq. exact Hname. }
      rewrite Htrue in Hexists. discriminate Hexists. }
    split; [reflexivity |]. split; [reflexivity |].
    cbn [_types _functions]. rewrite Hnow.
    split; [reflexivity |].
    intros Hstar. unfold Resolver_GetType. cbn [_types]. rewrite (GetType_plain _ _ Hstar).
    destruct (existsb_find_name _ _ Hnow) as [t0 Hfind]. rewrite Hfind.
    exists t0. split; [reflexivity | exact (find_name _ _ _ Hfind)].
Qed.

Lemma Resolve_registers_witness :
  _types (snd (Resolver_Resolve (TypeObj SignedInteger) default_resolver)) =
    _types default_resolver /\
  _types (snd (Resolver_Resolve (TypeObj (EmptyType 7 "Point")) default_resolver)) =
    (_types default_resolver ++ [EmptyType 7 "Point"])%list.
Proof.
  split.
  - pose proof (Resolve_registers default_resolver SignedInteger) as H.
    destruct (Resolver_Resolve (TypeObj SignedInteger) default_resolver) as [r self'].
    destruct H as (_ & Hsome & _). apply Hsome. constructor. reflexivity.
  - pose proof (Resolve_registers default_resolver (EmptyType 7 "Point")) as H.
    destruct (Resolver_Resolve (TypeObj (EmptyType 7 "Point")) default_resolver) as [r self'].
    destruct H as (_ & _ & Hnone & _). apply Hnone. repeat constructor; discriminate.
Defined.

Lemma GetType_name_witness :
  Resolver_GetType default_resolver "UInteger**" =
    Ok (PointerType (TypeObj (PointerType (TypeObj UnsignedInteger)))) /\
  Type_GetName (PointerType (TypeObj (PointerType (TypeObj UnsignedInteger)))) = "UInteger**".
Proof.
  assert (H : Resolver_GetType default_resolver "UInteger**" =
              Ok (PointerType (TypeObj (PointerType (TypeObj UnsignedInteger)))))
    by reflexivity.
  split; [exact H | exact (GetType_name default_resolver "UInteger**" _ H)].
Defined.

(** ** Operator keywords in another case *)

Lemma upper_space (s : string) : Py.all_chars Py.is_space s = true -> Py.upper s = s.
Proof.
  induction s as [| c s IH]; [reflexivity |]. simpl. intros H.
  apply andb_true_iff in H as [Hc Hs]. rewrite (IH Hs). f_equal.
  unfold Py.upper_char. replace (Py.is_lower c) with false; [reflexivity |].
  symmetry. unfold Py.is_space, Py.is_lower, Py.in_range in *.
  apply andb_false_iff. left. apply Nat.leb_gt.
  apply orb_true_iff in Hc as [Hc | Hc]; [apply orb_true_iff in Hc as [Hc | Hc] |].
  - apply andb_true_iff in Hc as [_ Hc]. apply Nat.leb_le in Hc. lia.
  - apply andb_true_iff in Hc as [_ Hc]. apply Nat.leb_le in Hc. lia.
  - apply Nat.eqb_eq in Hc. lia.
Qed.

Lemma miscased_facts (token : string) :
  miscased_operator token ->
  Py.isspace token = false /\ isOperator token = true /\
  String.eqb (Py.upper token) "AS" = false /\
  String.eqb token "(" = false /\ String.eqb token ")" = false.
Proof.
  intros [Hupper Hnone]. repeat split.
  - destruct (Py.isspace token) eqn:Hspace; [| reflexivity]. exfalso.
    assert (Hall : Py.all_chars Py.is_space token = true).
    { destruct token; [discriminate Hspace | exact Hspace]. }
    rewrite (upper_space _ Hall), Hnone in Hupper. destruct Hupper as [x Hx]. discriminate Hx.
  - unfold isOperator. rewrite (bool_decide_eq_true_2 _ Hupper). apply orb_true_r.
  - destruct (String.eqb_spec (Py.upper token) "AS") as [Heq | _]; [| reflexivity].
    rewrite Heq in Hupper. destruct Hupper as [x Hx]. vm_compute in Hx. discriminate Hx.
  - destruct (String.eqb_spec token "(") as [-> | _]; [| reflexivity].
    destruct Hupper as [x Hx]. vm_compute in Hx. discriminate Hx.
  - destruct (String.eqb_spec token ")") as [-> | _]; [| reflexivity].
    destruct Hupper as [x Hx]. vm_compute in Hx. discriminate Hx.
Qed.

Lemma pop_operators_held (t token : string) (stack queue stack' queue' : list string) :
  pop_operators token stack queue = Ok (stack', queue') ->
  held t stack queue -> held t stack' queue'.
Proof.
  revert queue. induction stack as [| top stack IH]; intros queue; simpl.
  - intros H. injection H as <- <-. auto.
  - destruct (_ =? _)%string; [intros H; injection H as <- <-; auto |].
    unfold mbind, result_bind.
    destruct (getPrecedence top); [| discriminate].
    destruct (getPrecedence token); [| discriminate].
    match goal with |- context [match ?h with Ok _ => _ | Raise _ => _ end] =>
      destruct h as [[] |] end; [| intros H; injection H as <- <-; auto | discriminate].
    intros H Hheld. apply (IH _ H). unfold held in *. rewrite in_app_iff. simpl.
    destruct Hheld as [[-> | Hin] | Hin]; auto.
Qed.

Lemma pop_to_paren_held (t : string) (stack queue stack' queue' : list string) :
  pop_to_paren stack queue = Ok (stack', queue') ->
  String.eqb t "(" = false ->
  held t stack queue -> held t (tl stack') queue'.
Proof.
  intros H Ht. revert queue H. induction stack as [| top stack IH]; intros queue; simpl;
    [discriminate |].
  destruct (String.eqb_spec top "(") as [-> | Hne].
  - intros H. injection H as <- <-. simpl. intros [[<- | Hin] | Hin].
    + discriminate Ht.
    + left. exact Hin.
    + right. exact Hin.
  - intros H Hheld. apply (IH _ H). unfold held in *. rewrite in_app_iff. simpl.
    destruct Hheld as [[-> | Hin] | Hin]; auto.
Qed.

Lemma shunt_held (t : string) (st st' : Shunting) (token : string) :
  shunt st token = Ok st' ->
  String.eqb t "(" = false ->
  held t (sh_stack st) (sh_queue st) -> held t (sh_stack st') (sh_queue st').
Proof.
  unfold shunt. intros H Ht Hheld. revert H.
  destruct (Py.isspace token); [intros H; injection H as <-; auto |].
  destruct (isOperator token).
  { unfold mbind, result_bind.
    destruct (pop_operators token (sh_stack st) (sh_queue st)) as [[stack1 queue1] |] eqn:Hpop;
      [| discriminate].
    intros H. injection H as <-. simpl.
    destruct (pop_operators_held t _ _ _ _ _ Hpop Hheld) as [H1 | H2]; unfold held; simpl; auto. }
  destruct (_ && _)%bool.
  { intros H. injection H as <-. unfold held in *. simpl. rewrite in_app_iff. tauto. }
  destruct (String.eqb token "(").
  { intros H. injection H as <-. unfold held in *. simpl. tauto. }
  destruct (String.eqb token ")").
  { destruct (sh_stack st) as [| top stack] eqn:Hst; [discriminate |].
    unfold mbind, result_bind.
    destruct (pop_to_paren (top :: stack) (sh_queue st)) as [[stack1 queue1] |] eqn:Hpop;
      [| discriminate].
    pose proof (pop_to_paren_held t _ _ _ _ Hpop Ht Hheld) as H1.
    destruct (tl stack1) as [| top' rest].
    - intros H. injection H as <-. exact H1.
    - destruct (_ && _)%bool; intros H; injection H as <-; [| exact H1].
      unfold held in *. simpl in *. rewrite in_app_iff. simpl. tauto. }
  intros H. injection H as <-. unfold held in *. simpl. rewrite in_app_iff. tauto.
Qed.

Lemma shunt_miscased (t : string) (st st' : Shunting) :
  miscased_operator t -> shunt st t = Ok st' -> held t (sh_stack st') (sh_queue st').
Proof.
  intros Ht. destruct (miscased_facts t Ht) as (Hspace & Hop & _).
  unfold shunt. rewrite Hspace, Hop. unfold mbind, result_bind.
  destruct (pop_operators _ _ _) as [[stack1 queue1] |]; [| discriminate].
  intros H. injection H as <-. left. left. reflexivity.
Qed.

Lemma fold_shunt_held (t : string) (tokens : list string) (st st' : Shunting) :
  miscased_operator t ->
  fold_result shunt tokens st = Ok st' ->
  In t tokens \/ held t (sh_stack st) (sh_queue st) ->
  held t (sh_stack st') (sh_queue st').
Proof.
  intros Ht. destruct (miscased_facts t Ht) as (_ & _ & _ & Hparen & _).
  revert st. induction tokens as [| token tokens IH]; intros st; simpl.
  - intros H. injection H as <-. intros [[] | H]. exact H.
  - unfold mbind, result_bind. destruct (shunt st token) as [st1 |] eqn:Hshunt; [| discriminate].
    intros H [[-> | Hin] | Hheld]; apply (IH _ H).
    + right. apply (shunt_miscased _ _ _ Ht Hshunt).
    + left. exact Hin.
    + right. apply (shunt_held _ _ _ _ Hshunt Hparen Hheld).
Qed.

Lemma drain_held (t : string) (stack queue queue' : list string) :
  drain stack queue = Ok queue' -> held t stack queue -> In t queue'.
Proof.
  revert queue. induction stack as [| token stack IH]; intros queue; simpl.
  - intros H. injection H as <-. intros [[] | H]. exact H.
  - destruct (_ =? _)%string; [discriminate |].
    intros H Hheld. apply (IH _ H). unfold held in *. rewrite in_app_iff. simpl.
    destruct Hheld as [[-> | Hin] | Hin]; auto.
Qed.

Lemma reduce_miscased (t : string) (stack : list Expression) :
  miscased_operator t -> reduce stack t = Raise (KeyError t).
Proof.
  intros Ht. destruct (miscased_facts t Ht) as (_ & Hop & Has & _ & Hclose).
  unfold reduce. rewrite Hclose, Hop, Has. unfold operator_entry.
  destruct Ht as [_ ->]. reflexivity.
Qed.

Lemma fold_reduce_miscased (t : string) (queue : list string) (stack : list Expression) :
  miscased_operator t -> In t queue ->
  exists err, fold_result reduce queue stack = Raise err.
Proof.
  intros Ht. revert stack. induction queue as [| token queue IH]; intros stack Hin;
    [destruct Hin |].
  simpl. unfold mbind, result_bind.
  destruct (reduce stack token) as [stack1 | err] eqn:Hreduce; [| exists err; reflexivity].
  destruct Hin as [-> | Hin]; [| apply IH, Hin].
  rewrite (reduce_miscased t stack Ht) in Hreduce. discriminate Hreduce.
Qed.

(** X18.  An operator keyword that is not written in upper case is taken for
    an operator, for [isOperator] compares in upper case, and then looked up
    as written: a line that holds such a token, as [and] or [Xor], never
    parses, whatever else it holds. *)
Theorem miscased_operator_never_parses (line token : string) :
  In token (findall token_regex line) ->
  miscased_operator token ->
  exists err, parse_expression line = Raise err.
Proof.
  intros Hin Ht. unfold parse_expression, mbind, result_bind.
  destruct (fold_result shunt _ _) as [st | err] eqn:Hshunt; [| exists err; reflexivity].
  destruct (drain _ _) as [queue | err] eqn:Hdrain; [| exists err; reflexivity].
  pose proof (fold_shunt_held token _ _ _ Ht Hshunt (or_introl Hin)) as Hheld.
  pose proof (drain_held token _ _ _ Hdrain Hheld) as Hqueue.
  destruct (fold_reduce_miscased token queue [] Ht Hqueue) as [err ->].
  exists err. reflexivity.
Qed.

Lemma miscased_operator_never_parses_witness :
  In "and" (findall token_regex "a and b") /\ miscased_operator "and" /\
  exists err, parse_expression "a and b" = Raise err.
Proof.
  assert (Hin : In "and" (findall token_regex "a and b")).
  { vm_compute. right. right. left. reflexivity. }
  assert (Ht : miscased_operator "and").
  { split; [eexists; vm_compute; reflexivity | vm_compute; reflexivity]. }
  split; [exact Hin | split; [exact Ht |]].
  exact (miscased_operator_never_parses "a and b" "and" Hin Ht).
Defined.

(** ** Lines of operands and operators *)

Lemma operator_key (operator : string) :
  is_Some (_operators !! operator) -> In operator operator_keys.
Proof.
  intros [entry H]. unfold _operators in H. apply elem_of_list_to_map_2 in H.
  repeat (apply elem_of_cons in H as [H | H]; [injection H as -> _; simpl; tauto |]).
  apply elem_of_nil in H. destruct H.
Qed.

Lemma fold_result_app {A B : Type} (body : B -> A -> result B) (xs ys : list A) (acc : B) :
  fold_result body (xs ++ ys) acc = (acc' ← fold_result body xs acc; fold_result body ys acc').
Proof.
  revert acc. induction xs as [| x xs IH]; intros acc; [reflexivity |].
  simpl. unfold mbind, result_bind. destruct (body acc x); [apply IH | reflexivity].
Qed.

Lemma shunt_skips_space (tokens : list string) (st : Shunting) :
  fold_result shunt tokens st =
  fold_result shunt (List.filter (fun token => negb (Py.isspace token)) tokens) st.
Proof.
  revert st. induction tokens as [| token tokens IH]; intros st; [reflexivity |].
  cbn [List.filter fold_result]. destruct (Py.isspace token) eqn:Hspace; cbn [negb fold_result].
  - assert (Hs : shunt st token = Ok st) by (unfold shunt; rewrite Hspace; reflexivity).
    rewrite Hs. apply IH.
  - unfold mbind, result_bind. destruct (shunt st token); [apply IH | reflexivity].
Qed.

Lemma shunt_operand (st : Shunting) (token : string) :
  is_operand token = true ->
  shunt st token = Ok (mkShunting (sh_queue st ++ [token]) (sh_stack st)).
Proof.
  unfold is_operand, shunt. intros H.
  repeat (apply andb_true_iff in H as [H ?]).
  repeat match goal with H : negb ?b = true |- _ => apply negb_true_iff in H; rewrite H end.
  reflexivity.
Qed.

Lemma shunt_operator (queue stack : list string) (operator : string) :
  In operator operator_keys -> Forall (fun top => In top operator_keys) stack ->
  shunt (mkShunting queue stack) operator = Ok (mkShunting queue (operator :: stack)).
Proof.
  intros Hop Hstack. unfold shunt.
  assert (H : Py.isspace operator = false /\ isOperator operator = true /\
              getPrecedence operator = Ok 0 /\ isLeftAssociative operator = Ok false /\
              String.eqb operator "(" = false).
  { simpl in Hop. repeat (destruct Hop as [<- | Hop]; [repeat split; vm_compute; reflexivity |]).
    destruct Hop. }
  destruct H as (-> & -> & Hp & Hl & _). cbn [sh_stack sh_queue].
  destruct stack as [| top stack]; [reflexivity |].
  apply Forall_cons in Hstack as [Htop _].
  assert (H : String.eqb top "(" = false /\ getPrecedence top = Ok 0).
  { simpl in Htop. repeat (destruct Htop as [<- | Htop]; [split; vm_compute; reflexivity |]).
    destruct Htop. }
  destruct H as [Hparen Hptop]. cbn [pop_operators]. rewrite Hparen, Hptop, Hp, Hl.
  reflexivity.
Qed.

Lemma shunt_chain (rest : list (string * string)) (queue stack : list string) :
  Forall (fun '(operator, token) => In operator operator_keys /\ is_operand token = true) rest ->
  Forall (fun top => In top operator_keys) stack ->
  fold_result shunt (flat_map (fun '(operator, token) => [operator; token]) rest)
    (mkShunting queue stack) =
  Ok (mkShunting (queue ++ map snd rest) (rev (map fst rest) ++ stack)).
Proof.
  intros Hrest. revert queue stack.
  induction Hrest as [| [operator token] rest [Hop Htoken] _ IH]; intros queue stack Hstack.
  - simpl. rewrite app_nil_r. reflexivity.
  - cbn [flat_map app fold_result map fst snd rev].
    rewrite (shunt_operator queue stack operator Hop Hstack). unfold mbind, result_bind.
    rewrite (shunt_operand _ token Htoken). cbn [sh_queue sh_stack].
    rewrite IH by (constructor; assumption).
    rewrite <- !app_assoc. reflexivity.
Qed.

Lemma drain_operators (stack queue : list string) :
  Forall (fun top => In top operator_keys) stack ->
  drain stack queue = Ok (queue ++ stack)%list.
Proof.
  intros Hstack. revert queue.
  induction Hstack as [| top stack Htop _ IH]; intros queue; simpl.
  - rewrite app_nil_r. reflexivity.
  - replace (String.eqb top "(") with false.
    + rewrite IH, <- app_assoc. reflexivity.
    + simpl in Htop. repeat (destruct Htop as [<- | Htop]; [reflexivity |]). destruct Htop.
Qed.

Lemma reduce_operand (stack : list Expression) (token : string) :
  is_operand token = true -> reduce stack token = Ok (operand_of token :: stack).
Proof.
  unfold is_operand, reduce, operand_of. intros H.
  repeat (apply andb_true_iff in H as [H ?]).
  repeat match goal with H : negb ?b = true |- _ => apply negb_true_iff in H end.
  match goal with H : String.eqb token ")" = false |- _ => rewrite H end.
  match goal with H : isOperator token = false |- _ => rewrite H end.
  match goal with H : (_ && _)%bool = false |- _ => rewrite andb_comm in H; rewrite H end.
  unfold try_except, mbind, mret, result_bind, result_ret.
  destruct (parse_value token); reflexivity.
Qed.

Lemma reduce_operands (tokens : list string) (stack : list Expression) :
  Forall (fun token => is_operand token = true) tokens ->
  fold_result reduce tokens stack = Ok (rev (map operand_of tokens) ++ stack)%list.
Proof.
  intros Htokens. revert stack.
  induction Htokens as [| token tokens Htoken _ IH]; intros stack; [reflexivity |].
  cbn [fold_result map rev]. rewrite (reduce_operand _ _ Htoken). unfold mbind, result_bind.
  rewrite IH, <- app_assoc. reflexivity.
Qed.

Lemma reduce_operator (operator : string) (argA argB : Expression) (stack : list Expression) :
  In operator operator_keys ->
  reduce (argB :: argA :: stack) operator =
    Ok (BinaryOperandExpression operator argA argB None :: stack).
Proof.
  intros Hop. simpl in Hop.
  repeat (destruct Hop as [<- | Hop]; [reflexivity |]). destruct Hop.
Qed.

Lemma reduce_chain (rest : list (string * string)) (first : string) (stack : list Expression) :
  Forall (fun '(operator, token) => In operator operator_keys /\ is_operand token = true) rest ->
  fold_result reduce (rev (map fst rest))
    (rev (map operand_of (map snd rest)) ++ operand_of first :: stack)%list =
  Ok (right_nested first rest :: stack).
Proof.
  intros Hrest. revert first stack.
  induction Hrest as [| [operator token] rest [Hop Htoken] _ IH]; intros first stack;
    [reflexivity |].
  cbn [map fst snd rev right_nested]. rewrite fold_result_app, <- app_assoc.
  cbn [app]. rewrite (IH token (operand_of first :: stack)).
  unfold mbind, result_bind. cbn [fold_result].
  rewrite (reduce_operator operator _ _ stack Hop). reflexivity.
Qed.

(** X19.  The operators all have the same precedence and none is left
    associative, so a line of operands separated by operators is parsed from
    the right: every operator takes the whole rest of the line for second
    operand, and [a - b - c] is [a - (b - c)]. *)
Theorem operators_nest_to_the_right (line first : string) (rest : list (string * string)) :
  List.filter (fun token => negb (Py.isspace token)) (findall token_regex line) =
    chain first rest ->
  is_operand first = true ->
  Forall (fun '(operator, token) => In operator operator_keys /\ is_operand token = true) rest ->
  parse_expression line = Ok (right_nested first rest).
Proof.
  intros Htokens Hfirst Hrest. unfold parse_expression.
  rewrite shunt_skips_space, Htokens. unfold chain. cbn [fold_result].
  rewrite (shunt_operand _ first Hfirst). unfold mbind, result_bind. cbn [sh_queue sh_stack app].
  rewrite (shunt_chain rest [first] [] Hrest ltac:(constructor)). cbn [sh_queue sh_stack].
  assert (Hops : Forall (fun top => In top operator_keys) (rev (map fst rest) ++ [])).
  { rewrite app_nil_r. apply Forall_rev. apply Forall_map.
    refine (Forall_impl _ _ _ Hrest _). intros [operator token] [H _]. exact H. }
  rewrite (drain_operators _ _ Hops), app_nil_r.
  rewrite fold_result_app. cbn [app fold_result]. rewrite (reduce_operand _ _ Hfirst).
  unfold mbind, result_bind.
  rewrite (reduce_operands (map snd rest)).
  - rewrite (reduce_chain rest first [] Hrest). reflexivity.
  - apply Forall_map. refine (Forall_impl _ _ _ Hrest _). intros [operator token] [_ H]. exact H.
Qed.

Lemma operators_nest_to_the_right_witness :
  parse_expression "a - b - c" =
    Ok (BinaryOperandExpression "-" (VariableExpression (VarName "a"))
          (BinaryOperandExpression "-" (VariableExpression (VarName "b"))
             (VariableExpression (VarName "c")) None) None).
Proof.
  apply (operators_nest_to_the_right "a - b - c" "a" [("-", "b"); ("-", "c")]).
  - vm_compute. reflexivity.
  - vm_compute. reflexivity.
  - repeat constructor; simpl; tauto.
Defined.

(** ** Loads and stores *)

Lemma emitted_emitted (e : URCLEmitter) (l1 l2 : list Instruction) (n1 n2 : Z) :
  emitted (emitted e l1 n1) l2 n2 = emitted e (l1 ++ l2) (n1 + n2).
Proof. unfold emitted. simpl. rewrite <- app_assoc. f_equal. lia. Qed.

Lemma emitted_nothing (e : URCLEmitter) : emitted e [] 0 = e.
Proof. destruct e. unfold emitted. simpl. rewrite app_nil_r, Z.add_0_r. reflexivity. Qed.

Lemma _emit_emitted (args : list (option string)) (e : URCLEmitter) :
  _emit args e = (Ok tt, emitted e [omap id args] 0).
Proof. unfold _emit, emitted, set_insts. rewrite Z.add_0_r. reflexivity. Qed.

Lemma for_each_emitted {A : Type} (xs : list A) (body : A -> EmitM unit)
    (f : A -> list Instruction) (e : URCLEmitter) :
  (forall x e, body x e = (Ok tt, emitted e (f x) 0)) ->
  for_each xs body e = (Ok tt, emitted e (concat (map f xs)) 0).
Proof.
  intros Hbody. revert e. induction xs as [| x xs IH]; intros e.
  - simpl. rewrite emitted_nothing. reflexivity.
  - rewrite for_each_cons, Hbody, IH, emitted_emitted. reflexivity.
Qed.

Lemma count_mnemonic_app (mnemonic : string) (l1 l2 : list Instruction) :
  count_mnemonic mnemonic (l1 ++ l2) =
  (count_mnemonic mnemonic l1 + count_mnemonic mnemonic l2)%nat.
Proof. unfold count_mnemonic. rewrite List.filter_app, length_app. reflexivity. Qed.

Lemma count_mnemonic_concat {A : Type} (mnemonic : string) (f : A -> list Instruction)
    (xs : list A) (n : nat) :
  (forall x, count_mnemonic mnemonic (f x) = n) ->
  count_mnemonic mnemonic (concat (map f xs)) = (length xs * n)%nat.
Proof.
  intros Hf. induction xs as [| x xs IH]; [reflexivity |].
  simpl. rewrite count_mnemonic_app, Hf, IH. reflexivity.
Qed.

Lemma count_mnemonic_one (mnemonic op : string) (rest : list (option string)) :
  count_mnemonic mnemonic [omap id (Some op :: rest)] =
  if String.eqb op mnemonic then 1%nat else 0%nat.
Proof. unfold count_mnemonic. simpl. destruct (String.eqb op mnemonic); reflexivity. Qed.

Ltac count :=
  rewrite ?count_mnemonic_app, ?count_mnemonic_one;
  change (count_mnemonic "pop" []) with 0%nat; change (count_mnemonic "psh" []) with 0%nat;
  simpl (String.eqb _ _); cbv iota.

Lemma begin_instruction_emitted (caller : string) (e : URCLEmitter) :
  Py.split " " caller = [caller] ->
  exists new, begin_instruction caller e = (Ok tt, emitted e new 0) /\
              count_mnemonic "psh" new = 0%nat /\ count_mnemonic "pop" new = 0%nat.
Proof.
  intros Hsplit. unfold begin_instruction, comment. rewrite Hsplit.
  destruct (_showIL e); unfold mbind, StateM_bind, mret, StateM_ret; rewrite ?_emit_emitted.
  - rewrite emitted_emitted. eexists. split; [reflexivity |]. split; reflexivity.
  - eexists. split; [reflexivity |]. split; reflexivity.
Qed.

Lemma end_instruction_emitted (e : URCLEmitter) : end_instruction e = (Ok tt, emitted e [] 1).
Proof. unfold end_instruction, emitted. rewrite app_nil_r. reflexivity. Qed.

Lemma length_range (size : Z) : length (Py.range 0 size) = Z.to_nat size.
Proof. unfold Py.range. rewrite length_map, length_seq, Z.sub_0_r. reflexivity. Qed.

(** X20.  The effect of a load and of a store on the stack of the machine:
    [ld_ptr(size)] pops the address and pushes [size] words, [st_ptr(size)]
    pops the address and [size] words and pushes nothing; for a size of 0 or
    less neither pops nor pushes. Either one counts as one instruction. *)
Theorem pointer_access_stack_effect (size : Z) (e : URCLEmitter) :
  (exists new, ld_ptr size e = (Ok tt, emitted e new 1) /\
     count_mnemonic "pop" new = (if 0 <? size then 1%nat else 0%nat) /\
     count_mnemonic "psh" new = Z.to_nat size) /\
  (exists new, st_ptr size e = (Ok tt, emitted e new 1) /\
     count_mnemonic "pop" new = (if 0 <? size then S (Z.to_nat size) else 0%nat) /\
     count_mnemonic "psh" new = 0%nat).
Proof.
  split.
  - unfold ld_ptr.
    destruct (begin_instruction_emitted "ld_ptr" e eq_refl) as (l0 & Hbegin & Hpsh0 & Hpop0).
    unfold mbind, StateM_bind, mret, StateM_ret. rewrite Hbegin.
    destruct (Z.ltb_spec 0 size) as [Hpos | Hneg].
    + rewrite _emit_emitted, emitted_emitted.
      destruct (Z.eqb_spec size 1) as [-> | Hne].
      * rewrite !_emit_emitted, !emitted_emitted, end_instruction_emitted, emitted_emitted.
        eexists. split; [reflexivity |].
        rewrite !count_mnemonic_app, Hpsh0, Hpop0. count. split; reflexivity.
      * rewrite _emit_emitted, emitted_emitted.
        rewrite (for_each_emitted _ _
                   (fun i => (if negb (i =? 0) then [["sub"; "R1"; "R1"; "1"]] else [])
                             ++ [["lod"; "R2"; "R1"]; ["psh"; "R2"]])%list).
        -- rewrite emitted_emitted, end_instruction_emitted, emitted_emitted.
           eexists. split; [reflexivity |].
           rewrite !count_mnemonic_app, Hpsh0, Hpop0.
           rewrite (count_mnemonic_concat "pop" _ _ 0), (count_mnemonic_concat "psh" _ _ 1).
           ++ rewrite length_range. count. split; lia.
           ++ intros i. destruct (negb _); reflexivity.
           ++ intros i. destruct (negb _); reflexivity.
        -- intros i e0. destruct (negb _); rewrite !_emit_emitted, ?emitted_emitted;
             reflexivity.
    + rewrite end_instruction_emitted, emitted_emitted.
      eexists. split; [reflexivity |]. rewrite app_nil_r, Hpsh0, Hpop0. split; lia.
  - unfold st_ptr.
    destruct (begin_instruction_emitted "st_ptr" e eq_refl) as (l0 & Hbegin & Hpsh0 & Hpop0).
    unfold mbind, StateM_bind, mret, StateM_ret. rewrite Hbegin.
    destruct (Z.ltb_spec 0 size) as [Hpos | Hneg].
    + rewrite _emit_emitted, emitted_emitted.
      rewrite (for_each_emitted _ _
                 (fun i => (if negb (i =? 0) then [["add"; "R1"; "R1"; "1"]] else [])
                           ++ [["pop"; "R2"]; ["str"; "R1"; "R2"]])%list).
      * rewrite emitted_emitted, end_instruction_emitted, emitted_emitted.
        eexists. split; [reflexivity |].
        rewrite !count_mnemonic_app, Hpsh0, Hpop0.
        rewrite (count_mnemonic_concat "pop" _ _ 1), (count_mnemonic_concat "psh" _ _ 0).
        -- rewrite length_range. count. split; lia.
        -- intros i. destruct (negb _); reflexivity.
        -- intros i. destruct (negb _); reflexivity.
      * intros i e0. destruct (negb _); rewrite !_emit_emitted, ?emitted_emitted; reflexivity.
    + rewrite end_instruction_emitted, emitted_emitted.
      eexists. split; [reflexivity |]. rewrite app_nil_r, Hpsh0, Hpop0. split; lia.
Qed.

(** ** The labels that [LabelOptimizer] removes *)

Lemma remove_unused_filter (uses : string -> nat) (l2 : list Instruction) :
  forall (kept : list Instruction) (n offset : nat) (rerun : bool)
         (labels : list (string * nat)),
  Forall (fun inst => inst <> []) l2 ->
  collect_labels l2 n = Ok labels ->
  n = (offset + length kept)%nat ->
  remove_unused (map (fun '(name, index) => (name, index, uses name)) labels) offset rerun
    (kept ++ l2)%list =
  (Ok (rerun || existsb (fun inst => Py.startswith (hd EmptyString inst) ".__"
                                     && (uses (hd EmptyString inst) =? 0)%nat) l2)%bool,
   (kept ++ List.filter (fun inst => negb (Py.startswith (hd EmptyString inst) ".__"
                                          && (uses (hd EmptyString inst) =? 0)%nat)) l2)%list).
Proof.
  unfold Instruction in *.
  induction l2 as [| inst l2 IH]; intros kept n offset rerun labels Hl Hlabels Hn.
  - simpl in Hlabels. injection Hlabels as <-. simpl. rewrite orb_false_r. reflexivity.
  - apply Forall_cons in Hl as [Hinst Hl]. destruct inst as [| op rest]; [contradiction |].
    cbn [collect_labels tok lookup] in Hlabels. simpl in Hlabels.
    unfold mbind, result_bind, mret, result_ret in Hlabels.
    destruct (collect_labels l2 (S n)) as [labels' | err] eqn:Hrest; [| discriminate].
    injection Hlabels as <-.
    cbn [existsb List.filter hd].
    destruct (Py.startswith op ".__") eqn:Hstart; cbn [andb].
    + cbn [map remove_unused]. destruct (uses op =? 0)%nat eqn:Huses; cbn [negb].
      * unfold mbind, StateM_bind, insts_pop.
        replace (n - offset)%nat with (length kept) by lia.
        rewrite length_app. cbn [length].
        replace (length kept <? length kept + S (length l2))%nat with true
          by (symmetry; apply Nat.ltb_lt; lia).
        replace (delete (length kept) (kept ++ (op :: rest) :: l2)%list) with (kept ++ l2)%list.
        -- rewrite (IH kept (S n) (S offset) true labels' Hl Hrest) by lia.
           rewrite orb_true_r. reflexivity.
        -- clear. induction kept as [| k kept IHk]; [reflexivity |]. simpl. f_equal. exact IHk.
      * replace (kept ++ (op :: rest) :: l2)%list with ((kept ++ [op :: rest]) ++ l2)%list
          by (rewrite <- app_assoc; reflexivity).
        rewrite (IH (kept ++ [op :: rest])%list (S n) offset rerun labels' Hl Hrest)
          by (rewrite length_app; simpl; lia).
        rewrite <- app_assoc. reflexivity.
    + replace (kept ++ (op :: rest) :: l2)%list with ((kept ++ [op :: rest]) ++ l2)%list
        by (rewrite <- app_assoc; reflexivity).
      rewrite (IH (kept ++ [op :: rest])%list (S n) offset rerun labels' Hl Hrest)
        by (rewrite length_app; simpl; lia).
      rewrite <- app_assoc. reflexivity.
Qed.

Lemma collect_labels_nonempty (l : list Instruction) (n : nat) :
  Forall (fun inst => inst <> []) l -> exists labels, collect_labels l n = Ok labels.
Proof.
  intros Hl. revert n. induction Hl as [| inst l Hinst _ IH]; intros n; [eexists; reflexivity |].
  destruct inst as [| op rest]; [contradiction |].
  cbn [collect_labels]. simpl. destruct (IH (S n)) as [labels ->]. eexists. reflexivity.
Qed.

(** X21.  [LabelOptimizer] removes the labels that start with [.__] and that
    no operand names, all of them in one call, and nothing else: what is
    left is the list without them, in the same order, and the answer tells
    whether there was one. *)
Theorem LabelOptimizer_removes_unused (l : list Instruction) :
  Forall (fun inst => inst <> []) l ->
  LabelOptimizer_optimize l =
    (Ok (existsb (unused_label l) l), List.filter (fun inst => negb (unused_label l inst)) l).
Proof.
  intros Hl. unfold LabelOptimizer_optimize, mbind, StateM_bind, get, lift.
  destruct (collect_labels_nonempty l 0 Hl) as [labels Hlabels]. rewrite Hlabels.
  exact (remove_unused_filter (count_uses l) l [] 0 0 false labels Hl Hlabels eq_refl).
Qed.

Lemma LabelOptimizer_removes_unused_witness :
  let l := [[".__a"]; ["jmp"; ".__b"]; [".__b"]; ["ret"]] in
  Forall (fun inst => inst <> []) l /\
  LabelOptimizer_optimize l = (Ok true, [["jmp"; ".__b"]; [".__b"]; ["ret"]]).
Proof.
  intros l.
  assert (Hl : Forall (fun inst : Instruction => inst <> []) l)
    by (repeat constructor; discriminate).
  split; [exact Hl | exact (LabelOptimizer_removes_unused l Hl)].
Defined.

(** ** The intrinsics of [gb.py] *)

Lemma fold_insert_lookup (functions : list Callable) (m : gmap string Callable)
    (name : string) :
  fold_left (fun m func => <[Callable_GetName func := func]> m) functions m !! name =
  match fold_left (fun (m : gmap string Callable) func => <[Callable_GetName func := func]> m)
          functions ∅ !! name with
  | Some func => Some func
  | None => m !! name
  end.
Proof.
  revert m. induction functions as [| func functions IH]; intros m; [reflexivity |].
  cbn [fold_left]. rewrite (IH (<[Callable_GetName func := func]> m)),
    (IH (<[Callable_GetName func := func]> ∅)).
  destruct (fold_left _ functions ∅ !! name); [reflexivity |].
  destruct (decide (Callable_GetName func = name)) as [<- | Hne].
  - rewrite !lookup_insert_eq. reflexivity.
  - rewrite !lookup_insert_ne by exact Hne. rewrite lookup_empty. reflexivity.
Qed.

Lemma GetFunction_additional (self : Module_) (types : list Type_)
    (additional : list Callable) (name : string) :
  Resolver_GetFunction (Module_GetResolver self types additional) name =
  match Resolver_GetFunction (Resolver_init types additional) name with
  | Ok func => Ok func
  | Raise err => Resolver_GetFunction (Resolver_init [] (Module_code self)) name
  end.
Proof.
  unfold Resolver_GetFunction, Module_GetResolver, Resolver_init. cbn [_functions].
  rewrite fold_left_app, fold_insert_lookup.
  destruct (fold_left _ additional ∅ !! name); reflexivity.
Qed.

(** X22.  Every operator of the parser has an intrinsic in [gb.py] for two
    operands of the same default type, [Integer] or [UInteger]: the name
    that [GetOperationName] builds is found by the resolver that [gb.py]
    asks the module for, and what is found is the inline intrinsic of
    [gb.py] with that type for result, also when the module defines a
    function of that name. *)
Theorem operator_intrinsics (self : Module_) (operator : string) (type : Type_)
    (exprA exprB : Expression) :
  In operator operator_keys -> In type defaultTypes ->
  Expression_GetResultType exprA = Ok (TypeObj type) ->
  Expression_GetResultType exprB = Ok (TypeObj type) ->
  exists name mnemonic,
    Binary_GetOperationName operator exprA exprB = Ok name /\
    Resolver_GetFunction (Module_GetResolver self defaultTypes defaultFunctions) name =
      Ok (intrinsic name type mnemonic).
Proof.
  intros Hop Htype HA HB. unfold Binary_GetOperationName. rewrite HA, HB.
  simpl in Hop, Htype.
  destruct Htype as [<- | [<- | []]];
    repeat (destruct Hop as [<- | Hop];
            [eexists _, _; split; [vm_compute; reflexivity |];
             rewrite GetFunction_additional; vm_compute; reflexivity |]);
    destruct Hop.
Qed.

(** X23.  [gb.py] defines no intrinsic for operands of two different default
    types: the name that [GetOperationName] builds for them is found only if
    the module itself defines a function of that name, and is an undefined
    function otherwise. *)
Theorem mixed_operands_have_no_intrinsic (self : Module_) (operator : string)
    (typeA typeB : Type_) (exprA exprB : Expression) :
  In operator operator_keys -> In typeA defaultTypes -> In typeB defaultTypes ->
  typeA <> typeB ->
  Expression_GetResultType exprA = Ok (TypeObj typeA) ->
  Expression_GetResultType exprB = Ok (TypeObj typeB) ->
  exists name,
    Binary_GetOperationName operator exprA exprB = Ok name /\
    Resolver_GetFunction (Resolver_init defaultTypes defaultFunctions) name =
      Raise (Exception ("Undefined function " ++ dq ++ name ++ dq ++ ".")) /\
    Resolver_GetFunction (Module_GetResolver self defaultTypes defaultFunctions) name =
      Resolver_GetFunction (Resolver_init [] (Module_code self)) name.
Proof.
  intros Hop HtypeA HtypeB Hne HA HB. unfold Binary_GetOperationName. rewrite HA, HB.
  simpl in Hop, HtypeA, HtypeB.
  destruct HtypeA as [<- | [<- | []]]; destruct HtypeB as [<- | [<- | []]];
    try contradiction;
    repeat (destruct Hop as [<- | Hop];
            [eexists; split; [vm_compute; reflexivity |];
             split; [vm_compute; reflexivity |];
             rewrite GetFunction_additional; reflexivity |]);
    destruct Hop.
Qed.

(** X24.  The casts that [gb.py] defines are those between the two default
    types: a cast to the other type resolves to an inline body without
    instructions, and a cast of a value to the type it has names a function
    that only the module can define. *)
Theorem cast_intrinsics (self : Module_) (typeFrom typeTo : Type_) (expr : Expression) :
  In typeFrom defaultTypes -> In typeTo defaultTypes ->
  Expression_GetResultType expr = Ok (TypeObj typeFrom) ->
  exists name,
    Cast_GetOperationName (TypeObj typeTo) expr = Ok name /\
    Resolver_GetFunction (Module_GetResolver self defaultTypes defaultFunctions) name =
      if Type_eq typeFrom typeTo
      then Resolver_GetFunction (Resolver_init [] (Module_code self)) name
      else Ok (InlineBody name (TypeObj typeTo) []).
Proof.
  intros Hfrom Hto Hexpr. unfold Cast_GetOperationName. rewrite Hexpr.
  simpl in Hfrom, Hto.
  destruct Hfrom as [<- | [<- | []]]; destruct Hto as [<- | [<- | []]];
    (eexists; split; [vm_compute; reflexivity |]);
    rewrite GetFunction_additional; reflexivity.
Qed.

Lemma operator_intrinsics_witness :
  In "<<" operator_keys /\ In SignedInteger defaultTypes /\
  exists name mnemonic,
    Binary_GetOperationName "<<" (ConstantExpression 1 (TypeObj SignedInteger))
      (ConstantExpression 2 (TypeObj SignedInteger)) = Ok name /\
    Resolver_GetFunction (Module_GetResolver (mkModule "main" [] []) defaultTypes
                            defaultFunctions) name =
      Ok (intrinsic name SignedInteger mnemonic).
Proof.
  assert (Hop : In "<<" operator_keys) by (simpl; tauto).
  assert (Htype : In SignedInteger defaultTypes) by (simpl; tauto).
  split; [exact Hop | split; [exact Htype |]].
  exact (operator_intrinsics (mkModule "main" [] []) "<<" SignedInteger
           (ConstantExpression 1 (TypeObj SignedInteger))
           (ConstantExpression 2 (TypeObj SignedInteger)) Hop Htype eq_refl eq_refl).
Defined.

Lemma mixed_operands_have_no_intrinsic_witness :
  In "+" operator_keys /\ In SignedInteger defaultTypes /\ In UnsignedInteger defaultTypes /\
  SignedInteger <> UnsignedInteger /\
  exists name,
    Binary_GetOperationName "+" (ConstantExpression 1 (TypeObj SignedInteger))
      (ConstantExpression 2 (TypeObj UnsignedInteger)) = Ok name /\
    Resolver_GetFunction (Resolver_init defaultTypes defaultFunctions) name =
      Raise (Exception ("Undefined function " ++ dq ++ name ++ dq ++ ".")) /\
    Resolver_GetFunction (Module_GetResolver (mkModule "main" [] []) defaultTypes
                            defaultFunctions) name =
      Resolver_GetFunction (Resolver_init [] (Module_code (mkModule "main" [] []))) name.
Proof.
  assert (Hop : In "+" operator_keys) by (simpl; tauto).
  assert (HA : In SignedInteger defaultTypes) by (simpl; tauto).
  assert (HB : In UnsignedInteger defaultTypes) by (simpl; tauto).
  assert (Hne : SignedInteger <> UnsignedInteger) by discriminate.
  split; [exact Hop | split; [exact HA | split; [exact HB | split; [exact Hne |]]]].
  exact (mixed_operands_have_no_intrinsic (mkModule "main" [] []) "+" SignedInteger
           UnsignedInteger (ConstantExpression 1 (TypeObj SignedInteger))
           (ConstantExpression 2 (TypeObj UnsignedInteger)) Hop HA HB Hne eq_refl eq_refl).
Defined.

Lemma cast_intrinsics_witness :
  In SignedInteger defaultTypes /\ In UnsignedInteger defaultTypes /\
  exists name,
    Cast_GetOperationName (TypeObj UnsignedInteger)
      (ConstantExpression 1 (TypeObj SignedInteger)) = Ok name /\
    Resolver_GetFunction (Module_GetResolver (mkModule "main" [] []) defaultTypes
                            defaultFunctions) name =
      if Type_eq SignedInteger UnsignedInteger
      then Resolver_GetFunction (Resolver_init [] (Module_code (mkModule "main" [] []))) name
      else Ok (InlineBody name (TypeObj UnsignedInteger) []).
Proof.
  assert (HA : In SignedInteger defaultTypes) by (simpl; tauto).
  assert (HB : In UnsignedInteger defaultTypes) by (simpl; tauto).
  split; [exact HA | split; [exact HB |]].
  exact (cast_intrinsics (mkModule "main" [] []) SignedInteger UnsignedInteger
           (ConstantExpression 1 (TypeObj SignedInteger)) HA HB eq_refl).
Defined.

(** ** Witnesses of the general properties *)

Lemma verification_never_fails_witness :
  _optimizers (emitter_with [["psh"; "R1"]; ["ret"]]) = default_optimizers /\
  commit (emitter_with [["psh"; "R1"]; ["ret"]]) [] =
    Some (Ok tt, emitter_with [["psh"; "R1"]; ["ret"]], ["psh R1" ++ newline; "ret" ++ newline]) /\
  Ok tt <> Raise stack_not_empty.
Proof.
  assert (H : commit (emitter_with [["psh"; "R1"]; ["ret"]]) [] =
              Some (Ok tt, emitter_with [["psh"; "R1"]; ["ret"]],
                    ["psh R1" ++ newline; "ret" ++ newline])) by (vm_compute; reflexivity).
  split; [reflexivity | split; [exact H |]].
  exact (verification_never_fails (emitter_with [["psh"; "R1"]; ["ret"]]) _ _ _ _ eq_refl H).
Defined.

Lemma emit_locals_reserves_witness :
  Forall2 reserved_size (Callable_locals sub_with_plain_local) [1] /\
  emit_locals sub_with_plain_local (URCLEmitter_init false true default_optimizers) =
    for_each [1] add_sp (URCLEmitter_init false true default_optimizers).
Proof.
  assert (H : Forall2 reserved_size (Callable_locals sub_with_plain_local) [1])
    by (repeat constructor).
  split; [exact H | exact (emit_locals_reserves sub_with_plain_local [1]
                            (URCLEmitter_init false true default_optimizers) H)].
Defined.

Lemma emit_locals_raises_witness :
  Callable_locals sub_with_initialized_local =
    ([] ++ mkLocal 1 (TypeObj SignedInteger) "x" (Some 5) :: [])%list /\
  emit_locals sub_with_initialized_local (URCLEmitter_init false true default_optimizers) =
    (Raise (TypeError "'int' object is not iterable"),
     snd (for_each [] add_sp (URCLEmitter_init false true default_optimizers))).
Proof.
  split; [reflexivity |].
  exact (emit_locals_raises sub_with_initialized_local [] []
           (mkLocal 1 (TypeObj SignedInteger) "x" (Some 5)) [] 5 1
           (URCLEmitter_init false true default_optimizers) eq_refl
           (List.Forall2_nil _) eq_refl eq_refl).
Defined.

Lemma parse_expression_never_shifts_witness :
  parse_expression "a + b" =
    Ok (BinaryOperandExpression "+" (VariableExpression (VarName "a"))
          (VariableExpression (VarName "b")) None) /\
  ~ In "<<" ["+"] /\ ~ In ">>" ["+"].
Proof.
  assert (H : parse_expression "a + b" =
              Ok (BinaryOperandExpression "+" (VariableExpression (VarName "a"))
                    (VariableExpression (VarName "b")) None)) by (vm_compute; reflexivity).
  split; [exact H | exact (parse_expression_never_shifts "a + b" _ H)].
Defined.

Lemma parse_value_lowercase_prefix_witness :
  In "x"%char ["x"; "o"; "b"]%char /\
  parse_value "0x10" <> Ok 16 /\ parse_value "-0x10" <> Ok 16.
Proof.
  assert (H : In "x"%char ["x"; "o"; "b"]%char) by (simpl; tauto).
  split; [exact H | exact (parse_value_lowercase_prefix "x" "10" 16 H)].
Defined.

(** ** Emission only appends *)

Lemma appends_ret {A : Type} (a : A) : appends (mret a).
Proof. intros e. exists [], 0. rewrite emitted_nothing. split; [reflexivity | lia]. Qed.

Lemma appends_raise {A : Type} (err : PyError) : appends (raise (A := A) err).
Proof. intros e. exists [], 0. rewrite emitted_nothing. split; [reflexivity | lia]. Qed.

Lemma appends_lift {A : Type} (r : result A) : appends (lift r).
Proof. intros e. exists [], 0. rewrite emitted_nothing. split; [reflexivity | lia]. Qed.

Lemma appends_bind {A B : Type} (m : EmitM A) (f : A -> EmitM B) :
  appends m -> (forall a, appends (f a)) -> appends (m ≫= f).
Proof.
  intros Hm Hf e. unfold mbind, StateM_bind. destruct (Hm e) as (l1 & n1 & H1 & Hn1).
  destruct (m e) as [[a | err] e1]; simpl in H1; subst e1.
  - destruct (Hf a (emitted e l1 n1)) as (l2 & n2 & H2 & Hn2).
    exists (l1 ++ l2)%list, (n1 + n2). rewrite H2, emitted_emitted. split; [reflexivity | lia].
  - exists l1, n1. auto.
Qed.

Lemma appends_for_each {A : Type} (xs : list A) (body : A -> EmitM unit) :
  Forall (fun x => appends (body x)) xs -> appends (for_each xs body).
Proof.
  induction 1 as [| x xs Hx _ IH]; [apply appends_ret |].
  change (for_each (x :: xs) body) with (body x ;; for_each xs body).
  apply appends_bind; [exact Hx | intros _; exact IH].
Qed.

Lemma appends_fold_each {A B : Type} (xs : list A) (acc : B) (body : B -> A -> EmitM B) :
  Forall (fun x => forall acc, appends (body acc x)) xs -> appends (fold_each xs acc body).
Proof.
  intros H. revert acc. induction H as [| x xs Hx _ IH]; intros acc; [apply appends_ret |].
  change (fold_each (x :: xs) acc body) with (acc' ← body acc x; fold_each xs acc' body).
  apply appends_bind; [apply Hx | intros acc'; apply IH].
Qed.

Lemma appends__emit (args : list (option string)) : appends (_emit args).
Proof. intros e. rewrite _emit_emitted. eexists _, 0. split; [reflexivity | lia]. Qed.

Lemma appends_end_instruction : appends end_instruction.
Proof.
  intros e. rewrite end_instruction_emitted. eexists _, 1. split; [reflexivity | lia].
Qed.

Lemma appends_begin_instruction (caller : string) : appends (begin_instruction caller).
Proof.
  intros e. unfold begin_instruction.
  assert (H : appends ((if _showIL e then comment caller else mret tt) ;;
                       _emit [Some (_target (TInt (_current e)) false)])).
  { apply appends_bind; [| intros _; apply appends__emit].
    destruct (_showIL e); [| apply appends_ret].
    unfold comment. destruct (Py.split " " caller); [apply appends_raise | apply appends__emit]. }
  exact (H e).
Qed.

Ltac appends_base :=
  repeat first
    [ apply appends_ret | apply appends_raise | apply appends_lift | apply appends__emit
    | apply appends_end_instruction | apply appends_begin_instruction
    | apply appends_bind; [| intro]
    | apply appends_for_each; apply Forall_forall; intros ? ?
    | match goal with
      | |- appends (if ?b then _ else _) => destruct b
      | |- appends (match ?x with _ => _ end) => destruct x
      end ].

Lemma appends_push (n : Z) : appends (push n).
Proof. unfold push. appends_base. Qed.
Lemma appends_add : appends add.
Proof. unfold add, binary. appends_base. Qed.
Lemma appends_sub : appends sub.
Proof. unfold sub, binary. appends_base. Qed.
Lemma appends_ld_ptr (size : Z) : appends (ld_ptr size).
Proof. unfold ld_ptr. appends_base. Qed.
Lemma appends_st_ptr (size : Z) : appends (st_ptr size).
Proof. unfold st_ptr. appends_base. Qed.
Lemma appends_ld_bp : appends ld_bp.
Proof. unfold ld_bp. appends_base. Qed.
Lemma appends_st_bp : appends st_bp.
Proof. unfold st_bp. appends_base. Qed.
Lemma appends_ld_sp : appends ld_sp.
Proof. unfold ld_sp. appends_base. Qed.
Lemma appends_st_sp : appends st_sp.
Proof. unfold st_sp. appends_base. Qed.
Lemma appends_add_sp (n : Z) : appends (add_sp n).
Proof. unfold add_sp. appends_base. Qed.
Lemma appends_rem_sp (n : Z) : appends (rem_sp n).
Proof. unfold rem_sp. appends_base. Qed.
Lemma appends_call (t : Target) : appends (call t).
Proof. unfold call. appends_base. Qed.
Lemma appends_jmp (t : Target) : appends (jmp t).
Proof. unfold jmp. appends_base. Qed.
Lemma appends_ret_ : appends ret.
Proof. unfold ret. appends_base. Qed.
Lemma appends_emit_raw (operation : string) (operands : list string) :
  appends (emit_raw operation operands).
Proof. unfold emit_raw. appends_base. Qed.
Lemma appends_mark_label (label : Label) : appends (mark_label label).
Proof.
  unfold mark_label, _emit_label. appends_base.
  intros e. exists [], 0. rewrite emitted_nothing. split; [reflexivity | lia].
Qed.

Ltac appends_step :=
  first
    [ apply appends_ret | apply appends_raise | apply appends_lift | apply appends__emit
    | apply appends_push | apply appends_add | apply appends_sub | apply appends_ld_ptr
    | apply appends_st_ptr | apply appends_ld_bp | apply appends_st_bp | apply appends_ld_sp
    | apply appends_st_sp | apply appends_add_sp | apply appends_rem_sp | apply appends_call
    | apply appends_jmp | apply appends_ret_ | apply appends_emit_raw
    | apply appends_mark_label
    | apply appends_bind; [| intro]
    | apply appends_for_each; apply Forall_forall; intros ? ?
    | match goal with
      | |- appends (if ?b then _ else _) => destruct b
      | |- appends (match ?x with _ => _ end) => destruct x
      end ].

Ltac appends_ops := repeat appends_step.

Lemma appends_Variable_EmitLoadAddress (self : Variable_) (context : Callable) :
  appends (Variable_EmitLoadAddress self context).
Proof.
  revert self. fix IH 1. intros [[[v |] type name index offset] | p | l | r]; cbn.
  - apply appends_bind; [apply IH | intro; appends_ops].
  - appends_ops.
  - unfold Parameter_EmitLoadAddress. appends_ops.
  - unfold Local_EmitLoadAddress. appends_ops.
  - unfold ReturnVariable_EmitLoadAddress. appends_ops.
Qed.

Lemma appends_Variable_EmitLoad (self : Variable_) (context : Callable) :
  appends (Variable_EmitLoad self context).
Proof.
  destruct self; cbn [Variable_EmitLoad]; appends_ops;
    first [apply appends_Variable_EmitLoadAddress | appends_ops].
Qed.

Lemma appends_Variable_EmitStore (self : Variable_) (context : Callable) :
  appends (Variable_EmitStore self context).
Proof.
  destruct self; cbn [Variable_EmitStore]; appends_ops;
    first [apply appends_Variable_EmitLoadAddress | appends_ops].
Qed.

Ltac appends_vars :=
  repeat first
    [ apply appends_Variable_EmitLoadAddress | apply appends_Variable_EmitLoad
    | apply appends_Variable_EmitStore | appends_step ].

Lemma appends_Expression_Statement :
  (forall e context, appends (Expression_Emit e context)) /\
  (forall s context, appends (Statement_Emit s context)).
Proof.
  assert (He : forall e context, appends (Expression_Emit e context)).
  { fix IHe 1 with (IHs (s : Statement) : forall context, appends (Statement_Emit s context));
      [intros e context; destruct e as [| value type | target | op a call | op a b call
                                        | type a call | target addressOf args | s]
      | intros s context; destruct s as [l | target expr | expr | source | source
                                       | operation operands | expr]];
      cbn [Expression_Emit Statement_Emit].
    - appends_vars.
    - appends_vars.
    - destruct target; appends_vars.
    - destruct call as [c |]; [apply IHe | appends_vars].
    - destruct call as [c |]; [apply IHe | appends_vars].
    - destruct call as [c |]; [apply IHe | appends_vars].
    - destruct addressOf.
      + destruct args as [| expr [| ? ?]]; [appends_vars | | appends_vars].
        destruct expr; appends_vars.
      + destruct target as [name | c]; [appends_vars |].
        assert (Hargs : Forall (fun arg => forall context, appends (Expression_Emit arg context)) args).
        { induction args as [| arg args IH]; constructor; [apply IHe | exact IH]. }
        destruct c as [name returnType body | | ].
        * apply appends_bind.
          -- apply appends_for_each. eapply Forall_impl; [exact Hargs | intros arg H; apply H].
          -- intros _. apply appends_for_each.
             assert (Hbody : Forall (fun statement =>
                       forall context, appends (Statement_Emit statement context)) body).
             { induction body as [| statement body IH]; constructor; [apply IHs | exact IH]. }
             eapply Forall_impl; [exact Hbody | intros statement H; apply H].
        * appends_vars.
          apply appends_fold_each. eapply Forall_impl; [exact Hargs |].
          intros arg H acc. appends_vars; apply H.
        * appends_vars.
          apply appends_fold_each. eapply Forall_impl; [exact Hargs |].
          intros arg H acc. appends_vars; apply H.
    - appends_vars.
    - appends_vars.
    - appends_vars; apply IHe.
    - appends_vars; apply IHe.
    - appends_vars.
    - appends_vars.
    - appends_vars.
    - appends_vars; apply IHe. }
  split; [exact He |].
  intros s context.
  destruct s as [l | target expr | expr | source | source | operation operands | expr];
    cbn [Statement_Emit]; appends_vars; apply He.
Qed.

Lemma appends_Callable_Emit (self : Callable) : appends (Callable_Emit self).
Proof.
  pose proof appends_Expression_Statement as [_ Hs].
  destruct self as [name returnType body | name namedArgs body
                    | name namedArgs returnType body];
    unfold Callable_Emit, emit_locals, emit_local; appends_ops; apply Hs.
Qed.

(** X25. Emitting a module only appends to the emitter.  Whether
    [Module.Emit] returns or raises part of the way, the instructions that
    were there before are still there, in front of the new ones, the counter
    of instructions has not gone back, and the counter of internal labels
    and the settings of the emitter are as they were. *)
Theorem emission_only_appends (self : Module_) (e : URCLEmitter) :
  exists new steps, snd (Module_Emit self e) = emitted e new steps /\ 0 <= steps.
Proof.
  revert e. change (appends (Module_Emit self)). unfold Module_Emit.
  apply appends_for_each, Forall_forall. intros code _. apply appends_Callable_Emit.
Qed.

(** ** Expressions straight from the parser *)

Lemma pop_arguments_Forall (P : Expression -> Prop)
    (stack args stack' args' : list Expression) :
  pop_arguments stack args = Ok (stack', args') ->
  Forall P stack -> Forall P args -> Forall P stack' /\ Forall P args'.
Proof.
  revert args. induction stack as [| top stack IH]; intros args; [discriminate |].
  intros H Hstack Hargs. pose proof Hstack as Hall.
  apply Forall_cons in Hstack as [Htop Hstack].
  assert (Hnext : Forall P (args ++ [top])%list).
  { apply Forall_app. split; [exact Hargs | repeat constructor; exact Htop]. }
  assert (Hmove : match stack with
                  | [] => Raise (Exception "Missing argument list terminator.")
                  | _ => pop_arguments stack (args ++ [top])%list
                  end = Ok (stack', args') -> Forall P stack' /\ Forall P args').
  { destruct stack as [| e stack1]; [discriminate |]. intros H1. exact (IH _ H1 Hstack Hnext). }
  cbn [pop_arguments] in H.
  destruct top; try exact (Hmove H).
  repeat (match type of H with
          | match ?x with _ => _ end = _ => destruct x
          | (if ?b then _ else _) = _ => destruct b
          end; try exact (Hmove H)).
  all: injection H as <- <-; split; assumption.
Qed.

Lemma unresolved_by_name (l : list Expression) :
  Forall unresolved l -> Forall (fun e => by_name e = true) l.
Proof. intros H. eapply Forall_impl; [exact H |]. intros e [He _]. exact He. Qed.

Lemma reduce_unresolved (stack stack' : list Expression) (token : string) :
  reduce stack token = Ok stack' -> Forall unresolved stack -> Forall unresolved stack'.
Proof.
  unfold reduce. intros H Hstack. revert H.
  destruct (String.eqb token ")").
  { intros H. injection H as <-. constructor; [split; constructor | exact Hstack]. }
  destruct (isOperator token).
  { destruct (String.eqb (Py.upper token) "AS").
    - destruct stack as [| type [| expr stack1]]; [discriminate | discriminate |].
      destruct type; try discriminate.
      intros H. injection H as <-.
      apply Forall_cons in Hstack as [_ Hstack]. apply Forall_cons in Hstack as [_ Hstack].
      constructor; [split; constructor | exact Hstack].
    - unfold mbind, result_bind. destruct (operator_entry token) as [entry |]; [| discriminate].
      destruct (_ =? _)%Z.
      + destruct stack as [| expr stack1]; [discriminate |].
        intros H. injection H as <-. apply Forall_cons in Hstack as [_ Hstack].
        constructor; [split; constructor | exact Hstack].
      + destruct (_ =? _)%Z; [| intros H; injection H as <-; exact Hstack].
        destruct stack as [| argB [| argA stack1]]; [discriminate | discriminate |].
        intros H. injection H as <-.
        apply Forall_cons in Hstack as [_ Hstack]. apply Forall_cons in Hstack as [_ Hstack].
        constructor; [split; constructor | exact Hstack]. }
  destruct (_ && _)%bool.
  { destruct stack as [| top stack1] eqn:Hst; [discriminate |].
    unfold mbind, result_bind.
    destruct (pop_arguments (top :: stack1) []) as [[stack2 args] |] eqn:Hpop; [| discriminate].
    intros H. injection H as <-.
    destruct (pop_arguments_Forall _ _ _ _ _ Hpop Hstack ltac:(constructor)) as [H1 H2].
    constructor.
    - split; [reflexivity |]. cbn. apply Forall_rev, unresolved_by_name, H2.
    - destruct stack2; [constructor |]. apply Forall_cons in H1 as [_ H1]. exact H1. }
  unfold mbind, result_bind, try_except.
  destruct (parse_value token); intros H; injection H as <-;
    (constructor; [split; constructor | exact Hstack]).
Qed.

Lemma fold_reduce_unresolved (queue : list string) (stack stack' : list Expression) :
  fold_result reduce queue stack = Ok stack' ->
  Forall unresolved stack -> Forall unresolved stack'.
Proof.
  revert stack. induction queue as [| token queue IH]; intros stack; simpl.
  - intros H. injection H as <-. auto.
  - unfold mbind, result_bind. destruct (reduce stack token) as [stack1 |] eqn:Hreduce;
      [| discriminate].
    intros H Hstack. exact (IH _ H (reduce_unresolved _ _ _ Hreduce Hstack)).
Qed.

Lemma parse_expression_unresolved (line : string) (e : Expression) :
  parse_expression line = Ok e -> unresolved e.
Proof.
  unfold parse_expression, mbind, result_bind.
  destruct (fold_result shunt _ _) as [st |]; [| discriminate].
  destruct (drain _ _) as [queue |]; [| discriminate].
  destruct (fold_result reduce queue []) as [stack |] eqn:Hreduce; [| discriminate].
  destruct stack as [| e' [| ? ?]]; try discriminate.
  intros H. injection H as <-.
  pose proof (fold_reduce_unresolved _ _ _ Hreduce ltac:(constructor)) as Hall.
  apply Forall_cons in Hall as [He _]. exact He.
Qed.

Lemma unresolved_emit (e : Expression) (context : Callable) (emitter : URCLEmitter) :
  unresolved e ->
  (exists value, e = ConstantExpression value (TypeName "Integer")) \/
  (exists err, Expression_Emit e context emitter = (Raise err, emitter)).
Proof.
  intros [Hroot Hargs].
  destruct e as [| value type | [name | v |] | op a [c |] | op a b [c |] | type a [c |]
                 | [name | c] addressOf args | s]; try discriminate.
  - left. subst type. eauto.
  - right. eexists. reflexivity.
  - right. eexists. reflexivity.
  - right. eexists. reflexivity.
  - right. eexists. reflexivity.
  - right. cbn [Expression_Emit]. destruct addressOf; [| eexists; reflexivity].
    destruct args as [| expr [| ? ?]]; [eexists; reflexivity | | eexists; reflexivity].
    apply Forall_cons in Hargs as [Hexpr _].
    destruct expr as [| | [? | ? |] | | | | |]; try discriminate; eexists; reflexivity.
  - right. eexists. reflexivity.
Qed.

(** X26. Straight from the parser, only a literal can be emitted.  For
    every line that [parse_expression] accepts, the expression it returns is
    either a constant, or [Emit] on it raises before any instruction is
    emitted, whatever the callable it is emitted in: its variables, callables
    and operators are still names until [Resolve] has run. *)
Theorem parsed_expression_needs_resolving (line : string) (e : Expression)
    (context : Callable) (emitter : URCLEmitter) :
  parse_expression line = Ok e ->
  (exists value, e = ConstantExpression value (TypeName "Integer")) \/
  (exists err, Expression_Emit e context emitter = (Raise err, emitter)).
Proof.
  intros H. pose proof (parse_expression_unresolved _ _ H) as He.
  exact (unresolved_emit e context emitter He).
Qed.

Lemma parsed_expression_needs_resolving_witness :
  let e := BinaryOperandExpression "+" (VariableExpression (VarName "x"))
             (ConstantExpression 1 (TypeName "Integer")) None in
  let emitter := URCLEmitter_init false true default_optimizers in
  (exists value, e = ConstantExpression value (TypeName "Integer")) \/
  (exists err, Expression_Emit e sub_with_plain_local emitter = (Raise err, emitter)).
Proof.
  intros e emitter.
  apply (parsed_expression_needs_resolving "x + 1" e sub_with_plain_local emitter).
  vm_compute. reflexivity.
Defined.

(** ** Comments *)

Lemma split_acc_nonempty (sep : ascii) (s cur : string) : Py.split_acc sep s cur <> [].
Proof.
  revert cur. induction s as [| c s IH]; intros cur; simpl; [discriminate |].
  destruct (Ascii.eqb c sep); [discriminate | apply IH].
Qed.

Lemma join_cons (sep part : string) (parts : list string) :
  parts <> [] -> Py.join sep (part :: parts) = part ++ sep ++ Py.join sep parts.
Proof. destruct parts; [contradiction | reflexivity]. Qed.

Lemma join_split_acc (sep : ascii) (s cur : string) :
  Py.join (String sep EmptyString) (Py.split_acc sep s cur) = Py.rev cur ++ s.
Proof.
  revert cur. induction s as [| c s IH]; intros cur; cbn [Py.split_acc].
  - simpl. symmetry. induction (Py.rev cur) as [| x r IHr]; [reflexivity |].
    rewrite append_cons, IHr. reflexivity.
  - destruct (Ascii.eqb c sep) eqn:Hc.
    + apply Ascii.eqb_eq in Hc as ->.
      rewrite join_cons by apply split_acc_nonempty. rewrite IH. reflexivity.
    + rewrite IH, rev_cons, app_assoc_string. reflexivity.
Qed.

Lemma join_split (sep : ascii) (s : string) :
  Py.join (String sep EmptyString) (Py.split sep s) = s.
Proof. unfold Py.split. rewrite join_split_acc. reflexivity. Qed.

Lemma join_prefix (sep prefix first : string) (parts : list string) :
  Py.join sep ((prefix ++ first) :: parts) = prefix ++ Py.join sep (first :: parts).
Proof.
  destruct parts as [| part parts]; [reflexivity |].
  cbn [Py.join]. rewrite app_assoc_string. reflexivity.
Qed.

Lemma omap_id_Some {A : Type} (l : list A) : omap id (map Some l) = l.
Proof. induction l as [| x l IH]; [reflexivity |]. cbn. rewrite IH. reflexivity. Qed.

Lemma lines_of_app (l1 l2 : list Instruction) :
  lines_of (l1 ++ l2) = (lines_of l1 ++ lines_of l2)%list.
Proof. unfold lines_of. rewrite List.filter_app, map_app. reflexivity. Qed.

(** X27. A comment is written as it was given.  Without optimization,
    [commit] after [comment(text)] writes, after the lines of the
    instructions emitted before, the one line [//text]: splitting the text at
    its spaces and joining the parts again gives the text back, runs of
    spaces and all. *)
Theorem comment_written_as_given (text : string) (e : URCLEmitter) (stream : list string) :
  _optimize e = false ->
  Forall (fun inst => inst <> []) (_insts e) ->
  exists e',
    comment text e = (Ok tt, e') /\
    commit e' stream =
      Some (Ok tt, e', (stream ++ lines_of (_insts e) ++ [("//" ++ text ++ newline)%string])%list).
Proof.
  intros Hopt Hl. unfold comment.
  pose proof (join_split " " text) as Hjoin.
  destruct (Py.split " " text) as [| first parts] eqn:Hsplit;
    [exfalso; exact (split_acc_nonempty _ _ _ Hsplit) |].
  eexists. split; [reflexivity |].
  unfold commit, set_insts. simpl. rewrite Hopt, omap_id_Some.
  rewrite write_insts_nonempty.
  - rewrite lines_of_app. repeat f_equal.
    unfold lines_of. cbn [List.filter hd].
    replace (negb (String.eqb (Py.upper ("//" ++ first)) "NOP")) with true by reflexivity.
    cbn [map].
    rewrite (join_prefix " " "//" first parts), Hjoin. reflexivity.
  - apply Forall_app. split; [exact Hl | repeat constructor; discriminate].
Qed.

Lemma comment_written_as_given_witness :
  let e := mkURCLEmitter 1 0 [["psh"; "1"]] false false default_optimizers in
  _optimize e = false /\
  Forall (fun inst => inst <> []) (_insts e) /\
  exists e',
    comment "two  spaces" e = (Ok tt, e') /\
    commit e' [] =
      Some (Ok tt, e',
            ([] ++ lines_of (_insts e) ++ [("//" ++ "two  spaces" ++ newline)%string])%list).
Proof.
  intros e.
  assert (Hl : Forall (fun inst : Instruction => inst <> []) (_insts e))
    by (repeat constructor; discriminate).
  split; [reflexivity | split; [exact Hl |]].
  exact (comment_written_as_given "two  spaces" e [] eq_refl Hl).
Defined.

(** ** Equality of types *)

(** X28. The comparison [==] of types is an equivalence: every type equals
    itself, the order of the two sides does not matter, and two types equal
    to a third are equal.  This holds for pointers to pointers of any depth,
    whether what they point to is resolved or still a name. *)
Theorem Type_eq_equivalence :
  (forall a, Type_eq a a = true) /\
  (forall a b, Type_eq a b = Type_eq b a) /\
  (forall a b c, Type_eq a b = true -> Type_eq b c = true -> Type_eq a c = true).
Proof.
  split; [| split].
  - fix IH 1. intros [oid name | | | [name | type] | oid name fields]; cbn;
      [apply Nat.eqb_refl | reflexivity | reflexivity | apply String.eqb_refl | apply IH
      | apply Nat.eqb_refl].
  - fix IH 1.
    intros [oid name | | | [name | type] | oid name fields]
           [oid' name' | | | [name' | type'] | oid' name' fields']; cbn; try reflexivity;
      [apply Nat.eqb_sym | apply String.eqb_sym | apply IH | apply Nat.eqb_sym].
  - fix IH 1.
    intros [oid name | | | [name | type] | oid name fields]
           [oid' name' | | | [name' | type'] | oid' name' fields']; cbn; try discriminate;
      intros [oid'' name'' | | | [name'' | type''] | oid'' name'' fields'']; cbn;
      try discriminate; try reflexivity.
    + intros H1 H2. apply Nat.eqb_eq in H1, H2. apply Nat.eqb_eq. congruence.
    + intros H1 H2. apply String.eqb_eq in H1, H2. apply String.eqb_eq. congruence.
    + apply IH.
    + intros H1 H2. apply Nat.eqb_eq in H1, H2. apply Nat.eqb_eq. congruence.
Qed.

Lemma Type_eq_equivalence_witness :
  Type_eq (PointerType (TypeName "Point")) (PointerType (TypeName "Point")) = true /\
  Type_eq (PointerType (TypeObj SignedInteger)) (PointerType (TypeObj UnsignedInteger)) =
    Type_eq (PointerType (TypeObj UnsignedInteger)) (PointerType (TypeObj SignedInteger)) /\
  Type_eq (PointerType (TypeObj VoidType)) (PointerType (TypeObj VoidType)) = true.
Proof.
  destruct Type_eq_equivalence as (Hrefl & Hsym & Htrans).
  split; [apply Hrefl | split; [apply Hsym |]].
  apply (Htrans _ (PointerType (TypeObj VoidType))); reflexivity.
Defined.

(** ** The limit of the conversions between [int] and [str] *)

Lemma digit_facts (c : ascii) :
  Py.is_digit c = true ->
  Ascii.eqb c "_" = false /\ Py.is_int_space c = false /\
  exists d, Py.digit_value c = Some d /\ (d <? 10) = true.
Proof.
  intros H. apply is_digit_cases in H. simpl in H.
  repeat (destruct H as [<- | H];
          [split; [reflexivity | split; [reflexivity | eexists; split; reflexivity]] |]).
  destruct H.
Qed.

Lemma int_digits_all_digits (s : string) (prev : bool) (acc : Z) :
  Py.all_chars Py.is_digit s = true -> prev = true \/ s <> EmptyString ->
  exists v, Py.int_digits 10 s prev acc = Some v.
Proof.
  revert prev acc. induction s as [| c s IH]; intros prev acc Hall Hprev.
  - destruct Hprev as [-> | Hs]; [exists acc; reflexivity | contradiction].
  - simpl in Hall. apply andb_true_iff in Hall as [Hc Hs].
    destruct (digit_facts c Hc) as (Hu & _ & d & Hd & Hlt).
    cbn [Py.int_digits]. rewrite Hu, Hd, Hlt. apply IH; [exact Hs | left; reflexivity].
Qed.

Lemma digit_count_all_digits (s : string) :
  Py.all_chars Py.is_digit s = true -> Py.digit_count s = String.length s.
Proof.
  induction s as [| c s IH]; [reflexivity |]. simpl. intros Hall.
  apply andb_true_iff in Hall as [Hc Hs].
  destruct (digit_facts c Hc) as (-> & _). rewrite (IH Hs). reflexivity.
Qed.

Lemma digits_start (c : ascii) (s : string) (p : string) (c' : ascii) (p' : string) :
  Py.is_digit c = true -> Py.is_digit c' = false ->
  Py.startswith (String c s) (String c' p') = false.
Proof.
  intros Hc Hc'. unfold Py.startswith. cbn [String.prefix].
  destruct (ascii_dec c' c) as [-> | _]; [congruence | reflexivity].
Qed.

Lemma int_long_decimal (text : string) :
  Py.all_chars Py.is_digit text = true ->
  Py.max_str_digits < Z.of_nat (String.length text) ->
  Py.int text 10 = Raise (Py.exceeds_limit (String.length text)).
Proof.
  intros Hall Hlen.
  destruct text as [| c s]; [discriminate Hlen |].
  pose proof Hall as Hall'. simpl in Hall'. apply andb_true_iff in Hall' as [Hc Hs].
  destruct (digit_facts c Hc) as (_ & Hspace & _).
  unfold Py.int, Py.int_strip.
  replace (Py.int_lstrip (String c s)) with (String c s) by (simpl; rewrite Hspace; reflexivity).
  rewrite (rstrip_digits _ Hall).
  rewrite (digits_start c s EmptyString "-" EmptyString Hc eq_refl).
  rewrite (digits_start c s EmptyString "+" EmptyString Hc eq_refl).
  cbn [orb]. cbv zeta. rewrite int_prefix_10.
  destruct (int_digits_all_digits (String c s) false 0 Hall) as [v ->]; [right; discriminate |].
  rewrite (digit_count_all_digits _ Hall).
  apply Z.ltb_lt in Hlen. rewrite Hlen. reflexivity.
Qed.

(** X29. A plain decimal literal of more than [max_str_digits] digits is
    never a value: [int] refuses the conversion, so [get_constant_operand]
    answers [None] and the optimizers leave the operand alone, and
    [parse_value] raises. *)
Theorem long_decimal_is_no_value (text : string) :
  Py.all_chars Py.is_digit text = true ->
  Py.max_str_digits < Z.of_nat (String.length text) ->
  get_constant_operand text = None /\
  exists err, parse_value text = Raise err.
Proof.
  intros Hall Hlen. pose proof (int_long_decimal text Hall Hlen) as Hint.
  split; [unfold get_constant_operand; rewrite Hint; reflexivity |].
  unfold parse_value. destruct (negb _); [eexists; reflexivity |].
  destruct text as [| c1 [| c2 s]]; [discriminate Hlen | discriminate Hlen |].
  pose proof Hall as Hall'. simpl in Hall'.
  apply andb_true_iff in Hall' as [Hc1 Hrest]. apply andb_true_iff in Hrest as [Hc2 _].
  rewrite (digits_start c1 _ EmptyString "-" EmptyString Hc1 eq_refl). cbv zeta.
  assert (Hprefix : forall letter, Py.is_digit letter = false ->
            Py.startswith (String c1 (String c2 s)) (String "0" (String letter EmptyString))
            = false).
  { intros letter Hletter. unfold Py.startswith. cbn [String.prefix].
    destruct (ascii_dec "0" c1); [| reflexivity].
    destruct (ascii_dec letter c2) as [-> | _]; [congruence | reflexivity]. }
  rewrite (Hprefix "X"%char eq_refl), (Hprefix "O"%char eq_refl), (Hprefix "B"%char eq_refl).
  rewrite Hint. eexists. reflexivity.
Qed.

Lemma long_decimal_is_no_value_witness :
  let text := string_of_list_ascii (repeat "1"%char (Z.to_nat (Py.max_str_digits + 1))) in
  Py.all_chars Py.is_digit text = true /\
  Py.max_str_digits < Z.of_nat (String.length text) /\
  get_constant_operand text = None /\
  exists err, parse_value text = Raise err.
Proof.
  intros text.
  assert (Hall : Py.all_chars Py.is_digit text = true) by (vm_compute; reflexivity).
  assert (Hlen : Py.max_str_digits < Z.of_nat (String.length text))
    by (vm_compute; reflexivity).
  split; [exact Hall | split; [exact Hlen | exact (long_decimal_is_no_value text Hall Hlen)]].
Defined.
